(** * A shallow embedding of the virtual memory manager (vmm.c)

    The translation engine of [vmm.c] is modelled component by component, in
    the order of the C file: the utilities ([page_offset]), the physical
    memory, the page table, the backing store, the lookaside buffer and the
    memory management unit that drives them.

    Conventions.
    - C integers are [Z]; every conversion to a fixed-width type is written
      out ([uint8], [uint16], [uint32], [size_t], [int32], [int8]).
    - The file-scope globals of each component are gathered in one record per
      component; the engine state [mmu] holds the four components and the
      three counters.
    - A function that can leave the defined behaviour of C returns an
      [outcome]: [Exit] is [exit(EXIT_FAILURE)], [Abort] a failed [assert],
      [Undef] an out-of-bounds access, a division by zero or a signed
      overflow.
    - [malloc] is assumed to return a block (never [NULL]), so the branches
      that test its result and the inner [assert]s on the pointers are left
      out; the content of a fresh block is whatever the [world] says it is.
      [free] is left out too.
    - Arguments of type [size_t] are integers of [[0, 2^64)], addresses of
      type [uint32_t] integers of [[0, 2^32)].
    - [debug] only prints on [stderr] and is left out. *)

From Stdlib Require Import ZArith Lia Bool.
From stdpp Require Import base list strings.

Local Open Scope Z_scope.

(** ** Fixed-width integers *)

Definition uint8 (z : Z) : Z := z mod 2 ^ 8.
Definition uint16 (z : Z) : Z := z mod 2 ^ 16.
Definition uint32 (z : Z) : Z := z mod 2 ^ 32.
Definition size_t (z : Z) : Z := z mod 2 ^ 64.

(** Conversion to a signed type keeps the bit pattern (two's complement). *)
Definition int8 (z : Z) : Z := (z + 2 ^ 7) mod 2 ^ 8 - 2 ^ 7.
Definition int32 (z : Z) : Z := (z + 2 ^ 31) mod 2 ^ 32 - 2 ^ 31.

Definition INT_MAX : Z := 2 ^ 31 - 1.
Definition LONG_MAX : Z := 2 ^ 63 - 1.

(** ** Outcomes *)

Inductive outcome (A : Type) : Type :=
| Ok (a : A)
| Exit
| Abort
| Undef.

Arguments Ok {A} a.
Arguments Exit {A}.
Arguments Abort {A}.
Arguments Undef {A}.

Definition bind {A B : Type} (m : outcome A) (k : A -> outcome B) : outcome B :=
  match m with
  | Ok a => k a
  | Exit => Exit
  | Abort => Abort
  | Undef => Undef
  end.

Notation "'do' x <- m ; k" := (bind m (fun x => k))
  (at level 10, x name, m at level 100, k at level 200).
Notation "'do' ( x , y ) <- m ; k" := (bind m (fun '(x, y) => k))
  (at level 10, x name, y name, m at level 100, k at level 200).

(** [x++] on an [int]: overflow is undefined. *)
Definition incr (x : Z) : outcome Z :=
  if x <? INT_MAX then Ok (x + 1) else Undef.

(** ** Arrays *)

(** [a[i]] as an rvalue. *)
Definition load {A : Type} (a : list A) (i : Z) : outcome A :=
  if 0 <=? i then
    match a !! Z.to_nat i with
    | Some x => Ok x
    | None => Undef
    end
  else Undef.

(** [a[i] = x]. *)
Definition store {A : Type} (a : list A) (i : Z) (x : A) : outcome (list A) :=
  if (0 <=? i) && (i <? Z.of_nat (length a)) then Ok (<[Z.to_nat i := x]> a)
  else Undef.

(** [memcpy(dst + index, src, size)]. *)
Definition memcpy (dst : list Z) (index : Z) (src : list Z) (size : Z)
  : outcome (list Z) :=
  if (0 <=? index) && (0 <=? size)
     && (index + size <=? Z.of_nat (length dst))
     && (size <=? Z.of_nat (length src))
  then Ok (take (Z.to_nat index) dst
             ++ take (Z.to_nat size) src
             ++ drop (Z.to_nat (index + size)) dst)
  else Undef.

(** ** The world outside the program *)

Record world := {
  w_fopen : string -> option (list Z);  (* the files [fopen(f, "rb")] finds *)
  w_bytes : nat -> Z;                   (* content of a fresh block of bytes *)
  w_words : nat -> Z                    (* content of a fresh block of words *)
}.

Definition malloc_bytes (w : world) (n : Z) : list Z :=
  map (fun i => uint8 (w_bytes w i)) (seq 0 (Z.to_nat n)).

Definition malloc_words (w : world) (n : Z) : list Z :=
  map (fun i => int32 (w_words w i)) (seq 0 (Z.to_nat n)).

(** ** Utilities *)

Record virtualmem_t := { page : Z; offset : Z }.

Definition page_offset (addr : Z) : virtualmem_t :=
  let eax := addr in
  let ax := uint16 (Z.land eax 0xFFFF) in
  let ah := uint8 (Z.shiftr ax 0x8) in
  let al := uint8 (Z.land ax 0xFF) in
  {| page := ah; offset := al |}.

Arguments page_offset : simpl never.

(** ** Physical memory *)

Record physical := {
  FRAME_SIZE : Z;
  FRAME_N : Z;
  g_physical : list Z;
  g_physical_index : Z
}.

Definition init_physical (w : world) (entries size : Z) : physical :=
  {| FRAME_SIZE := size;
     FRAME_N := entries;
     g_physical_index := uint8 (-1);
     g_physical := malloc_bytes w (size_t (size * entries)) |}.

Definition physical_insert (addr : list Z) (size : Z) (ph : physical)
  : outcome physical :=
  let idx := uint8 (g_physical_index ph + 1) in
  let index := size_t (FRAME_N ph * idx) in
  do mem <- memcpy (g_physical ph) index addr size;
  Ok {| FRAME_SIZE := FRAME_SIZE ph;
        FRAME_N := FRAME_N ph;
        g_physical := mem;
        g_physical_index := idx |}.

Definition physical_index (ph : physical) : Z :=
  uint32 (size_t (FRAME_N ph * g_physical_index ph)).

Definition physical_value (addr : Z) (ph : physical) : outcome Z :=
  load (g_physical ph) addr.

(** ** Page table *)

Inductive PAGE_RESULT := PAGE_FAULT | PAGE_SUCCESS.

Record pmt := {
  PAGE_SIZE : Z;
  PAGE_N : Z;
  g_pmt : list Z
}.

(** [sizeof(int32_t)] is 4. The loop [for (i = 0; i < size; i++) g_pmt[i] = -1]
    runs over [size], the block has [entries] words: the first [size] words
    are set, the others keep what [malloc] returned. The loop leaves the block when
    [entries < size], and its [int] counter overflows when [INT_MAX < size]. *)
Definition init_pmt (w : world) (entries size : Z) : outcome pmt :=
  let fresh := malloc_words w (size_t (entries * 4) / 4) in
  if (size <=? Z.of_nat (length fresh)) && (size <=? INT_MAX) then
    Ok {| PAGE_N := entries;
          PAGE_SIZE := size;
          g_pmt := replicate (Z.to_nat size) (-1)
                     ++ drop (Z.to_nat size) fresh |}
  else Undef.

Definition pmt_search (page : Z) (pm : pmt) : outcome PAGE_RESULT :=
  do e <- load (g_pmt pm) page;
  Ok (if e =? -1 then PAGE_FAULT else PAGE_SUCCESS).

Definition pmt_get (page : Z) (pm : pmt) : outcome Z :=
  do e <- load (g_pmt pm) page;
  Ok (uint32 e).

Definition pmt_insert (page frame : Z) (pm : pmt) : outcome pmt :=
  do t <- store (g_pmt pm) page (int32 frame);
  Ok {| PAGE_SIZE := PAGE_SIZE pm; PAGE_N := PAGE_N pm; g_pmt := t |}.

Definition pmt_page_n (pm : pmt) : Z := PAGE_N pm.

(** ** Demand paging *)

Record FILE := { f_bytes : list Z; f_pos : Z }.

Definition init_backingstore (w : world) (f : string) : outcome FILE :=
  match w_fopen w f with
  | Some bytes => Ok {| f_bytes := bytes; f_pos := 0 |}
  | None => Exit
  end.

(** [fseek(stream, location, SEEK_SET)]: the offset is a [long]; a negative
    one is refused and the position stays. The result is not looked at. *)
Definition fseek_set (stream : FILE) (location : Z) : FILE :=
  if location <=? LONG_MAX
  then {| f_bytes := f_bytes stream; f_pos := location |}
  else stream.

(** [fread(ptr, size, 1, stream)]: the number of whole blocks read (0 or 1),
    the bytes read and the stream after the call. *)
Definition fread1 (size : Z) (stream : FILE) : Z * list Z * FILE :=
  let rest := drop (Z.to_nat (f_pos stream)) (f_bytes stream) in
  if (0 <? size) && (size <=? Z.of_nat (length rest)) then
    (1, take (Z.to_nat size) rest,
     {| f_bytes := f_bytes stream; f_pos := f_pos stream + size |})
  else
    (0, rest,
     {| f_bytes := f_bytes stream;
        f_pos := if 0 <? size
                 then Z.max (f_pos stream) (Z.of_nat (length (f_bytes stream)))
                 else f_pos stream |}).

Definition backingstore_get (offset page_n : Z) (g_backing : FILE)
  : outcome (list Z * FILE) :=
  let blocks := 1 in
  let location := size_t (offset * page_n) in
  let sought := fseek_set g_backing location in
  let '(ret, phys_addr, after) := fread1 page_n sought in
  if ret =? blocks then Ok (phys_addr, after) else Exit.

(** ** Lookaside buffer *)

Inductive TLB_RESULT := TLB_MISS | TLB_HIT.

Record tlb_t := { tlb_page : Z; tlb_frame : Z }.

Record tlb := {
  TLB_SIZE : Z;
  g_tlb : list tlb_t;
  g_tlb_index : Z
}.

Definition hashCode (key : Z) (t : tlb) : outcome Z :=
  if TLB_SIZE t =? 0 then Undef else Ok (key mod TLB_SIZE t).

(** [sizeof(tlb_t)] is 8; the loop sets every slot, with an [int] counter. *)
Definition init_tlb (size : Z) : outcome tlb :=
  if (size <=? size_t (8 * size) / 8) && (size <=? INT_MAX) then
    Ok {| TLB_SIZE := size;
          g_tlb_index := 0;
          g_tlb := replicate (Z.to_nat size)
                     {| tlb_page := uint8 (-1); tlb_frame := uint32 (-1) |} |}
  else Undef.

Definition tlb_insert (page frame : Z) (t : tlb) : outcome tlb :=
  do hash <- hashCode page t;
  do slots <- store (g_tlb t) hash {| tlb_page := page; tlb_frame := frame |};
  Ok {| TLB_SIZE := TLB_SIZE t; g_tlb := slots; g_tlb_index := g_tlb_index t |}.

Definition tlb_search (page : Z) (t : tlb) : outcome TLB_RESULT :=
  do hash <- hashCode page t;
  do e <- load (g_tlb t) hash;
  Ok (if tlb_page e =? page then TLB_HIT else TLB_MISS).

Definition tlb_get (page : Z) (t : tlb) : outcome Z :=
  do hash <- hashCode page t;
  do e <- load (g_tlb t) hash;
  Ok (if tlb_page e =? page then tlb_frame e else uint32 (-1)).

(** ** Memory management unit *)

Record mmu := {
  mmu_initialized : bool;
  g_pagefault : Z;
  g_tlbhit : Z;
  g_translated : Z;
  m_physical : physical;
  m_pmt : pmt;
  g_backing : FILE;
  m_tlb : tlb
}.

(** Assignments to the globals of the unit. *)
Definition set_g_pagefault (v : Z) (s : mmu) : mmu :=
  {| mmu_initialized := mmu_initialized s; g_pagefault := v;
     g_tlbhit := g_tlbhit s; g_translated := g_translated s;
     m_physical := m_physical s; m_pmt := m_pmt s;
     g_backing := g_backing s; m_tlb := m_tlb s |}.

Definition set_g_tlbhit (v : Z) (s : mmu) : mmu :=
  {| mmu_initialized := mmu_initialized s; g_pagefault := g_pagefault s;
     g_tlbhit := v; g_translated := g_translated s;
     m_physical := m_physical s; m_pmt := m_pmt s;
     g_backing := g_backing s; m_tlb := m_tlb s |}.

Definition set_g_translated (v : Z) (s : mmu) : mmu :=
  {| mmu_initialized := mmu_initialized s; g_pagefault := g_pagefault s;
     g_tlbhit := g_tlbhit s; g_translated := v;
     m_physical := m_physical s; m_pmt := m_pmt s;
     g_backing := g_backing s; m_tlb := m_tlb s |}.

Definition set_m_physical (v : physical) (s : mmu) : mmu :=
  {| mmu_initialized := mmu_initialized s; g_pagefault := g_pagefault s;
     g_tlbhit := g_tlbhit s; g_translated := g_translated s;
     m_physical := v; m_pmt := m_pmt s;
     g_backing := g_backing s; m_tlb := m_tlb s |}.

Definition set_m_pmt (v : pmt) (s : mmu) : mmu :=
  {| mmu_initialized := mmu_initialized s; g_pagefault := g_pagefault s;
     g_tlbhit := g_tlbhit s; g_translated := g_translated s;
     m_physical := m_physical s; m_pmt := v;
     g_backing := g_backing s; m_tlb := m_tlb s |}.

Definition set_g_backing (v : FILE) (s : mmu) : mmu :=
  {| mmu_initialized := mmu_initialized s; g_pagefault := g_pagefault s;
     g_tlbhit := g_tlbhit s; g_translated := g_translated s;
     m_physical := m_physical s; m_pmt := m_pmt s;
     g_backing := v; m_tlb := m_tlb s |}.

Definition set_m_tlb (v : tlb) (s : mmu) : mmu :=
  {| mmu_initialized := mmu_initialized s; g_pagefault := g_pagefault s;
     g_tlbhit := g_tlbhit s; g_translated := g_translated s;
     m_physical := m_physical s; m_pmt := m_pmt s;
     g_backing := g_backing s; m_tlb := v |}.

Definition init_mmu (w : world) (store : string)
    (page_n page_size frame_n frame_size tlb_size : Z) : outcome mmu :=
  let ph := init_physical w frame_n frame_size in
  do f <- init_backingstore w store;
  do pm <- init_pmt w page_n page_size;
  do t <- init_tlb tlb_size;
  Ok {| mmu_initialized := true;
        g_pagefault := 0;
        g_tlbhit := 0;
        g_translated := 0;
        m_physical := ph;
        m_pmt := pm;
        g_backing := f;
        m_tlb := t |}.

(** The page-fault case of [mmu_findframe]: fetch the page, put it in a
    frame, record the frame in the page table. *)
Definition page_fault (page : Z) (s : mmu) : outcome (Z * mmu) :=
  do faults <- incr (g_pagefault s);
  let s := set_g_pagefault faults s in
  let page_n := pmt_page_n (m_pmt s) in
  do (phys_mem, f) <- backingstore_get page page_n (g_backing s);
  let s := set_g_backing f s in
  do ph <- physical_insert phys_mem page_n (m_physical s);
  let s := set_m_physical ph s in
  let frame := physical_index (m_physical s) in
  do pm <- pmt_insert page frame (m_pmt s);
  Ok (frame, set_m_pmt pm s).

Definition mmu_findframe (addr : Z) (s : mmu) : outcome (Z * mmu) :=
  let virt_mem := page_offset addr in
  do in_tlb <- tlb_search (page virt_mem) (m_tlb s);
  match in_tlb with
  | TLB_HIT =>
      do hits <- incr (g_tlbhit s);
      let s := set_g_tlbhit hits s in
      do frame <- tlb_get (page virt_mem) (m_tlb s);
      Ok (frame, s)
  | TLB_MISS =>
      do in_pmt <- pmt_search (page virt_mem) (m_pmt s);
      do (frame, s) <-
        match in_pmt with
        | PAGE_SUCCESS =>
            do frame <- pmt_get (page virt_mem) (m_pmt s);
            Ok (frame, s)
        | PAGE_FAULT => page_fault (page virt_mem) s
        end;
      do t <- tlb_insert (page virt_mem) frame (m_tlb s);
      Ok (frame, set_m_tlb t s)
  end.

Definition mmu_getphysical (logical : Z) (s : mmu) : outcome (Z * mmu) :=
  if mmu_initialized s then
    do n <- incr (g_translated s);
    let s := set_g_translated n s in
    let virt_mem := page_offset logical in
    do (frame, s) <- mmu_findframe logical s;
    let phys_addr := uint32 (frame + offset virt_mem) in
    Ok (phys_addr, s)
  else Abort.

Definition mmu_getvalue (physical : Z) (s : mmu) : outcome Z :=
  if mmu_initialized s then
    do v <- physical_value (int32 physical) (m_physical s);
    Ok (int8 v)
  else Abort.

(** A run of translations, one [mmu_getphysical] per logical address. *)
Fixpoint translations (logicals : list Z) (s : mmu) : outcome mmu :=
  match logicals with
  | [] => Ok s
  | logical :: rest =>
      do (physical, s) <- mmu_getphysical logical s;
      translations rest s
  end.

(** The loop of [main] over the array of logical addresses: each address is
    translated, the value at its physical address is read, and the three
    numbers are printed as one line. The lines stand for the output: the
    format is [%d] for each of the three, so the two [uint32_t] are shown as
    the [int] of the same bits, and the [int8_t] value as it is. *)
Fixpoint main_loop (vmem_arr : list Z) (s : mmu)
  : outcome (list (Z * Z * Z) * mmu) :=
  match vmem_arr with
  | [] => Ok ([], s)
  | logical :: rest =>
      do (physical, s) <- mmu_getphysical logical s;
      do value <- mmu_getvalue physical s;
      do (lines, s) <- main_loop rest s;
      Ok ((int32 logical, int32 physical, value) :: lines, s)
  end.

(** ** The reference configuration of main.c *)

Module main.
Definition PAGE_N : Z := 256.
Definition PAGE_SIZE : Z := 256.
Definition FRAME_N : Z := 256.
Definition FRAME_SIZE : Z := 256.
Definition TLB_SIZE : Z := 16.
Definition BACKING_STORE : string := "BACKING_STORE.bin".
Definition LOGICAL_ADDRESS_N : Z := 1000.
End main.


(** The globals before [init_mmu]: static storage, all zeroes. *)
Definition boot : mmu :=
  {| mmu_initialized := false;
     g_pagefault := 0; g_tlbhit := 0; g_translated := 0;
     m_physical := {| FRAME_SIZE := 0; FRAME_N := 0; g_physical := [];
                      g_physical_index := 0 |};
     m_pmt := {| PAGE_SIZE := 0; PAGE_N := 0; g_pmt := [] |};
     g_backing := {| f_bytes := []; f_pos := 0 |};
     m_tlb := {| TLB_SIZE := 0; g_tlb := []; g_tlb_index := 0 |} |}.

(** A world with one file, the backing store, and zeroed fresh blocks. *)
Definition disk (bytes : list Z) : world :=
  {| w_fopen := fun f =>
       if String.eqb f main.BACKING_STORE then Some bytes else None;
     w_bytes := fun _ => 0;
     w_words := fun _ => 0 |}.

(** A backing store of 256 pages of 256 bytes: page [p] is filled with the
    byte [p + 41], so page 1 holds 42 everywhere. *)
Definition sample_store : list Z :=
  flat_map (fun p => replicate 256 (uint8 (Z.of_nat p + 41))) (seq 0 256).

Definition reference_init : outcome mmu :=
  init_mmu (disk sample_store) main.BACKING_STORE
    main.PAGE_N main.PAGE_SIZE main.FRAME_N main.FRAME_SIZE main.TLB_SIZE.

(** The state an initialisation leaves, [boot] when it did not return. *)
Definition state_of (r : outcome mmu) : mmu :=
  match r with Ok s => s | _ => boot end.

(** The value and the state a call leaves, when it returned. *)
Definition value_of {A : Type} (r : outcome (A * mmu)) : outcome A :=
  do (a, s) <- r; Ok a.

Definition after {A : Type} (r : outcome (A * mmu)) : mmu :=
  match r with Ok (_, s) => s | _ => boot end.

(** The reference engine: after [init_mmu], after the translation of
    [0x0100] (page 1), and after that of [0x1100] (page 17) next. *)
Definition reference_state : mmu := state_of reference_init.
Definition after_page_1 : mmu := after (mmu_getphysical 0x0100 reference_state).
Definition after_page_17 : mmu := after (mmu_getphysical 0x1100 after_page_1).

(** * The vocabulary of the properties *)

(** ** Slots, allocations and fresh blocks *)

(** What [tlb_search] and [tlb_get] see: the slot the page hashes to. *)
Definition tlb_slot (page : Z) (t : tlb) : outcome tlb_t :=
  do hash <- hashCode page t;
  load (g_tlb t) hash.

(** A world whose fresh blocks are filled with zeroes and whose only file is
    missing: enough to run the page table and the lookaside buffer alone. *)
Definition zero_world : world :=
  {| w_fopen := fun _ => None; w_bytes := fun _ => 0%Z; w_words := fun _ => 0%Z |}.

(** The memory can take a block of [size] bytes in each of its 256 slots. *)
Definition physical_fits (size : Z) (ph : physical) : Prop :=
  0 <= FRAME_N ph /\ 0 <= size
  /\ FRAME_N ph * 255 + size <= Z.of_nat (length (g_physical ph))
  /\ Z.of_nat (length (g_physical ph)) < 2 ^ 64.

(** Successive allocations, one [physical_insert] per page, as the fault
    path of [mmu_findframe] performs them over a run. *)
Fixpoint physical_inserts (pages : list (list Z)) (size : Z) (ph : physical)
  : outcome physical :=
  match pages with
  | [] => Ok ph
  | addr :: rest =>
      do ph' <- physical_insert addr size ph;
      physical_inserts rest size ph'
  end.

(** ** What a translation does to the state *)

(** What a translation leaves alone: the flag, the sizes, the capacities and
    the content of the backing file. *)
Record same_shape (s s' : mmu) : Prop := {
  shape_initialized : mmu_initialized s' = mmu_initialized s;
  shape_tlb_size : TLB_SIZE (m_tlb s') = TLB_SIZE (m_tlb s);
  shape_tlb_length : length (g_tlb (m_tlb s')) = length (g_tlb (m_tlb s));
  shape_page_n : PAGE_N (m_pmt s') = PAGE_N (m_pmt s);
  shape_pmt_length : length (g_pmt (m_pmt s')) = length (g_pmt (m_pmt s));
  shape_frame_n : FRAME_N (m_physical s') = FRAME_N (m_physical s);
  shape_physical_length :
    length (g_physical (m_physical s')) = length (g_physical (m_physical s));
  shape_file : f_bytes (g_backing s') = f_bytes (g_backing s)
}.

Record hit_path (p frame : Z) (s s' : mmu) : Prop := {
  hit_search : tlb_search p (m_tlb s) = Ok TLB_HIT;
  hit_get : tlb_get p (m_tlb s) = Ok frame;
  hit_tlbhit : g_tlbhit s' = g_tlbhit s + 1;
  hit_pagefault : g_pagefault s' = g_pagefault s;
  hit_tlb : m_tlb s' = m_tlb s;
  hit_pmt : m_pmt s' = m_pmt s;
  hit_physical : m_physical s' = m_physical s;
  hit_backing : g_backing s' = g_backing s
}.

Record mapped_path (p frame : Z) (s s' : mmu) : Prop := {
  mapped_search : tlb_search p (m_tlb s) = Ok TLB_MISS;
  mapped_pmt_search : pmt_search p (m_pmt s) = Ok PAGE_SUCCESS;
  mapped_get : pmt_get p (m_pmt s) = Ok frame;
  mapped_insert : tlb_insert p frame (m_tlb s) = Ok (m_tlb s');
  mapped_tlbhit : g_tlbhit s' = g_tlbhit s;
  mapped_pagefault : g_pagefault s' = g_pagefault s;
  mapped_pmt : m_pmt s' = m_pmt s;
  mapped_physical : m_physical s' = m_physical s;
  mapped_backing : g_backing s' = g_backing s
}.

Record fault_path (p frame : Z) (s s' : mmu) : Prop := {
  fault_search : tlb_search p (m_tlb s) = Ok TLB_MISS;
  fault_pmt_search : pmt_search p (m_pmt s) = Ok PAGE_FAULT;
  fault_read :
    exists data,
      backingstore_get p (PAGE_N (m_pmt s)) (g_backing s)
      = Ok (data, g_backing s')
      /\ physical_insert data (PAGE_N (m_pmt s)) (m_physical s)
         = Ok (m_physical s');
  fault_frame : frame = physical_index (m_physical s');
  fault_pmt_insert : pmt_insert p frame (m_pmt s) = Ok (m_pmt s');
  fault_tlb_insert : tlb_insert p frame (m_tlb s) = Ok (m_tlb s');
  fault_tlbhit : g_tlbhit s' = g_tlbhit s;
  fault_pagefault : g_pagefault s' = g_pagefault s + 1
}.

(** ** Histories *)

(** [faulted_in p s]: on the way to [s], some translation took the
    page-fault path for page [p]. *)
Inductive faulted_in (p : Z) : mmu -> Prop :=
| faulted_now s logical phys s' :
    page (page_offset logical) = p ->
    tlb_search p (m_tlb s) = Ok TLB_MISS ->
    pmt_search p (m_pmt s) = Ok PAGE_FAULT ->
    mmu_getphysical logical s = Ok (phys, s') ->
    faulted_in p s'
| faulted_before s logical phys s' :
    faulted_in p s ->
    mmu_getphysical logical s = Ok (phys, s') ->
    faulted_in p s'.

(** Every frame base the memory can report is below [0xFFFFFFFF], the
    pattern of the "unmapped" entry. *)
Definition frames_ok (s : mmu) : Prop :=
  0 <= FRAME_N (m_physical s) /\ FRAME_N (m_physical s) * 255 < 2 ^ 32 - 1.

(** [run s0 history s]: from [s0] the translations of the addresses of
    [history], the latest first, all returned and left the state [s]. *)
Inductive run (s0 : mmu) : list Z -> mmu -> Prop :=
| run_nil : run s0 [] s0
| run_step history s logical phys s' :
    run s0 history s ->
    mmu_getphysical logical s = Ok (phys, s') ->
    run s0 (logical :: history) s'.

(** The pages of the addresses translated so far. *)
Definition pages_of (history : list Z) : list Z :=
  map (fun logical => page (page_offset logical)) history.

(** What holds of the page table and of the lookaside buffer along a run
    from [init_mmu]: a page the loop of [init_pmt] reached and no
    translation touched is unmapped, and a slot holds the initial 255 or a
    page that was translated. *)
Record untouched_inv (page_size tlb_size : Z) (history : list Z) (s : mmu)
  : Prop := {
  inv_tlb_size : TLB_SIZE (m_tlb s) = tlb_size;
  inv_tlb_length : Z.of_nat (length (g_tlb (m_tlb s))) = tlb_size;
  inv_unmapped :
    forall p, 0 <= p < page_size -> p ∉ pages_of history ->
              load (g_pmt (m_pmt s)) p = Ok (-1);
  inv_slots :
    forall h e, load (g_tlb (m_tlb s)) h = Ok e ->
                tlb_page e = 255 \/ tlb_page e ∈ pages_of history
}.

(** A state in which no translation can go out of bounds or meet a short
    read: the buffer has its slots, the page table an entry for each of the
    256 page numbers, the backing file 256 blocks of [PAGE_N] bytes, and
    the physical memory room for a block in each of its 256 slots. *)
Record mmu_ok (s : mmu) : Prop := {
  ok_initialized : mmu_initialized s = true;
  ok_tlb : 0 < TLB_SIZE (m_tlb s) <= Z.of_nat (length (g_tlb (m_tlb s)));
  ok_pmt : 256 <= Z.of_nat (length (g_pmt (m_pmt s)));
  ok_page_n : 0 < PAGE_N (m_pmt s);
  ok_file : 256 * PAGE_N (m_pmt s) <= Z.of_nat (length (f_bytes (g_backing s)));
  ok_seek : 255 * PAGE_N (m_pmt s) <= LONG_MAX;
  ok_physical : physical_fits (PAGE_N (m_pmt s)) (m_physical s)
}.

(** ** Views of a result and further configurations *)

(** What a translation shows: the physical address and the three counters. *)
Definition counters_after (r : outcome (Z * mmu)) : outcome (Z * Z * Z * Z) :=
  do (phys, s) <- r;
  Ok (phys, g_pagefault s, g_tlbhit s, g_translated s).

(** What a page fault shows: the frame, the fault counter, the position of
    the backing file and the 256 bytes at the frame base. *)
Definition fault_view (r : outcome (Z * mmu)) : outcome (Z * Z * Z * list Z) :=
  do (frame, s) <- r;
  Ok (frame, g_pagefault s, f_pos (g_backing s),
      take 256 (drop (Z.to_nat frame) (g_physical (m_physical s)))).

(** A backing store of 512 blocks of 128 bytes, block [b] filled with the
    byte [b mod 256]. *)
Definition numbered_store : list Z :=
  flat_map (fun b => replicate 128 (uint8 (Z.of_nat b))) (seq 0 512).

(** The engine with 256 page-table entries and a page size of 128. *)
Definition half_pages_init : outcome mmu :=
  init_mmu (disk numbered_store) main.BACKING_STORE 256 128 256 256 16.

(** ** Resident pages *)

(** What [init_tlb] leaves in every slot. *)
Definition sentinel : tlb_t := {| tlb_page := 255; tlb_frame := 2 ^ 32 - 1 |}.

(** A slot is [cached] when it holds a page of [order] with the frame of its
    rank: the page at rank [i] has frame [frame_n * i]. *)
Definition cached (frame_n : Z) (order : list Z) (e : tlb_t) : Prop :=
  exists i, order !! i = Some (tlb_page e)
            /\ tlb_frame e = frame_n * Z.of_nat i.

(** The sizes under which frames neither overlap nor leave the memory:
    every offset is inside a page, a page fits a frame slot, the 256 slots fit
    the memory, and a physical address fits an [int]. *)
Definition well_configured (page_n page_size frame_n frame_size tlb_size : Z)
  : Prop :=
  0 < tlb_size
  /\ 256 <= page_size
  /\ 256 <= page_n <= frame_n
  /\ frame_n * 255 + page_n <= size_t (frame_size * frame_n)
  /\ size_t (frame_size * frame_n) < 2 ^ 31.

(** [resident frame_n page_n file order s]: the pages of [order] are the
    pages faulted in so far, the oldest first; the page of rank [i] is mapped
    to frame [frame_n * i], which holds its [page_n] bytes of [file]; every
    other page is unmapped; a slot of the lookaside buffer holds the
    [sentinel] or a page of [order] with its frame. *)
Record resident (frame_n page_n : Z) (file : list Z) (order : list Z) (s : mmu)
  : Prop := {
  res_initialized : mmu_initialized s = true;
  res_frame_n : FRAME_N (m_physical s) = frame_n;
  res_page_n : PAGE_N (m_pmt s) = page_n;
  res_file : f_bytes (g_backing s) = file;
  res_sizes : 256 <= page_n <= frame_n;
  res_room :
    frame_n * 255 + page_n <= Z.of_nat (length (g_physical (m_physical s)))
    /\ Z.of_nat (length (g_physical (m_physical s))) < 2 ^ 31;
  res_nodup : NoDup order;
  res_pages : forall p, p ∈ order -> 0 <= p < 256;
  res_index :
    uint8 (g_physical_index (m_physical s) + 1) = Z.of_nat (length order) mod 256;
  res_faults : g_pagefault s = Z.of_nat (length order);
  res_mapped :
    forall i p, order !! i = Some p ->
                load (g_pmt (m_pmt s)) p = Ok (frame_n * Z.of_nat i);
  res_unmapped :
    forall p, 0 <= p < 256 -> p ∉ order -> load (g_pmt (m_pmt s)) p = Ok (-1);
  res_bytes :
    forall i p o, order !! i = Some p -> 0 <= o < page_n ->
      exists b,
        g_physical (m_physical s) !! Z.to_nat (frame_n * Z.of_nat i + o) = Some b
        /\ file !! Z.to_nat (p * page_n + o) = Some b;
  res_slots :
    forall h e, load (g_tlb (m_tlb s)) h = Ok e ->
                e = sentinel \/ cached frame_n order e;
  res_slot_255 :
    255 ∈ order ->
    forall e, tlb_slot 255 (m_tlb s) = Ok e -> cached frame_n order e
}.

(** The byte of the backing store a logical address names: byte [offset]
    of the block of [page_n] bytes number [page]. *)
Definition backing_byte (file : list Z) (page_n logical : Z) : Z :=
  nth (Z.to_nat (page (page_offset logical) * page_n
                 + offset (page_offset logical))) file 0.

(** What a line of [main_loop] shows besides the physical address. *)
Definition logical_and_value (line : Z * Z * Z) : Z * Z :=
  (fst (fst line), snd line).

(** The buffer and the table a component call leaves, the empty ones when it
    did not return. *)
Definition state_of_tlb (r : outcome tlb) : tlb :=
  match r with
  | Ok t => t
  | _ => {| TLB_SIZE := 0; g_tlb := []; g_tlb_index := 0 |}
  end.

Definition state_of_pmt (r : outcome pmt) : pmt :=
  match r with
  | Ok pm => pm
  | _ => {| PAGE_SIZE := 0; PAGE_N := 0; g_pmt := [] |}
  end.

Definition state_of_physical (r : outcome physical) : physical :=
  match r with
  | Ok ph => ph
  | _ => {| FRAME_SIZE := 0; FRAME_N := 0; g_physical := [];
            g_physical_index := 0 |}
  end.

(** ** Units with very many frames *)

(** The unit of [main] with another number of frames: every other size, the
    backing store and the number of slots are those of the reference. *)
Definition many_frames_init (frame_n : Z) : outcome mmu :=
  init_mmu (disk sample_store) main.BACKING_STORE
    main.PAGE_N main.PAGE_SIZE frame_n main.FRAME_SIZE main.TLB_SIZE.

(** The first address of each of the pages 0 to 238 and 240 to 254, in
    that order. *)
Definition first_pages : list Z :=
  map (fun p => p * 256) (seqZ 0 239 ++ seqZ 240 15).

(** * Properties *)

(** ** Fixed-width arithmetic *)

Lemma uint8_range z : 0 <= uint8 z < 256.
Proof. unfold uint8. apply Z.mod_pos_bound. lia. Qed.


Lemma uint32_small z : 0 <= z < 2 ^ 32 -> uint32 z = z.
Proof. intros H. unfold uint32. apply Z.mod_small. lia. Qed.

(** Truncating twice is truncating once to the narrower type. *)
Lemma mod_pow2_narrow (z n m : Z) :
  0 <= n <= m -> (z mod 2 ^ m) mod 2 ^ n = z mod 2 ^ n.
Proof.
  intros H. apply Z.mod_mod_divide.
  exists (2 ^ (m - n)). rewrite <- Z.pow_add_r by lia. f_equal. lia.
Qed.

Lemma uint32_size_t z : uint32 (size_t z) = uint32 z.
Proof. unfold uint32, size_t. apply mod_pow2_narrow. lia. Qed.

(** A frame stored in the page table as an [int32_t] reads back unchanged. *)
Lemma uint32_int32 z : uint32 (int32 z) = uint32 z.
Proof.
  unfold uint32, int32.
  rewrite Zminus_mod, Z.mod_mod by lia.
  rewrite <- Zminus_mod. f_equal. lia.
Qed.

Lemma int32_minus_one z : 0 <= z < 2 ^ 32 -> int32 z = -1 <-> z = 2 ^ 32 - 1.
Proof.
  intros H. unfold int32.
  destruct (Z.lt_ge_cases z (2 ^ 31)) as [Hlt | Hge].
  - rewrite Z.mod_small by lia. lia.
  - replace (z + 2 ^ 31) with (z - 2 ^ 31 + 1 * 2 ^ 32) by lia.
    rewrite Z.mod_add by lia. rewrite Z.mod_small by lia. lia.
Qed.

(** ** Decomposition of a logical address *)

Lemma land_low16 addr : Z.land addr 0xFFFF = addr mod 2 ^ 16.
Proof. change 0xFFFF with (Z.ones 16). apply Z.land_ones. lia. Qed.

Lemma land_low8 addr : Z.land addr 0xFF = addr mod 2 ^ 8.
Proof. change 0xFF with (Z.ones 8). apply Z.land_ones. lia. Qed.

Lemma high_byte addr : Z.shiftr (Z.land addr 0xFF00) 8 = (addr / 2 ^ 8) mod 2 ^ 8.
Proof.
  change 0xFF00 with (Z.shiftl (Z.ones 8) 8).
  rewrite Z.shiftr_land, Z.shiftr_shiftl_l by lia.
  change (8 - 8) with 0. rewrite Z.shiftl_0_r.
  rewrite Z.land_ones by lia.
  now rewrite Z.shiftr_div_pow2 by lia.
Qed.

Lemma page_offset_page addr : page (page_offset addr) = (addr / 2 ^ 8) mod 2 ^ 8.
Proof.
  unfold page_offset, page, uint8, uint16.
  rewrite land_low16, Z.mod_mod by lia.
  rewrite Z.shiftr_div_pow2 by lia.
  assert (H : addr mod 2 ^ 16 / 2 ^ 8 = (addr / 2 ^ 8) mod 2 ^ 8).
  { change (2 ^ 16) with (2 ^ 8 * 2 ^ 8).
    rewrite Z.rem_mul_r by lia.
    rewrite (Z.mul_comm (2 ^ 8)), Z.div_add by lia.
    rewrite (Z.div_small (addr mod 2 ^ 8)) by (apply Z.mod_pos_bound; lia).
    apply Z.add_0_l. }
  rewrite H. apply Z.mod_mod. lia.
Qed.

Lemma page_offset_offset addr : offset (page_offset addr) = addr mod 2 ^ 8.
Proof.
  unfold page_offset, offset, uint8, uint16.
  rewrite land_low16, land_low8, !Z.mod_mod by lia.
  apply mod_pow2_narrow. lia.
Qed.

Lemma page_range addr : 0 <= page (page_offset addr) < 256.
Proof. rewrite page_offset_page. apply Z.mod_pos_bound. lia. Qed.

Lemma offset_range addr : 0 <= offset (page_offset addr) < 256.
Proof. rewrite page_offset_offset. apply Z.mod_pos_bound. lia. Qed.

(** C3. For every 32-bit logical address the page number is
    [(addr & 0xFF00) >> 8] and the offset is [addr & 0xFF]; the result is a
    plain value (the function is total, no input is refused) and two
    addresses with the same low 16 bits decompose alike, whatever the bits
    above bit 15. *)
Theorem page_offset_correct (addr : Z) :
  0 <= addr < 2 ^ 32 ->
  page (page_offset addr) = Z.shiftr (Z.land addr 0xFF00) 8
  /\ offset (page_offset addr) = Z.land addr 0xFF
  /\ (forall addr' : Z, 0 <= addr' < 2 ^ 32 ->
        Z.land addr' 0xFFFF = Z.land addr 0xFFFF ->
        page_offset addr' = page_offset addr).
Proof.
  intros _. split; [| split].
  - now rewrite page_offset_page, high_byte.
  - now rewrite page_offset_offset, land_low8.
  - intros addr' _ Hlow. unfold page_offset. now rewrite Hlow.
Qed.

Lemma page_offset_correct_witness :
  0 <= 0x12345678 < 2 ^ 32
  /\ page (page_offset 0x12345678) = 0x56
  /\ offset (page_offset 0x12345678) = 0x78
  /\ page_offset 0xFFFF5678 = page_offset 0x12345678.
Proof.
  split; [lia |].
  destruct (page_offset_correct 0x12345678 ltac:(lia)) as (Hp & Ho & Hhi).
  split; [exact Hp | split; [exact Ho |]].
  apply Hhi; [lia | reflexivity].
Defined.

(** ** Outcomes and arrays *)

Lemma bind_Ok {A B : Type} (m : outcome A) (k : A -> outcome B) (b : B) :
  bind m k = Ok b -> exists a, m = Ok a /\ k a = Ok b.
Proof. destruct m; simpl; intros H; try discriminate. eauto. Qed.

(** A call whose value is known returned, in the state [after] names. *)
Lemma returned {A : Type} (r : outcome (A * mmu)) (a : A) :
  value_of r = Ok a -> r = Ok (a, after r).
Proof.
  destruct r as [[a' s] | | |]; simpl; intros H; try discriminate.
  now inversion H.
Qed.

Lemma state_of_returned (r : outcome mmu) :
  match r with Ok _ => True | _ => False end -> r = Ok (state_of r).
Proof. destruct r; simpl; intros H; solve [reflexivity | destruct H]. Qed.

Lemma incr_Ok x y : incr x = Ok y -> y = x + 1 /\ x < INT_MAX.
Proof.
  unfold incr. destruct (Z.ltb_spec x INT_MAX) as [Hlt | Hge];
    intros H; inversion H. lia.
Qed.

Lemma incr_lt x : x < INT_MAX -> incr x = Ok (x + 1).
Proof.
  intros H. unfold incr. destruct (Z.ltb_spec x INT_MAX) as [Hlt | Hge]; [done | lia].
Qed.

Section arrays.
Context {A : Type}.
Implicit Types (a : list A) (i j : Z) (x : A).

Lemma load_Ok a i x :
  load a i = Ok x <-> 0 <= i /\ a !! Z.to_nat i = Some x.
Proof.
  unfold load. destruct (Z.leb_spec 0 i) as [Hi | Hi].
  - destruct (a !! Z.to_nat i); split; intros H'.
    + inversion H'; auto.
    + destruct H' as [_ H']. inversion H'; auto.
    + discriminate.
    + destruct H'; discriminate.
  - split; [discriminate | lia].
Qed.

Lemma load_in_bounds a i :
  0 <= i < Z.of_nat (length a) -> exists x, load a i = Ok x.
Proof.
  intros H. destruct (lookup_lt_is_Some_2 a (Z.to_nat i)) as [x Hx]; [lia |].
  exists x. apply load_Ok. split; [lia | done].
Qed.

Lemma load_bounds a i x : load a i = Ok x -> 0 <= i < Z.of_nat (length a).
Proof.
  intros [H0 H]%load_Ok. apply lookup_lt_Some in H. lia.
Qed.

Lemma store_Ok a i x a' :
  store a i x = Ok a' <->
  0 <= i < Z.of_nat (length a) /\ a' = <[Z.to_nat i := x]> a.
Proof.
  unfold store.
  destruct (Z.leb_spec 0 i) as [Hi | Hi];
    destruct (Z.ltb_spec i (Z.of_nat (length a))) as [Hl | Hl];
    simpl; split; intros H'; try discriminate; try lia.
  - inversion H'. split; [lia | done].
  - destruct H' as [_ ->]. done.
Qed.

Lemma store_length a i x a' : store a i x = Ok a' -> length a' = length a.
Proof. intros [_ ->]%store_Ok. apply length_insert. Qed.

Lemma load_store_eq a i x a' : store a i x = Ok a' -> load a' i = Ok x.
Proof.
  intros [Hi ->]%store_Ok. apply load_Ok. split; [lia |].
  apply list_lookup_insert_eq. lia.
Qed.

Lemma load_store_ne a i j x a' :
  store a i x = Ok a' -> 0 <= j -> i <> j -> load a' j = load a j.
Proof.
  intros [Hi ->]%store_Ok Hj Hne. unfold load.
  rewrite list_lookup_insert_ne by lia. done.
Qed.
End arrays.

(** ** The lookaside buffer *)

Lemma hashCode_Ok key t h :
  hashCode key t = Ok h <-> TLB_SIZE t <> 0 /\ h = key mod TLB_SIZE t.
Proof.
  unfold hashCode.
  destruct (Z.eqb_spec (TLB_SIZE t) 0) as [Hz | Hnz]; split; intros H.
  - discriminate.
  - lia.
  - inversion H. auto.
  - destruct H as [_ ->]. done.
Qed.

Lemma tlb_search_slot page t :
  tlb_search page t =
  do e <- tlb_slot page t; Ok (if tlb_page e =? page then TLB_HIT else TLB_MISS).
Proof. unfold tlb_search, tlb_slot. destruct (hashCode page t); done. Qed.

Lemma tlb_get_slot page t :
  tlb_get page t =
  do e <- tlb_slot page t;
  Ok (if tlb_page e =? page then tlb_frame e else uint32 (-1)).
Proof. unfold tlb_get, tlb_slot. destruct (hashCode page t); done. Qed.

(** After an insertion the slot holds the inserted pair. *)
Lemma tlb_insert_slot page frame t t' :
  tlb_insert page frame t = Ok t' ->
  tlb_slot page t' = Ok {| tlb_page := page; tlb_frame := frame |}.
Proof.
  unfold tlb_insert, tlb_slot. intros H.
  apply bind_Ok in H as (h & Hh & H).
  apply bind_Ok in H as (slots & Hs & H). inversion H; subst t'; clear H.
  apply hashCode_Ok in Hh as [Hsz ->].
  unfold hashCode; simpl.
  destruct (Z.eqb_spec (TLB_SIZE t) 0) as [Hz | _]; [done |]. simpl.
  eapply load_store_eq; eauto.
Qed.

Lemma tlb_insert_size page frame t t' :
  tlb_insert page frame t = Ok t' -> TLB_SIZE t' = TLB_SIZE t.
Proof.
  unfold tlb_insert. intros H.
  apply bind_Ok in H as (h & Hh & H).
  apply bind_Ok in H as (slots & Hs & H). now inversion H.
Qed.

Lemma tlb_insert_length page frame t t' :
  tlb_insert page frame t = Ok t' -> length (g_tlb t') = length (g_tlb t).
Proof.
  unfold tlb_insert. intros H.
  apply bind_Ok in H as (h & Hh & H).
  apply bind_Ok in H as (slots & Hs & H). inversion H; simpl.
  eapply store_length; eauto.
Qed.

(** A freshly initialised buffer: every slot holds page [255], the value
    [-1] takes in a [uint8_t], and frame [0xFFFFFFFF]. *)
Lemma init_tlb_Ok size t :
  init_tlb size = Ok t ->
  TLB_SIZE t = size
  /\ g_tlb t = replicate (Z.to_nat size) {| tlb_page := 255; tlb_frame := 2 ^ 32 - 1 |}.
Proof.
  unfold init_tlb.
  destruct ((size <=? size_t (8 * size) / 8) && (size <=? INT_MAX));
    intros H; inversion H. simpl. split; reflexivity.
Qed.

Lemma init_tlb_returns size :
  0 <= size <= INT_MAX -> exists t, init_tlb size = Ok t.
Proof.
  intros H. unfold init_tlb, INT_MAX in *.
  assert (Hs : size_t (8 * size) / 8 = size).
  { unfold size_t. rewrite Z.mod_small by lia.
    rewrite Z.mul_comm. apply Z.div_mul. lia. }
  rewrite Hs.
  destruct (Z.leb_spec size size) as [_ | Hlt]; [| lia].
  destruct (Z.leb_spec size (2 ^ 31 - 1)) as [_ | Hlt]; [| lia]. simpl. eauto.
Qed.

Lemma init_tlb_slot size t page :
  init_tlb size = Ok t -> 0 < size ->
  tlb_slot page t = Ok {| tlb_page := 255; tlb_frame := 2 ^ 32 - 1 |}.
Proof.
  intros [Hsz Hslots]%init_tlb_Ok Hpos.
  unfold tlb_slot, hashCode. rewrite Hsz.
  destruct (Z.eqb_spec size 0) as [Hz | _]; [lia |]. simpl.
  apply load_Ok. pose proof (Z.mod_pos_bound page size Hpos).
  split; [lia |]. rewrite Hslots. apply lookup_replicate_2. lia.
Qed.

(** In a fresh buffer a lookup hits exactly for page [255]. *)
Lemma init_tlb_search size t page :
  init_tlb size = Ok t -> 0 < size ->
  tlb_search page t = Ok (if 255 =? page then TLB_HIT else TLB_MISS).
Proof.
  intros Hinit Hpos. rewrite tlb_search_slot.
  now rewrite (init_tlb_slot _ _ page Hinit Hpos).
Qed.

(** C2, as the code has it. After [init_tlb] with the 16 slots of the
    reference configuration, the lookup of page 255 is a hit: the sentinel
    [-1] stored in the [uint8_t] field is 255, a valid page number, and
    255 hashes to slot 15, which holds it. *)
Theorem tlb_fresh_lookup_255_hits :
  bind (init_tlb main.TLB_SIZE) (tlb_search 255) = Ok TLB_HIT
  /\ bind (init_tlb main.TLB_SIZE) (tlb_get 255) = Ok (2 ^ 32 - 1).
Proof. split; reflexivity. Qed.

(** ** The page table *)

Lemma malloc_words_length w n : length (malloc_words w n) = Z.to_nat n.
Proof. unfold malloc_words. now rewrite length_map, length_seq. Qed.

Lemma malloc_bytes_length w n : length (malloc_bytes w n) = Z.to_nat n.
Proof. unfold malloc_bytes. now rewrite length_map, length_seq. Qed.

Lemma words_of_block entries :
  0 <= entries < 2 ^ 62 -> size_t (entries * 4) / 4 = entries.
Proof.
  intros H. unfold size_t. rewrite Z.mod_small by lia. apply Z.div_mul. lia.
Qed.

Lemma init_pmt_Ok w entries size pm :
  init_pmt w entries size = Ok pm ->
  PAGE_N pm = entries /\ PAGE_SIZE pm = size
  /\ g_pmt pm = replicate (Z.to_nat size) (-1)
                  ++ drop (Z.to_nat size)
                       (malloc_words w (size_t (entries * 4) / 4))
  /\ size <= size_t (entries * 4) / 4.
Proof.
  unfold init_pmt. rewrite malloc_words_length.
  destruct (Z.leb_spec size (Z.of_nat (Z.to_nat (size_t (entries * 4) / 4))))
    as [Hle | Hgt]; [| discriminate].
  destruct (size <=? INT_MAX); [| discriminate].
  intros H. inversion H; simpl. repeat split.
  assert (0 <= size_t (entries * 4) / 4).
  { apply Z.div_pos; [| lia]. unfold size_t. apply Z.mod_pos_bound. lia. }
  lia.
Qed.

Lemma init_pmt_returns w entries size :
  0 <= size <= entries -> entries <= INT_MAX ->
  exists pm, init_pmt w entries size = Ok pm.
Proof.
  intros H Hmax. unfold init_pmt, INT_MAX in *.
  rewrite malloc_words_length, words_of_block by lia.
  destruct (Z.leb_spec size (Z.of_nat (Z.to_nat entries))) as [_ | Hgt]; [| lia].
  destruct (Z.leb_spec size (2 ^ 31 - 1)) as [_ | Hgt]; [| lia].
  simpl. eauto.
Qed.

Lemma init_pmt_length w entries size pm :
  init_pmt w entries size = Ok pm -> 0 <= entries < 2 ^ 62 ->
  Z.of_nat (length (g_pmt pm)) = entries.
Proof.
  intros (_ & _ & Hg & Hle)%init_pmt_Ok He. rewrite words_of_block in * by done.
  rewrite Hg, length_app, length_replicate, length_drop, malloc_words_length.
  lia.
Qed.

(** The entries the loop reaches are unmapped. *)
Lemma init_pmt_search w entries size pm page :
  init_pmt w entries size = Ok pm -> 0 <= page < size ->
  pmt_search page pm = Ok PAGE_FAULT.
Proof.
  intros (_ & _ & Hg & _)%init_pmt_Ok Hp. unfold pmt_search.
  assert (Hl : load (g_pmt pm) page = Ok (-1)).
  { apply load_Ok. split; [lia |]. rewrite Hg.
    rewrite lookup_app_l by (rewrite length_replicate; lia).
    apply lookup_replicate_2. lia. }
  now rewrite Hl.
Qed.

(** When the page size equals the entry count the loop reaches every entry:
    every page of the table is unmapped after [init_pmt]. *)
Lemma init_pmt_square_unmapped w entries pm page :
  init_pmt w entries entries = Ok pm -> 0 <= page < entries ->
  pmt_search page pm = Ok PAGE_FAULT.
Proof. apply init_pmt_search. Qed.

(** The entries past [size] hold what the fresh block held. *)
Lemma init_pmt_untouched w entries size pm page :
  init_pmt w entries size = Ok pm ->
  0 <= size <= page -> page < entries < 2 ^ 62 ->
  load (g_pmt pm) page = Ok (int32 (w_words w (Z.to_nat page))).
Proof.
  intros (_ & _ & Hg & _)%init_pmt_Ok Hs Hp.
  rewrite words_of_block in Hg by lia.
  apply load_Ok. split; [lia |]. rewrite Hg.
  rewrite lookup_app_r by (rewrite length_replicate; lia).
  rewrite length_replicate, lookup_drop. unfold malloc_words.
  replace (Z.to_nat size + (Z.to_nat page - Z.to_nat size))%nat
    with (Z.to_nat page) by lia.
  rewrite list_lookup_fmap, lookup_seq_lt by lia. reflexivity.
Qed.

(** C6, as the code has it. With 256 entries and a page size of 128 the
    initialisation loop stops after 128 entries; an entry past them keeps
    the content of the fresh block, here zero, and the lookup of page 200
    before any insert answers [PAGE_SUCCESS], with frame 0. *)
Theorem init_pmt_leaves_entries_mapped :
  bind (init_pmt zero_world 256 128) (pmt_search 200) = Ok PAGE_SUCCESS
  /\ bind (init_pmt zero_world 256 128) (pmt_get 200) = Ok 0
  /\ bind (init_pmt zero_world 256 128) (pmt_search 100) = Ok PAGE_FAULT.
Proof. repeat split; vm_compute; reflexivity. Qed.

Lemma pmt_insert_Ok page frame pm pm' :
  pmt_insert page frame pm = Ok pm' ->
  0 <= page < Z.of_nat (length (g_pmt pm))
  /\ PAGE_N pm' = PAGE_N pm /\ PAGE_SIZE pm' = PAGE_SIZE pm
  /\ g_pmt pm' = <[Z.to_nat page := int32 frame]> (g_pmt pm).
Proof.
  unfold pmt_insert. intros H. apply bind_Ok in H as (t & Ht & H).
  inversion H; simpl. apply store_Ok in Ht as [Hb ->]. auto.
Qed.

Lemma pmt_insert_get page frame pm pm' :
  pmt_insert page frame pm = Ok pm' -> pmt_get page pm' = Ok (uint32 frame).
Proof.
  unfold pmt_insert, pmt_get. intros H. apply bind_Ok in H as (t & Ht & H).
  inversion H; simpl. rewrite (load_store_eq _ _ _ _ Ht). simpl.
  now rewrite uint32_int32.
Qed.

Lemma pmt_insert_search page frame pm pm' :
  pmt_insert page frame pm = Ok pm' -> 0 <= frame < 2 ^ 32 - 1 ->
  pmt_search page pm' = Ok PAGE_SUCCESS.
Proof.
  unfold pmt_insert, pmt_search. intros H Hf. apply bind_Ok in H as (t & Ht & H).
  inversion H; simpl. rewrite (load_store_eq _ _ _ _ Ht). simpl.
  destruct (Z.eqb_spec (int32 frame) (-1)) as [He | Hne]; [| done].
  apply int32_minus_one in He; lia.
Qed.

Lemma pmt_insert_other page frame pm pm' page' :
  pmt_insert page frame pm = Ok pm' -> 0 <= page' -> page <> page' ->
  load (g_pmt pm') page' = load (g_pmt pm) page'.
Proof.
  unfold pmt_insert. intros H Hp Hne. apply bind_Ok in H as (t & Ht & H).
  inversion H; simpl. eapply load_store_ne; eauto.
Qed.

(** ** Physical memory *)

Lemma memcpy_Ok dst index src size mem :
  memcpy dst index src size = Ok mem <->
  (0 <= index /\ 0 <= size
   /\ index + size <= Z.of_nat (length dst) /\ size <= Z.of_nat (length src))
  /\ mem = take (Z.to_nat index) dst ++ take (Z.to_nat size) src
             ++ drop (Z.to_nat (index + size)) dst.
Proof.
  unfold memcpy.
  destruct (Z.leb_spec 0 index) as [H1 | H1];
    destruct (Z.leb_spec 0 size) as [H2 | H2];
    destruct (Z.leb_spec (index + size) (Z.of_nat (length dst))) as [H3 | H3];
    destruct (Z.leb_spec size (Z.of_nat (length src))) as [H4 | H4];
    simpl; split; intros H; try discriminate; try lia.
  - inversion H. auto.
  - destruct H as [_ ->]. done.
Qed.

Lemma memcpy_length dst index src size mem :
  memcpy dst index src size = Ok mem -> length mem = length dst.
Proof.
  intros [(H1 & H2 & H3 & H4) ->]%memcpy_Ok.
  rewrite !length_app, !length_take, length_drop. lia.
Qed.

(** The bytes copied are found where they were put. *)
Lemma memcpy_written dst index src size mem :
  memcpy dst index src size = Ok mem ->
  take (Z.to_nat size) (drop (Z.to_nat index) mem) = take (Z.to_nat size) src.
Proof.
  intros [(H1 & H2 & H3 & H4) ->]%memcpy_Ok.
  rewrite drop_app_length'; [| rewrite length_take; lia].
  rewrite take_app_length'; [done | rewrite length_take; lia].
Qed.

Lemma memcpy_lookup_before dst index src size mem (j : nat) :
  memcpy dst index src size = Ok mem ->
  Z.of_nat j < index -> mem !! j = dst !! j.
Proof.
  intros [(H1 & H2 & H3 & H4) ->]%memcpy_Ok Hj.
  rewrite lookup_app_l by (rewrite length_take; lia).
  apply lookup_take_lt. lia.
Qed.

Lemma memcpy_lookup_written dst index src size mem (o : nat) :
  memcpy dst index src size = Ok mem ->
  Z.of_nat o < size -> mem !! (Z.to_nat index + o)%nat = src !! o.
Proof.
  intros [(H1 & H2 & H3 & H4) ->]%memcpy_Ok Ho.
  rewrite lookup_app_r by (rewrite length_take; lia).
  rewrite length_take.
  replace (Z.to_nat index + o - Z.to_nat index `min` length dst)%nat with o by lia.
  rewrite lookup_app_l by (rewrite length_take; lia).
  apply lookup_take_lt. lia.
Qed.

Lemma memcpy_lookup_after dst index src size mem (j : nat) :
  memcpy dst index src size = Ok mem ->
  index + size <= Z.of_nat j -> mem !! j = dst !! j.
Proof.
  intros [(H1 & H2 & H3 & H4) ->]%memcpy_Ok Hj.
  rewrite lookup_app_r by (rewrite length_take; lia).
  rewrite lookup_app_r by (rewrite !length_take; lia).
  rewrite !length_take, lookup_drop. f_equal. lia.
Qed.

Lemma physical_insert_Ok addr size ph ph' :
  physical_insert addr size ph = Ok ph' <->
  exists mem,
    memcpy (g_physical ph)
      (size_t (FRAME_N ph * uint8 (g_physical_index ph + 1))) addr size = Ok mem
    /\ ph' = {| FRAME_SIZE := FRAME_SIZE ph; FRAME_N := FRAME_N ph;
                g_physical := mem;
                g_physical_index := uint8 (g_physical_index ph + 1) |}.
Proof.
  unfold physical_insert. split.
  - intros H. apply bind_Ok in H as (mem & Hm & H). inversion H. eauto.
  - intros (mem & -> & ->). reflexivity.
Qed.

(** An allocation moves the index by one, modulo 256, and keeps the frame
    count and the capacity. *)
Lemma physical_insert_index addr size ph ph' :
  physical_insert addr size ph = Ok ph' ->
  g_physical_index ph' = uint8 (g_physical_index ph + 1)
  /\ FRAME_N ph' = FRAME_N ph /\ FRAME_SIZE ph' = FRAME_SIZE ph
  /\ length (g_physical ph') = length (g_physical ph).
Proof.
  intros (mem & Hm & ->)%physical_insert_Ok. simpl.
  repeat split. eapply memcpy_length; eauto.
Qed.

(** The frame base returned after an allocation is the place of the copy,
    cut to 32 bits. *)
Lemma physical_insert_written addr size ph ph' :
  physical_insert addr size ph = Ok ph' ->
  physical_index ph' = uint32 (FRAME_N ph * uint8 (g_physical_index ph + 1))
  /\ take (Z.to_nat size)
       (drop (Z.to_nat (size_t (FRAME_N ph * uint8 (g_physical_index ph + 1))))
          (g_physical ph'))
     = take (Z.to_nat size) addr.
Proof.
  intros (mem & Hm & ->)%physical_insert_Ok. unfold physical_index. simpl.
  split; [apply uint32_size_t | eapply memcpy_written; eauto].
Qed.

Lemma physical_insert_returns addr size ph :
  physical_fits size ph -> size <= Z.of_nat (length addr) ->
  exists ph', physical_insert addr size ph = Ok ph'.
Proof.
  intros (Hn & Hs & Hfit & Hcap) Hlen.
  pose proof (uint8_range (g_physical_index ph + 1)) as Hidx.
  eexists. apply physical_insert_Ok. eexists. split; [| reflexivity].
  apply memcpy_Ok. split; [| reflexivity].
  unfold size_t. rewrite Z.mod_small by nia. nia.
Qed.

Lemma physical_insert_fits addr size ph ph' :
  physical_insert addr size ph = Ok ph' ->
  physical_fits size ph -> physical_fits size ph'.
Proof.
  intros (Hi & Hn & Hs & Hl)%physical_insert_index. unfold physical_fits.
  now rewrite Hn, Hl.
Qed.

Lemma physical_inserts_index pages size ph ph' :
  physical_inserts pages size ph = Ok ph' ->
  uint8 (g_physical_index ph')
  = uint8 (g_physical_index ph + Z.of_nat (length pages))
  /\ FRAME_N ph' = FRAME_N ph
  /\ length (g_physical ph') = length (g_physical ph).
Proof.
  revert ph. induction pages as [| addr rest IH]; intros ph H; simpl in H.
  - inversion H. rewrite Z.add_0_r. auto.
  - apply bind_Ok in H as (ph1 & H1 & H).
    apply physical_insert_index in H1 as (Hi & Hn & _ & Hl).
    destruct (IH _ H) as (Hi' & Hn' & Hl').
    rewrite Hi', Hn', Hl', Hi. repeat split; try done.
    unfold uint8. rewrite Zplus_mod_idemp_l. f_equal.
    change (length (addr :: rest)) with (S (length rest)). lia.
Qed.

Lemma physical_inserts_returns pages size ph :
  physical_fits size ph ->
  Forall (fun addr => size <= Z.of_nat (length addr)) pages ->
  exists ph', physical_inserts pages size ph = Ok ph'.
Proof.
  revert ph. induction pages as [| addr rest IH]; intros ph Hfit Hall; simpl.
  - eauto.
  - apply Forall_cons in Hall as [Ha Hrest].
    destruct (physical_insert_returns addr size ph Hfit Ha) as [ph1 H1].
    rewrite H1. simpl. apply IH; [| done].
    eapply physical_insert_fits; eauto.
Qed.

Lemma init_physical_index w entries size :
  g_physical_index (init_physical w entries size) = 255
  /\ FRAME_N (init_physical w entries size) = entries
  /\ Z.of_nat (length (g_physical (init_physical w entries size)))
     = size_t (size * entries).
Proof.
  simpl. rewrite malloc_bytes_length. repeat split.
  assert (0 <= size_t (size * entries))
    by (unfold size_t; apply Z.mod_pos_bound; lia).
  lia.
Qed.

(** The slot of the allocation number [k] (from 0) is [k] modulo 256. *)
Lemma physical_inserts_init_index w entries size pages n ph :
  physical_inserts pages n (init_physical w entries size) = Ok ph ->
  uint8 (g_physical_index ph + 1) = Z.of_nat (length pages) mod 256
  /\ FRAME_N ph = entries.
Proof.
  intros H. apply physical_inserts_index in H as (Hi & Hn & _).
  split; [| exact Hn].
  unfold uint8 in *. rewrite <- Zplus_mod_idemp_l, Hi, Zplus_mod_idemp_l.
  change (2 ^ 8) with 256.
  change (g_physical_index (init_physical w entries size)) with 255.
  replace (255 + Z.of_nat (length pages) + 1)
    with (Z.of_nat (length pages) + 1 * 256) by lia.
  apply Z.mod_add. lia.
Qed.

Lemma physical_inserts_app pages pages' size ph :
  physical_inserts (pages ++ pages') size ph =
  do ph' <- physical_inserts pages size ph; physical_inserts pages' size ph'.
Proof.
  revert ph. induction pages as [| addr rest IH]; intros ph; simpl; [done |].
  destruct (physical_insert addr size ph) as [ph1 | | |]; simpl; auto.
Qed.

Lemma init_physical_fits w entries size n :
  0 <= entries -> 0 <= n -> entries * 255 + n <= size_t (size * entries) ->
  physical_fits n (init_physical w entries size).
Proof.
  intros He Hn Hfit.
  destruct (init_physical_index w entries size) as (_ & Hf & Hl).
  unfold physical_fits. rewrite Hf, Hl. repeat split; try done.
  unfold size_t. apply Z.mod_pos_bound. lia.
Qed.

(** The allocation that follows [pages] earlier ones, from [init_physical]:
    it returns, its slot is the number of earlier allocations modulo 256,
    the base it reports is that slot times the frame count cut to 32 bits,
    and the block is found at the slot times the frame count. *)
Lemma physical_inserts_last w entries size n pages last :
  0 <= entries -> 0 <= n -> entries * 255 + n <= size_t (size * entries) ->
  Forall (fun addr => Z.of_nat (length addr) = n) (pages ++ [last]) ->
  exists ph,
    physical_inserts (pages ++ [last]) n (init_physical w entries size) = Ok ph
    /\ g_physical_index ph = Z.of_nat (length pages) mod 256
    /\ physical_index ph = uint32 (entries * (Z.of_nat (length pages) mod 256))
    /\ take (Z.to_nat n)
         (drop (Z.to_nat (entries * (Z.of_nat (length pages) mod 256)))
            (g_physical ph)) = last.
Proof.
  intros He Hn Hfit Hall.
  pose proof (init_physical_fits w entries size n He Hn Hfit) as Hok.
  destruct (physical_inserts_returns (pages ++ [last]) n _ Hok) as [ph Hph].
  { eapply Forall_impl; [exact Hall |]. simpl. intros addr Ha. lia. }
  exists ph. split; [exact Hph |].
  rewrite physical_inserts_app in Hph.
  apply bind_Ok in Hph as (ph0 & H0 & Hlast). simpl in Hlast.
  apply bind_Ok in Hlast as (ph1 & H1 & Heq). inversion Heq; subst ph1; clear Heq.
  destruct (physical_inserts_init_index _ _ _ _ _ _ H0) as [Hslot Hframes].
  destruct (physical_insert_index _ _ _ _ H1) as (Hi & _).
  destruct (physical_insert_written _ _ _ _ H1) as [Hbase Hbytes].
  rewrite Hslot, Hframes in *.
  split; [congruence |]. split; [exact Hbase |].
  assert (Hk : 0 <= Z.of_nat (length pages) mod 256 < 256)
    by (apply Z.mod_pos_bound; lia).
  assert (Hcap : size_t (size * entries) < 2 ^ 64)
    by (unfold size_t; apply Z.mod_pos_bound; lia).
  assert (Hslot_le : entries * (Z.of_nat (length pages) mod 256) <= entries * 255)
    by (apply Z.mul_le_mono_nonneg_l; lia).
  assert (Hslot_ge : 0 <= entries * (Z.of_nat (length pages) mod 256))
    by (apply Z.mul_nonneg_nonneg; lia).
  unfold size_t in Hbytes at 1. rewrite Z.mod_small in Hbytes by lia.
  rewrite Hbytes. apply take_ge.
  apply Forall_app in Hall as [_ Hl].
  rewrite Forall_singleton in Hl. lia.
Qed.

(** C10. The allocation index is an 8-bit counter that starts at 255 (the
    value [-1] takes in it) and is incremented, modulo 256, before the copy:
    the allocation that follows [k] earlier ones returns, uses slot
    [k mod 256] and reports the base of that slot. So after 256 allocations
    the next one, the 257th, does not fail: it puts the index back to 0,
    reports base 0, and its bytes take the place, at the start of the
    memory, of those the first allocation had put there. *)
Theorem physical_index_wraps_after_256
    (w : world) (entries size n : Z) (pages : list (list Z)) (last : list Z) :
  0 <= entries -> 0 <= n -> entries * 255 + n <= size_t (size * entries) ->
  Forall (fun addr => Z.of_nat (length addr) = n) (pages ++ [last]) ->
  g_physical_index (init_physical w entries size) = 255
  /\ exists ph,
       physical_inserts (pages ++ [last]) n (init_physical w entries size) = Ok ph
       /\ g_physical_index ph = Z.of_nat (length pages) mod 256
       /\ physical_index ph = uint32 (entries * (Z.of_nat (length pages) mod 256))
       /\ take (Z.to_nat n)
            (drop (Z.to_nat (entries * (Z.of_nat (length pages) mod 256)))
               (g_physical ph)) = last
       /\ (length pages = 256%nat ->
           g_physical_index ph = 0
           /\ physical_index ph = 0
           /\ take (Z.to_nat n) (g_physical ph) = last
           /\ exists first ph1,
                head pages = Some first
                /\ physical_insert first n (init_physical w entries size) = Ok ph1
                /\ g_physical_index ph1 = 0
                /\ take (Z.to_nat n) (g_physical ph1) = first).
Proof.
  intros He Hn Hfit Hall. split; [reflexivity |].
  destruct (physical_inserts_last w entries size n pages last He Hn Hfit Hall)
    as (ph & H & Hi & Hbase & Hbytes).
  exists ph. split; [exact H |]. split; [exact Hi |]. split; [exact Hbase |].
  split; [exact Hbytes |]. intros Hlen.
  assert (Hk : Z.of_nat (length pages) mod 256 = 0) by (now rewrite Hlen).
  rewrite Hk, Z.mul_0_r in *.
  split; [exact Hi |]. split; [exact Hbase |]. split; [exact Hbytes |].
  destruct pages as [| first rest]; [discriminate |].
  destruct (physical_inserts_last w entries size n [] first He Hn Hfit)
    as (ph1 & H1 & Hi1 & _ & Hbytes1).
  { apply Forall_singleton. apply Forall_app in Hall as [Hall _].
    now apply Forall_cons in Hall as [Hf _]. }
  simpl in H1. apply bind_Ok in H1 as (ph1' & H1 & Heq). inversion Heq; subst ph1'.
  exists first, ph1. split; [reflexivity |]. split; [exact H1 |].
  split; [exact Hi1 |].
  change (Z.of_nat (length []) mod 256) with 0 in Hbytes1.
  now rewrite Z.mul_0_r in Hbytes1.
Qed.

Lemma physical_index_wraps_after_256_witness :
  exists ph257,
    physical_inserts
      (replicate 256 (replicate 256 7) ++ [replicate 256 9]) 256
      (init_physical zero_world main.FRAME_N main.FRAME_SIZE) = Ok ph257
    /\ g_physical_index ph257 = 0
    /\ physical_index ph257 = 0
    /\ take 256 (g_physical ph257) = replicate 256 9.
Proof.
  destruct (physical_index_wraps_after_256 zero_world main.FRAME_N main.FRAME_SIZE
              256 (replicate 256 (replicate 256 7)) (replicate 256 9))
    as (_ & ph & H & _ & _ & _ & Hwrap).
  - unfold main.FRAME_N. lia.
  - lia.
  - vm_compute. discriminate.
  - apply Forall_app. split.
    + apply Forall_replicate. reflexivity.
    + apply Forall_singleton. reflexivity.
  - destruct (Hwrap eq_refl) as (Hi & Hbase & Hbytes & _).
    exists ph. exact (conj H (conj Hi (conj Hbase Hbytes))).
Defined.

(** ** Demand paging *)

(** What [backingstore_get] does when the seek offset fits a [long]: it
    returns the [page_n] bytes at [offset * page_n] when the file has them
    (and [page_n] is not zero), and leaves through [exit] otherwise. *)
Lemma backingstore_get_spec offset page_n f :
  0 <= offset * page_n <= LONG_MAX ->
  backingstore_get offset page_n f =
  if (0 <? page_n) && (offset * page_n + page_n <=? Z.of_nat (length (f_bytes f)))
  then Ok (take (Z.to_nat page_n) (drop (Z.to_nat (offset * page_n)) (f_bytes f)),
           {| f_bytes := f_bytes f; f_pos := offset * page_n + page_n |})
  else Exit.
Proof.
  intros Hloc. unfold backingstore_get, fseek_set, fread1, LONG_MAX in *.
  assert (Hsz : size_t (offset * page_n) = offset * page_n)
    by (unfold size_t; apply Z.mod_small; lia).
  rewrite Hsz.
  destruct (Z.leb_spec (offset * page_n) (2 ^ 63 - 1)) as [_ | Hgt]; [| lia].
  simpl. rewrite length_drop.
  destruct (Z.ltb_spec 0 page_n) as [Hpos | Hzero]; simpl; [| reflexivity].
  destruct (Z.leb_spec page_n
              (Z.of_nat (length (f_bytes f) - Z.to_nat (offset * page_n))))
    as [Hin | Hout];
    destruct (Z.leb_spec (offset * page_n + page_n)
                (Z.of_nat (length (f_bytes f)))) as [Hin' | Hout'];
    simpl; try reflexivity; lia.
Qed.

(** A read never returns fewer bytes than asked: it returns the whole block
    or the process exits. *)
Lemma backingstore_get_whole offset page_n f :
  (exists data f', backingstore_get offset page_n f = Ok (data, f')
                   /\ Z.of_nat (length data) = page_n /\ 0 < page_n
                   /\ f_bytes f' = f_bytes f)
  \/ backingstore_get offset page_n f = Exit.
Proof.
  unfold backingstore_get.
  set (sought := fseek_set f (size_t (offset * page_n))).
  assert (Hb : f_bytes sought = f_bytes f).
  { unfold sought, fseek_set. now destruct (_ <=? _). }
  unfold fread1.
  destruct (Z.ltb_spec 0 page_n) as [Hpos | Hzero]; simpl; [| now right].
  destruct (Z.leb_spec page_n
              (Z.of_nat (length (drop (Z.to_nat (f_pos sought)) (f_bytes sought)))))
    as [Hin | Hout]; simpl; [| now right].
  left. eexists _, _. split; [reflexivity |]. simpl.
  rewrite length_take. repeat split; try done. lia.
Qed.

Lemma backingstore_get_Ok offset page_n f data f' :
  backingstore_get offset page_n f = Ok (data, f') ->
  Z.of_nat (length data) = page_n /\ 0 < page_n /\ f_bytes f' = f_bytes f.
Proof.
  intros H.
  destruct (backingstore_get_whole offset page_n f)
    as [(d & g & Hd & Hl & Hp & Hb) | He]; [| congruence].
  rewrite Hd in H. inversion H; subst. auto.
Qed.

(** ** The memory management unit *)

(** Reduction of the sequencing and of the assignments to the globals, and
    of nothing else. *)
Ltac msimpl :=
  cbn [bind mmu_initialized g_pagefault g_tlbhit g_translated m_physical m_pmt
       g_backing m_tlb set_g_pagefault set_g_tlbhit set_g_translated
       set_m_physical set_m_pmt set_g_backing set_m_tlb].

Tactic Notation "msimpl" "in" hyp(H) :=
  cbn [bind mmu_initialized g_pagefault g_tlbhit g_translated m_physical m_pmt
       g_backing m_tlb set_g_pagefault set_g_tlbhit set_g_translated
       set_m_physical set_m_pmt set_g_backing set_m_tlb] in H.

(** The three ways [mmu_findframe] finds a frame. *)

Lemma mmu_findframe_hit addr s :
  tlb_search (page (page_offset addr)) (m_tlb s) = Ok TLB_HIT ->
  mmu_findframe addr s =
  do hits <- incr (g_tlbhit s);
  do frame <- tlb_get (page (page_offset addr)) (m_tlb s);
  Ok (frame, set_g_tlbhit hits s).
Proof. unfold mmu_findframe. intros ->. reflexivity. Qed.

Lemma mmu_findframe_mapped addr s :
  tlb_search (page (page_offset addr)) (m_tlb s) = Ok TLB_MISS ->
  pmt_search (page (page_offset addr)) (m_pmt s) = Ok PAGE_SUCCESS ->
  mmu_findframe addr s =
  do frame <- pmt_get (page (page_offset addr)) (m_pmt s);
  do t <- tlb_insert (page (page_offset addr)) frame (m_tlb s);
  Ok (frame, set_m_tlb t s).
Proof.
  unfold mmu_findframe. intros -> ->. simpl.
  destruct (pmt_get _ _); reflexivity.
Qed.

Lemma mmu_findframe_fault addr s :
  tlb_search (page (page_offset addr)) (m_tlb s) = Ok TLB_MISS ->
  pmt_search (page (page_offset addr)) (m_pmt s) = Ok PAGE_FAULT ->
  mmu_findframe addr s =
  do (frame, s1) <- page_fault (page (page_offset addr)) s;
  do t <- tlb_insert (page (page_offset addr)) frame (m_tlb s1);
  Ok (frame, set_m_tlb t s1).
Proof. unfold mmu_findframe. intros -> ->. reflexivity. Qed.

Lemma page_fault_Ok page s frame s' :
  page_fault page s = Ok (frame, s') ->
  exists data f ph pm,
    g_pagefault s < INT_MAX
    /\ backingstore_get page (PAGE_N (m_pmt s)) (g_backing s) = Ok (data, f)
    /\ physical_insert data (PAGE_N (m_pmt s)) (m_physical s) = Ok ph
    /\ frame = physical_index ph
    /\ pmt_insert page frame (m_pmt s) = Ok pm
    /\ s' = {| mmu_initialized := mmu_initialized s;
               g_pagefault := g_pagefault s + 1;
               g_tlbhit := g_tlbhit s;
               g_translated := g_translated s;
               m_physical := ph;
               m_pmt := pm;
               g_backing := f;
               m_tlb := m_tlb s |}.
Proof.
  unfold page_fault, pmt_page_n. intros H.
  apply bind_Ok in H as (faults & Hf & H). apply incr_Ok in Hf as [-> Hlt].
  apply bind_Ok in H as ([data f] & Hb & H). simpl in Hb, H.
  apply bind_Ok in H as (ph & Hp & H). simpl in Hp, H.
  apply bind_Ok in H as (pm & Hm & H). inversion H; subst frame s'; clear H.
  exists data, f, ph, pm. repeat split; assumption.
Qed.

Lemma mmu_findframe_Ok addr s frame s' :
  mmu_findframe addr s = Ok (frame, s') ->
  forall p, p = page (page_offset addr) ->
  (tlb_search p (m_tlb s) = Ok TLB_HIT
   /\ g_tlbhit s < INT_MAX
   /\ tlb_get p (m_tlb s) = Ok frame
   /\ s' = set_g_tlbhit (g_tlbhit s + 1) s)
  \/ (tlb_search p (m_tlb s) = Ok TLB_MISS
      /\ pmt_search p (m_pmt s) = Ok PAGE_SUCCESS
      /\ pmt_get p (m_pmt s) = Ok frame
      /\ exists t, tlb_insert p frame (m_tlb s) = Ok t /\ s' = set_m_tlb t s)
  \/ (tlb_search p (m_tlb s) = Ok TLB_MISS
      /\ pmt_search p (m_pmt s) = Ok PAGE_FAULT
      /\ exists s1 t,
           page_fault p s = Ok (frame, s1)
           /\ tlb_insert p frame (m_tlb s1) = Ok t /\ s' = set_m_tlb t s1).
Proof.
  intros H p ->. unfold mmu_findframe in H.
  apply bind_Ok in H as ([|] & Ht & H).
  - right. apply bind_Ok in H as (in_pmt & Hp & H).
    apply bind_Ok in H as ([fr s1] & H1 & H).
    apply bind_Ok in H as (t & H2 & H). inversion H; subst fr s'; clear H.
    destruct in_pmt.
    + right. repeat split; try assumption. eauto.
    + left. apply bind_Ok in H1 as (fr & H1 & H). inversion H; subst fr s1.
      repeat split; try assumption. eauto.
  - left. apply bind_Ok in H as (hits & H1 & H). apply incr_Ok in H1 as [-> Hlt].
    apply bind_Ok in H as (fr & H2 & H). inversion H; subst fr s'; clear H.
    simpl in H2. auto.
Qed.

Lemma mmu_getphysical_Ok logical s phys s' :
  mmu_getphysical logical s = Ok (phys, s') ->
  mmu_initialized s = true
  /\ g_translated s < INT_MAX
  /\ exists frame,
       mmu_findframe logical (set_g_translated (g_translated s + 1) s)
       = Ok (frame, s')
       /\ phys = uint32 (frame + offset (page_offset logical)).
Proof.
  unfold mmu_getphysical. destruct (mmu_initialized s); [| discriminate].
  intros H. apply bind_Ok in H as (n & Hn & H). apply incr_Ok in Hn as [-> Hlt].
  apply bind_Ok in H as ([frame s1] & Hf & H). inversion H; subst phys s'.
  repeat split; try assumption. eauto.
Qed.

Lemma init_mmu_physical w store page_n page_size frame_n frame_size tlb_size s :
  init_mmu w store page_n page_size frame_n frame_size tlb_size = Ok s ->
  m_physical s = init_physical w frame_n frame_size
  /\ g_pagefault s = 0 /\ g_tlbhit s = 0 /\ g_translated s = 0
  /\ mmu_initialized s = true
  /\ init_pmt w page_n page_size = Ok (m_pmt s)
  /\ init_tlb tlb_size = Ok (m_tlb s)
  /\ init_backingstore w store = Ok (g_backing s).
Proof.
  unfold init_mmu. intros H.
  apply bind_Ok in H as (f & Hf & H). apply bind_Ok in H as (pm & Hpm & H).
  apply bind_Ok in H as (t & Ht & H). inversion H; simpl. auto 10.
Qed.

(** Whatever the way, the frame found ends in the slot of the page. *)
Lemma mmu_findframe_cached addr s frame s' :
  mmu_findframe addr s = Ok (frame, s') ->
  tlb_slot (page (page_offset addr)) (m_tlb s')
  = Ok {| tlb_page := page (page_offset addr); tlb_frame := frame |}.
Proof.
  intros H. remember (page (page_offset addr)) as p eqn:Hp.
  destruct (mmu_findframe_Ok _ _ _ _ H p Hp)
    as [(Ht & _ & Hg & ->) | [(_ & _ & _ & t & Hi & ->)
                             | (_ & _ & s1 & t & _ & Hi & ->)]].
  - simpl. rewrite tlb_search_slot in Ht. rewrite tlb_get_slot in Hg.
    apply bind_Ok in Ht as ([pg fr] & He & Ht). rewrite He in Hg |- *.
    simpl in Ht, Hg. revert Ht Hg.
    destruct (Z.eqb_spec pg p) as [-> | Hne]; [| discriminate].
    intros _ Hg. inversion Hg. reflexivity.
  - simpl. eapply tlb_insert_slot; eauto.
  - simpl. eapply tlb_insert_slot; eauto.
Qed.

Lemma same_shape_refl s : same_shape s s.
Proof. split; reflexivity. Qed.

Lemma same_shape_trans s1 s2 s3 :
  same_shape s1 s2 -> same_shape s2 s3 -> same_shape s1 s3.
Proof. intros [] []. split; congruence. Qed.

Lemma page_fault_shape page s frame s' :
  page_fault page s = Ok (frame, s') -> same_shape s s'.
Proof.
  intros (data & f & ph & pm & _ & Hb & Hp & _ & Hm & ->)%page_fault_Ok.
  apply backingstore_get_Ok in Hb as (_ & _ & Hb).
  apply physical_insert_index in Hp as (_ & Hn & _ & Hl).
  apply pmt_insert_Ok in Hm as (_ & Hpn & _ & Hg).
  split; simpl; try done. rewrite Hg. apply length_insert.
Qed.

Lemma mmu_findframe_shape addr s frame s' :
  mmu_findframe addr s = Ok (frame, s') -> same_shape s s'.
Proof.
  intros H.
  destruct (mmu_findframe_Ok _ _ _ _ H _ eq_refl)
    as [(_ & _ & _ & ->) | [(_ & _ & _ & t & Hi & ->)
                           | (_ & _ & s1 & t & Hf & Hi & ->)]].
  - split; reflexivity.
  - split; simpl; try reflexivity.
    + eapply tlb_insert_size; eauto.
    + eapply tlb_insert_length; eauto.
  - apply page_fault_shape in Hf. destruct Hf.
    split; simpl; try assumption.
    + erewrite tlb_insert_size; eauto.
    + erewrite tlb_insert_length; eauto.
Qed.

Lemma mmu_getphysical_shape logical s phys s' :
  mmu_getphysical logical s = Ok (phys, s') -> same_shape s s'.
Proof.
  intros (_ & _ & frame & H & _)%mmu_getphysical_Ok.
  apply mmu_findframe_shape in H. destruct H. split; assumption.
Qed.

(** The counters: [mmu_findframe] leaves the number of translations alone,
    and counts one hit or one fault or neither. *)
Lemma mmu_findframe_counters addr s frame s' :
  mmu_findframe addr s = Ok (frame, s') ->
  g_translated s' = g_translated s
  /\ (match tlb_search (page (page_offset addr)) (m_tlb s),
            pmt_search (page (page_offset addr)) (m_pmt s) with
      | Ok TLB_HIT, _ =>
          g_tlbhit s' = g_tlbhit s + 1 /\ g_pagefault s' = g_pagefault s
      | Ok TLB_MISS, Ok PAGE_SUCCESS =>
          g_tlbhit s' = g_tlbhit s /\ g_pagefault s' = g_pagefault s
      | Ok TLB_MISS, Ok PAGE_FAULT =>
          g_tlbhit s' = g_tlbhit s /\ g_pagefault s' = g_pagefault s + 1
      | _, _ => False
      end).
Proof.
  intros H.
  destruct (mmu_findframe_Ok _ _ _ _ H _ eq_refl)
    as [(Ht & _ & _ & ->) | [(Ht & Hp & _ & t & Hi & ->)
                            | (Ht & Hp & s1 & t & Hf & Hi & ->)]].
  - rewrite Ht. simpl. auto.
  - rewrite Ht, Hp. simpl. auto.
  - rewrite Ht, Hp.
    apply page_fault_Ok in Hf as (data & f & ph & pm & _ & _ & _ & _ & _ & ->).
    simpl. auto.
Qed.

(** The reference run. *)
Lemma reference_init_returns : reference_init = Ok reference_state.
Proof. refine (state_of_returned reference_init _). vm_compute. exact I. Qed.

Lemma page_1_translated :
  mmu_getphysical 0x0100 reference_state = Ok (0, after_page_1).
Proof.
  refine (returned (mmu_getphysical 0x0100 reference_state) 0 _).
  vm_compute. reflexivity.
Qed.

Lemma page_17_translated :
  mmu_getphysical 0x1100 after_page_1 = Ok (256, after_page_17).
Proof.
  refine (returned (mmu_getphysical 0x1100 after_page_1) 256 _).
  vm_compute. reflexivity.
Qed.

(** C9. When a translation returns, the same address translated again (the
    counters being short of [INT_MAX]) returns the same physical address,
    and this second translation is a lookaside-buffer hit: the hit counter
    goes up by one and the fault counter does not move. *)
Theorem translate_twice_same_address_and_hit
    (s : mmu) (logical phys : Z) (s1 : mmu) :
  mmu_getphysical logical s = Ok (phys, s1) ->
  g_translated s1 < INT_MAX ->
  g_tlbhit s1 < INT_MAX ->
  exists s2,
    mmu_getphysical logical s1 = Ok (phys, s2)
    /\ tlb_search (page (page_offset logical)) (m_tlb s1) = Ok TLB_HIT
    /\ g_tlbhit s2 = g_tlbhit s1 + 1
    /\ g_pagefault s2 = g_pagefault s1
    /\ g_translated s2 = g_translated s1 + 1.
Proof.
  intros H Htr Hhit.
  pose proof (mmu_getphysical_shape _ _ _ _ H) as Hshape.
  apply mmu_getphysical_Ok in H as (Hinit & _ & frame & Hf & ->).
  apply mmu_findframe_cached in Hf as Hslot.
  assert (Hsearch : tlb_search (page (page_offset logical)) (m_tlb s1) = Ok TLB_HIT).
  { rewrite tlb_search_slot, Hslot. simpl. now rewrite Z.eqb_refl. }
  assert (Hget : tlb_get (page (page_offset logical)) (m_tlb s1) = Ok frame).
  { rewrite tlb_get_slot, Hslot. simpl. now rewrite Z.eqb_refl. }
  exists (set_g_tlbhit (g_tlbhit s1 + 1)
            (set_g_translated (g_translated s1 + 1) s1)).
  split; [| repeat split; assumption || reflexivity].
  unfold mmu_getphysical.
  rewrite (shape_initialized _ _ Hshape), Hinit, (incr_lt _ Htr). msimpl.
  rewrite mmu_findframe_hit by exact Hsearch. msimpl.
  rewrite (incr_lt _ Hhit). msimpl. rewrite Hget. reflexivity.
Qed.

Lemma translate_twice_same_address_and_hit_witness :
  mmu_getphysical 0x0100 reference_state = Ok (0, after_page_1)
  /\ g_translated after_page_1 < INT_MAX
  /\ g_tlbhit after_page_1 < INT_MAX
  /\ exists s2,
       mmu_getphysical 0x0100 after_page_1 = Ok (0, s2)
       /\ tlb_search (page (page_offset 0x0100)) (m_tlb after_page_1) = Ok TLB_HIT
       /\ g_tlbhit s2 = g_tlbhit after_page_1 + 1
       /\ g_pagefault s2 = g_pagefault after_page_1
       /\ g_translated s2 = g_translated after_page_1 + 1.
Proof.
  assert (H1 : mmu_getphysical 0x0100 reference_state = Ok (0, after_page_1))
    by exact page_1_translated.
  assert (H2 : g_translated after_page_1 < INT_MAX) by (vm_compute; reflexivity).
  assert (H3 : g_tlbhit after_page_1 < INT_MAX) by (vm_compute; reflexivity).
  split; [exact H1 |]. split; [exact H2 |]. split; [exact H3 |].
  exact (translate_twice_same_address_and_hit _ _ _ _ H1 H2 H3).
Defined.

(** A frame base is a 32-bit value: reading it again as one changes nothing. *)
Lemma physical_index_uint32 ph : uint32 (physical_index ph) = physical_index ph.
Proof. unfold physical_index, uint32. apply Z.mod_mod. lia. Qed.

(** The page-fault path, end to end. *)
Lemma mmu_findframe_fault_Ok addr s frame s' :
  tlb_search (page (page_offset addr)) (m_tlb s) = Ok TLB_MISS ->
  pmt_search (page (page_offset addr)) (m_pmt s) = Ok PAGE_FAULT ->
  mmu_findframe addr s = Ok (frame, s') ->
  exists data f t,
    g_pagefault s' = g_pagefault s + 1
    /\ g_tlbhit s' = g_tlbhit s
    /\ backingstore_get (page (page_offset addr)) (PAGE_N (m_pmt s)) (g_backing s)
       = Ok (data, f)
    /\ g_backing s' = f
    /\ physical_insert data (PAGE_N (m_pmt s)) (m_physical s) = Ok (m_physical s')
    /\ frame = physical_index (m_physical s')
    /\ pmt_insert (page (page_offset addr)) frame (m_pmt s) = Ok (m_pmt s')
    /\ tlb_insert (page (page_offset addr)) frame (m_tlb s) = Ok t
    /\ m_tlb s' = t.
Proof.
  intros Ht Hp H. rewrite mmu_findframe_fault in H by assumption.
  apply bind_Ok in H as ([fr s1] & Hf & H).
  apply bind_Ok in H as (t & Hi & H). inversion H; subst fr s'; clear H.
  apply page_fault_Ok in Hf as (data & f & ph & pm & _ & Hb & Hph & Hfr & Hm & ->).
  exists data, f, t. msimpl. msimpl in Hi. repeat split; assumption.
Qed.



(** ** The three paths of a translation

    A translation that returns went one of three ways; each is described
    by what it read in the state before and what it left in the state
    after. [p] is the page of the address and [frame] the frame found. *)

Lemma mmu_getphysical_paths logical s phys s' :
  mmu_getphysical logical s = Ok (phys, s') ->
  mmu_initialized s = true
  /\ g_translated s < INT_MAX
  /\ g_translated s' = g_translated s + 1
  /\ exists frame,
       phys = uint32 (frame + offset (page_offset logical))
       /\ (hit_path (page (page_offset logical)) frame s s'
           \/ mapped_path (page (page_offset logical)) frame s s'
           \/ fault_path (page (page_offset logical)) frame s s').
Proof.
  intros H. apply mmu_getphysical_Ok in H as (Hinit & Hlt & frame & Hf & ->).
  split; [exact Hinit |]. split; [exact Hlt |].
  destruct (mmu_findframe_counters _ _ _ _ Hf) as [Htr _]. msimpl in Htr.
  split; [exact Htr |]. exists frame. split; [reflexivity |].
  destruct (mmu_findframe_Ok _ _ _ _ Hf _ eq_refl)
    as [(Ht & _ & Hg & ->) | [(Ht & Hp & Hg & t & Hi & ->) | (Ht & Hp & _)]].
  - left. split; solve [assumption | reflexivity].
  - right; left. split; solve [assumption | reflexivity].
  - right; right.
    destruct (mmu_findframe_fault_Ok _ _ _ _ Ht Hp Hf)
      as (data & f & t & Hpf & Hth & Hb & <- & Hph & Hfr & Hm & Hi & <-).
    split; try assumption. eauto.
Qed.

(** ** Pages that were faulted in *)

Lemma frames_ok_shape s s' : same_shape s s' -> frames_ok s' -> frames_ok s.
Proof. intros [] Hok. unfold frames_ok in *. congruence. Qed.

Lemma physical_insert_base addr size ph ph' :
  physical_insert addr size ph = Ok ph' ->
  0 <= FRAME_N ph -> FRAME_N ph * 255 < 2 ^ 32 - 1 ->
  0 <= physical_index ph' < 2 ^ 32 - 1.
Proof.
  intros [Hbase _]%physical_insert_written Hn Hmax. rewrite Hbase.
  pose proof (uint8_range (g_physical_index ph + 1)) as Hidx.
  rewrite uint32_small by nia. nia.
Qed.

(** A mapped page stays mapped, to the same frame. *)
Lemma mapped_stays p logical s phys s' :
  pmt_search p (m_pmt s) = Ok PAGE_SUCCESS ->
  mmu_getphysical logical s = Ok (phys, s') ->
  pmt_search p (m_pmt s') = Ok PAGE_SUCCESS
  /\ pmt_get p (m_pmt s') = pmt_get p (m_pmt s).
Proof.
  intros Hmapped H.
  apply mmu_getphysical_paths in H as (_ & _ & _ & frame & _ & [Hh | [Hm | Hf]]).
  - rewrite (hit_pmt _ _ _ _ Hh). auto.
  - rewrite (mapped_pmt _ _ _ _ Hm). auto.
  - pose proof (fault_pmt_search _ _ _ _ Hf) as Hp.
    pose proof (fault_pmt_insert _ _ _ _ Hf) as Hm.
  assert (Hne : page (page_offset logical) <> p) by congruence.
  assert (Hpos : 0 <= p).
  { unfold pmt_search in Hmapped. apply bind_Ok in Hmapped as (e & He & _).
    now apply load_bounds in He. }
  unfold pmt_search, pmt_get in *.
  rewrite (pmt_insert_other _ _ _ _ _ Hm Hpos Hne). auto.
Qed.

Lemma faulted_in_mapped p s :
  faulted_in p s -> frames_ok s -> pmt_search p (m_pmt s) = Ok PAGE_SUCCESS.
Proof.
  induction 1 as [s logical phys s' <- Ht Hp H | s logical phys s' Hin IH H];
    intros Hok.
  - pose proof (frames_ok_shape _ _ (mmu_getphysical_shape _ _ _ _ H) Hok)
      as [Hn Hmax].
    apply mmu_getphysical_paths in H
      as (_ & _ & _ & frame & _ & [Hh | [Hm | Hf]]).
    + pose proof (hit_search _ _ _ _ Hh). congruence.
    + pose proof (mapped_pmt_search _ _ _ _ Hm). congruence.
    + destruct (fault_read _ _ _ _ Hf) as (data & _ & Hph).
      apply (pmt_insert_search _ _ _ _ (fault_pmt_insert _ _ _ _ Hf)).
      rewrite (fault_frame _ _ _ _ Hf).
      eapply physical_insert_base; eauto.
  - eapply mapped_stays; [| exact H].
    apply IH. eapply frames_ok_shape; [| exact Hok].
    eapply mmu_getphysical_shape; eauto.
Qed.

(** Two pages congruent modulo the number of slots share their slot. *)
Lemma tlb_slot_congruent p q t :
  p mod TLB_SIZE t = q mod TLB_SIZE t -> tlb_slot p t = tlb_slot q t.
Proof. intros H. unfold tlb_slot, hashCode. now rewrite H. Qed.

Lemma tlb_slot_insert_returns p q frame e t :
  tlb_slot q t = Ok e -> p mod TLB_SIZE t = q mod TLB_SIZE t ->
  exists t', tlb_insert p frame t = Ok t'.
Proof.
  intros Hslot Hhash. rewrite <- (tlb_slot_congruent _ _ _ Hhash) in Hslot.
  unfold tlb_slot in Hslot. apply bind_Ok in Hslot as (h & Hh & Hl).
  apply load_bounds in Hl. unfold tlb_insert. rewrite Hh. simpl.
  unfold store.
  destruct (Z.leb_spec 0 h) as [_ | Hneg]; [| lia].
  destruct (Z.ltb_spec h (Z.of_nat (length (g_tlb t)))) as [_ | Hge]; [| lia].
  simpl. eauto.
Qed.

(** X24. Where no frame base can be the pattern of an unmapped entry
    ([frames_ok]): let page [p] have been faulted in and sit in the
    lookaside buffer, and let [q] be another page that hashes to the slot of
    [p]. The translation of [q] misses the buffer and puts [q] in the slot:
    afterwards the lookup of [q] is a hit and the lookup of [p] a miss, [p]
    is evicted, while the page table still maps [p]. The next translation of
    [p] returns the address the page table gives, counts neither a fault nor
    a buffer hit, and puts [p] back in the slot, evicting [q] in turn. *)
Theorem collision_evicts_and_page_table_answers
    (s : mmu) (a b physb : Z) (s1 : mmu) :
  frames_ok s ->
  faulted_in (page (page_offset a)) s ->
  tlb_search (page (page_offset a)) (m_tlb s) = Ok TLB_HIT ->
  page (page_offset a) <> page (page_offset b) ->
  page (page_offset a) mod TLB_SIZE (m_tlb s)
  = page (page_offset b) mod TLB_SIZE (m_tlb s) ->
  mmu_getphysical b s = Ok (physb, s1) ->
  g_translated s1 < INT_MAX ->
  tlb_search (page (page_offset b)) (m_tlb s) = Ok TLB_MISS
  /\ tlb_search (page (page_offset b)) (m_tlb s1) = Ok TLB_HIT
  /\ tlb_search (page (page_offset a)) (m_tlb s1) = Ok TLB_MISS
  /\ pmt_search (page (page_offset a)) (m_pmt s1) = Ok PAGE_SUCCESS
  /\ exists frame s2,
       pmt_get (page (page_offset a)) (m_pmt s1) = Ok frame
       /\ mmu_getphysical a s1 = Ok (uint32 (frame + offset (page_offset a)), s2)
       /\ g_pagefault s2 = g_pagefault s1
       /\ g_tlbhit s2 = g_tlbhit s1
       /\ tlb_search (page (page_offset a)) (m_tlb s2) = Ok TLB_HIT
       /\ tlb_search (page (page_offset b)) (m_tlb s2) = Ok TLB_MISS.
Proof.
  intros Hok Hin Hcached Hne Hhash Hb Htr.
  set (p := page (page_offset a)) in *. set (q := page (page_offset b)) in *.
  pose proof (mmu_getphysical_shape _ _ _ _ Hb) as Hshape.
  pose proof (faulted_in_mapped _ _ Hin Hok) as Hmapped.
  destruct (mapped_stays _ _ _ _ _ Hmapped Hb) as [Hmapped1 _].
  assert (Hbefore : tlb_search q (m_tlb s) = Ok TLB_MISS).
  { rewrite tlb_search_slot, <- (tlb_slot_congruent _ _ _ Hhash).
    rewrite tlb_search_slot in Hcached.
    destruct (tlb_slot p (m_tlb s)) as [e | | |]; try discriminate.
    cbn [bind] in *.
    destruct (Z.eqb_spec (tlb_page e) p) as [Hp | _]; [| discriminate].
    destruct (Z.eqb_spec (tlb_page e) q) as [Hq | _]; [congruence | reflexivity]. }
  pose proof Hb as Hb'.
  apply mmu_getphysical_Ok in Hb' as (Hinit & _ & frameb & Hfb & _).
  apply mmu_findframe_cached in Hfb. fold q in Hfb.
  rewrite <- (shape_tlb_size _ _ Hshape) in Hhash.
  assert (Hslot : tlb_slot p (m_tlb s1)
                  = Ok {| tlb_page := q; tlb_frame := frameb |})
    by (rewrite (tlb_slot_congruent _ _ _ Hhash); exact Hfb).
  assert (Hafter : tlb_search q (m_tlb s1) = Ok TLB_HIT).
  { rewrite tlb_search_slot, Hfb. cbn [bind tlb_page].
    now rewrite Z.eqb_refl. }
  assert (Hmiss : tlb_search p (m_tlb s1) = Ok TLB_MISS).
  { rewrite tlb_search_slot, Hslot. cbn [bind tlb_page].
    destruct (Z.eqb_spec q p) as [Heq | _]; [congruence | reflexivity]. }
  split; [exact Hbefore |]. split; [exact Hafter |].
  split; [exact Hmiss |]. split; [exact Hmapped1 |].
  assert (Hget : exists frame, pmt_get p (m_pmt s1) = Ok frame).
  { unfold pmt_search in Hmapped1. apply bind_Ok in Hmapped1 as (e & He & _).
    unfold pmt_get. rewrite He. simpl. eauto. }
  destruct Hget as [frame Hget].
  destruct (tlb_slot_insert_returns p q frame _ _ Hfb Hhash) as [t Hins].
  pose proof (tlb_insert_slot _ _ _ _ Hins) as Hback.
  assert (Hhash' : q mod TLB_SIZE t = p mod TLB_SIZE t)
    by (rewrite (tlb_insert_size _ _ _ _ Hins); congruence).
  exists frame, (set_m_tlb t (set_g_translated (g_translated s1 + 1) s1)).
  split; [exact Hget |]. split; [| split; [reflexivity |]].
  - unfold mmu_getphysical.
    rewrite (shape_initialized _ _ Hshape), Hinit, (incr_lt _ Htr). msimpl.
    rewrite mmu_findframe_mapped by assumption. msimpl. fold p.
    rewrite Hget. msimpl. rewrite Hins. reflexivity.
  - split; [reflexivity |]. msimpl. split.
    + rewrite tlb_search_slot, Hback. cbn [bind tlb_page].
      now rewrite Z.eqb_refl.
    + rewrite tlb_search_slot, (tlb_slot_congruent _ _ _ Hhash'), Hback.
      cbn [bind tlb_page].
      destruct (Z.eqb_spec p q) as [Heq | _]; [congruence | reflexivity].
Qed.

Lemma collision_evicts_and_page_table_answers_witness :
  frames_ok after_page_1
  /\ faulted_in (page (page_offset 0x0100)) after_page_1
  /\ tlb_search (page (page_offset 0x0100)) (m_tlb after_page_1) = Ok TLB_HIT
  /\ page (page_offset 0x0100) <> page (page_offset 0x1100)
  /\ page (page_offset 0x0100) mod TLB_SIZE (m_tlb after_page_1)
     = page (page_offset 0x1100) mod TLB_SIZE (m_tlb after_page_1)
  /\ mmu_getphysical 0x1100 after_page_1 = Ok (256, after_page_17)
  /\ g_translated after_page_17 < INT_MAX
  /\ tlb_search (page (page_offset 0x1100)) (m_tlb after_page_17) = Ok TLB_HIT
  /\ tlb_search (page (page_offset 0x0100)) (m_tlb after_page_17) = Ok TLB_MISS
  /\ pmt_search (page (page_offset 0x0100)) (m_pmt after_page_17)
     = Ok PAGE_SUCCESS.
Proof.
  assert (H1 : frames_ok after_page_1)
    by (split; vm_compute; [discriminate | reflexivity]).
  assert (H2 : faulted_in (page (page_offset 0x0100)) after_page_1).
  { apply (faulted_now _ reference_state 0x0100 0).
    - reflexivity.
    - vm_compute; reflexivity.
    - vm_compute; reflexivity.
    - exact page_1_translated. }
  assert (Hc : tlb_search (page (page_offset 0x0100)) (m_tlb after_page_1)
               = Ok TLB_HIT) by (vm_compute; reflexivity).
  assert (H3 : page (page_offset 0x0100) <> page (page_offset 0x1100))
    by (vm_compute; discriminate).
  assert (H4 : page (page_offset 0x0100) mod TLB_SIZE (m_tlb after_page_1)
               = page (page_offset 0x1100) mod TLB_SIZE (m_tlb after_page_1))
    by (vm_compute; reflexivity).
  assert (H5 : mmu_getphysical 0x1100 after_page_1 = Ok (256, after_page_17))
    by exact page_17_translated.
  assert (H6 : g_translated after_page_17 < INT_MAX) by (vm_compute; reflexivity).
  destruct (collision_evicts_and_page_table_answers _ _ _ _ _
              H1 H2 Hc H3 H4 H5 H6)
    as (_ & Hhit & Hmiss & Hmapped & _).
  exact (conj H1 (conj H2 (conj Hc (conj H3 (conj H4 (conj H5 (conj H6
           (conj Hhit (conj Hmiss Hmapped))))))))).
Defined.

(** ** Allocations over a run *)

Lemma translations_run logicals s0 s :
  translations logicals s0 = Ok s -> run s0 (reverse logicals) s.
Proof.
  assert (Hgen : forall history s1,
             run s0 history s1 -> translations logicals s1 = Ok s ->
             run s0 (reverse logicals ++ history) s).
  { induction logicals as [| logical rest IH]; intros history s1 Hrun H.
    - simpl in H. inversion H; subst. exact Hrun.
    - simpl in H. apply bind_Ok in H as ([phys s2] & Hstep & H).
      rewrite reverse_cons, <- app_assoc. simpl.
      apply (IH (logical :: history) s2); [| exact H].
      econstructor; eauto. }
  intros H. rewrite <- (app_nil_r (reverse logicals)).
  apply (Hgen [] s0); [constructor | exact H].
Qed.

Lemma run_shape s0 history s : run s0 history s -> same_shape s0 s.
Proof.
  induction 1 as [| history s logical phys s' _ IH Hstep].
  - apply same_shape_refl.
  - eapply same_shape_trans; [exact IH |].
    eapply mmu_getphysical_shape; eauto.
Qed.

(** The physical memory of a state reached from [init_mmu] is what as many
    allocations as there were page faults left. *)
Lemma run_allocations w store page_n page_size frame_n frame_size tlb_size
    s0 history s :
  init_mmu w store page_n page_size frame_n frame_size tlb_size = Ok s0 ->
  run s0 history s ->
  exists pages,
    Z.of_nat (length pages) = g_pagefault s
    /\ physical_inserts pages (PAGE_N (m_pmt s)) (init_physical w frame_n frame_size)
       = Ok (m_physical s).
Proof.
  intros Hinit Hrun.
  induction Hrun as [| history s logical phys s' Hrun IH Hstep].
  - exists []. apply init_mmu_physical in Hinit as (-> & -> & _). auto.
  - destruct IH as (pages & Hlen & Hpages).
    pose proof (mmu_getphysical_shape _ _ _ _ Hstep) as Hshape.
    rewrite (shape_page_n _ _ Hshape).
    apply mmu_getphysical_paths in Hstep
      as (_ & _ & _ & frame & _ & [Hh | [Hm | Hf]]).
    + exists pages. rewrite (hit_pagefault _ _ _ _ Hh), (hit_physical _ _ _ _ Hh).
      auto.
    + exists pages.
      rewrite (mapped_pagefault _ _ _ _ Hm), (mapped_physical _ _ _ _ Hm). auto.
    + destruct (fault_read _ _ _ _ Hf) as (data & _ & Hph).
      exists (pages ++ [data]). rewrite (fault_pagefault _ _ _ _ Hf). split.
      * rewrite length_app. simpl. lia.
      * rewrite physical_inserts_app, Hpages. simpl. now rewrite Hph.
Qed.

(** The allocation of a page fault, in terms of the allocations before it.
    Let the physical memory of [s] be what [k] allocations since
    [init_physical] left, and let a translation take the page-fault path.
    Its allocation, number [k] from 0, copies the page read from the backing
    store to slot [k mod 256], at byte [frame_count * (k mod 256)], and the
    frame base is that product cut to 32 bits. The page table entry of the
    faulting page is set to the same base. *)
Lemma fault_allocation
    (w : world) (entries size : Z) (pages : list (list Z))
    (s : mmu) (logical frame : Z) (s' : mmu) :
  physical_inserts pages (PAGE_N (m_pmt s)) (init_physical w entries size)
  = Ok (m_physical s) ->
  tlb_search (page (page_offset logical)) (m_tlb s) = Ok TLB_MISS ->
  pmt_search (page (page_offset logical)) (m_pmt s) = Ok PAGE_FAULT ->
  mmu_findframe logical s = Ok (frame, s') ->
  let k := Z.of_nat (length pages) in
  g_physical_index (m_physical s') = k mod 256
  /\ frame = uint32 (entries * (k mod 256))
  /\ (0 <= entries -> k < 256 -> entries * k < 2 ^ 32 -> frame = k * entries)
  /\ pmt_get (page (page_offset logical)) (m_pmt s') = Ok frame
  /\ exists data f,
       backingstore_get (page (page_offset logical)) (PAGE_N (m_pmt s))
         (g_backing s) = Ok (data, f)
       /\ take (Z.to_nat (PAGE_N (m_pmt s)))
            (drop (Z.to_nat (size_t (entries * (k mod 256))))
               (g_physical (m_physical s'))) = data.
Proof.
  intros Hpages Ht Hp Hf k.
  destruct (mmu_findframe_fault_Ok _ _ _ _ Ht Hp Hf)
    as (data & f & t & _ & _ & Hb & _ & Hph & Hfr & Hm & _).
  destruct (physical_inserts_init_index _ _ _ _ _ _ Hpages) as [Hslot Hn].
  destruct (physical_insert_index _ _ _ _ Hph) as (Hi & _).
  destruct (physical_insert_written _ _ _ _ Hph) as [Hbase Hbytes].
  rewrite Hslot, Hn in *. fold k in Hi, Hbase, Hbytes.
  assert (Hframe : frame = uint32 (entries * (k mod 256))) by congruence.
  split; [exact Hi |]. split; [exact Hframe |]. split; [| split].
  - intros He Hk Hfit. rewrite Hframe, Z.mod_small by lia.
    rewrite uint32_small by nia. lia.
  - rewrite (pmt_insert_get _ _ _ _ Hm), Hfr. f_equal.
    apply physical_index_uint32.
  - exists data, f. split; [exact Hb |]. rewrite Hbytes.
    apply backingstore_get_Ok in Hb as (Hlen & _). apply take_ge. lia.
Qed.



(** ** The first translation of a page *)

Lemma tlb_insert_slots page frame t t' h e :
  tlb_insert page frame t = Ok t' -> load (g_tlb t') h = Ok e ->
  tlb_page e = page \/ load (g_tlb t) h = Ok e.
Proof.
  unfold tlb_insert. intros H Hl. apply bind_Ok in H as (hash & Hh & H).
  apply bind_Ok in H as (slots & Hs & H). inversion H; subst t'; clear H.
  simpl in Hl. destruct (Z.eq_dec hash h) as [-> | Hne].
  - left. rewrite (load_store_eq _ _ _ _ Hs) in Hl. now inversion Hl.
  - right. rewrite <- Hl. symmetry. eapply load_store_ne; eauto.
    now apply load_bounds in Hl.
Qed.

Lemma init_untouched_inv w store page_n page_size frame_n frame_size tlb_size s0 :
  init_mmu w store page_n page_size frame_n frame_size tlb_size = Ok s0 ->
  0 <= tlb_size ->
  untouched_inv page_size tlb_size [] s0.
Proof.
  intros (_ & _ & _ & _ & _ & Hpm & Ht & _)%init_mmu_physical Hts.
  destruct (init_tlb_Ok _ _ Ht) as [Hsz Hslots]. split.
  - exact Hsz.
  - rewrite Hslots, length_replicate. lia.
  - intros p Hp _. pose proof (init_pmt_search _ _ _ _ p Hpm Hp) as Hs.
    unfold pmt_search in Hs. apply bind_Ok in Hs as (e & He & Hs).
    destruct (Z.eqb_spec e (-1)) as [-> | Hne]; [exact He | discriminate].
  - intros h e [_ Hl]%load_Ok. left. rewrite Hslots in Hl.
    apply lookup_replicate in Hl as [-> _]. reflexivity.
Qed.

Lemma step_untouched_inv page_size tlb_size history s logical phys s' :
  untouched_inv page_size tlb_size history s ->
  mmu_getphysical logical s = Ok (phys, s') ->
  untouched_inv page_size tlb_size (logical :: history) s'.
Proof.
  intros [Hsz Hlen Hun Hsl] Hstep.
  pose proof (mmu_getphysical_shape _ _ _ _ Hstep) as Hshape.
  apply mmu_getphysical_paths in Hstep
    as (_ & _ & _ & frame & _ & Hpath).
  split.
  - now rewrite (shape_tlb_size _ _ Hshape).
  - now rewrite (shape_tlb_length _ _ Hshape).
  - intros p Hp Hnot. unfold pages_of in Hnot. simpl in Hnot.
    apply not_elem_of_cons in Hnot as [Hne Hnot].
    destruct Hpath as [Hh | [Hm | Hf]].
    + rewrite (hit_pmt _ _ _ _ Hh). auto.
    + rewrite (mapped_pmt _ _ _ _ Hm). auto.
    + assert (Hpos : 0 <= p) by lia.
      assert (Hne' : page (page_offset logical) <> p) by (intros <-; now apply Hne).
      rewrite (pmt_insert_other _ _ _ _ _ (fault_pmt_insert _ _ _ _ Hf) Hpos Hne').
      auto.
  - intros h e Hl. unfold pages_of. simpl.
    assert (Hold : load (g_tlb (m_tlb s)) h = Ok e ->
                   tlb_page e = 255
                   \/ tlb_page e ∈ page (page_offset logical) :: pages_of history).
    { intros Ho. destruct (Hsl _ _ Ho) as [H255 | Hin]; [now left | right].
      now apply elem_of_cons; right. }
    destruct Hpath as [Hh | [Hm | Hf]].
    + rewrite (hit_tlb _ _ _ _ Hh) in Hl. auto.
    + destruct (tlb_insert_slots _ _ _ _ _ _ (mapped_insert _ _ _ _ Hm) Hl)
        as [Hnew | Ho]; [| auto].
      right. apply elem_of_cons. now left.
    + destruct (tlb_insert_slots _ _ _ _ _ _ (fault_tlb_insert _ _ _ _ Hf) Hl)
        as [Hnew | Ho]; [| auto].
      right. apply elem_of_cons. now left.
Qed.

Lemma run_untouched_inv w store page_n page_size frame_n frame_size tlb_size
    s0 history s :
  init_mmu w store page_n page_size frame_n frame_size tlb_size = Ok s0 ->
  0 <= tlb_size ->
  run s0 history s ->
  untouched_inv page_size tlb_size history s.
Proof.
  intros Hinit Hts Hrun.
  induction Hrun as [| history s logical phys s' _ IH Hstep].
  - eapply init_untouched_inv; eauto.
  - eapply step_untouched_inv; eauto.
Qed.

(** X8. The first translation of a page other than 255 that [init_pmt] reached:
    it misses the lookaside buffer and the page table, and when it returns
    it has counted one page fault and no hit. *)
Lemma first_touch_faults w store page_n page_size frame_n frame_size tlb_size
    s0 history s logical :
  init_mmu w store page_n page_size frame_n frame_size tlb_size = Ok s0 ->
  0 < tlb_size ->
  run s0 history s ->
  page (page_offset logical) ∉ pages_of history ->
  page (page_offset logical) < page_size ->
  page (page_offset logical) <> 255 ->
  tlb_search (page (page_offset logical)) (m_tlb s) = Ok TLB_MISS
  /\ pmt_search (page (page_offset logical)) (m_pmt s) = Ok PAGE_FAULT
  /\ forall phys s',
       mmu_getphysical logical s = Ok (phys, s') ->
       g_pagefault s' = g_pagefault s + 1 /\ g_tlbhit s' = g_tlbhit s.
Proof.
  intros Hinit Hts Hrun Hnot Hlt Hne.
  destruct (run_untouched_inv _ _ _ _ _ _ _ _ _ _ Hinit ltac:(lia) Hrun)
    as [Hsz Hlen Hun Hsl].
  set (p := page (page_offset logical)) in *.
  pose proof (page_range logical) as Hp. fold p in Hp.
  assert (Hmiss : tlb_search p (m_tlb s) = Ok TLB_MISS).
  { rewrite tlb_search_slot. unfold tlb_slot, hashCode. rewrite Hsz.
    destruct (Z.eqb_spec tlb_size 0) as [Hz | _]; [lia |]. simpl.
    pose proof (Z.mod_pos_bound p tlb_size Hts) as Hh.
    destruct (load_in_bounds (g_tlb (m_tlb s)) (p mod tlb_size)) as [e He];
      [lia |].
    rewrite He. simpl.
    destruct (Z.eqb_spec (tlb_page e) p) as [Heq | _]; [| reflexivity].
    destruct (Hsl _ _ He) as [H255 | Hin]; [congruence |].
    rewrite Heq in Hin. contradiction. }
  assert (Hfault : pmt_search p (m_pmt s) = Ok PAGE_FAULT).
  { unfold pmt_search. rewrite (Hun p) by (auto; lia). reflexivity. }
  split; [exact Hmiss |]. split; [exact Hfault |].
  intros phys s' Hstep.
  apply mmu_getphysical_paths in Hstep
    as (_ & _ & _ & frame & _ & [Hh | [Hm | Hf]]).
  - pose proof (hit_search _ _ _ _ Hh). fold p in H. congruence.
  - pose proof (mapped_pmt_search _ _ _ _ Hm). fold p in H. congruence.
  - split; [exact (fault_pagefault _ _ _ _ Hf) | exact (fault_tlbhit _ _ _ _ Hf)].
Qed.

(** C1, as the code has it. Right after [init_mmu] with the reference
    configuration no page has been translated, and the translation of
    [0xFF00], the first of page 255, is a lookaside-buffer hit on the
    initial content of slot 15: the fault counter stays at 0, the hit
    counter goes to 1, and the frame is the [0xFFFFFFFF] the slot was
    initialised with. *)
Theorem first_touch_of_page_255_hits :
  reference_init = Ok reference_state
  /\ g_translated reference_state = 0
  /\ page (page_offset 0xFF00) = 255
  /\ tlb_search 255 (m_tlb reference_state) = Ok TLB_HIT
  /\ counters_after (mmu_getphysical 0xFF00 reference_state)
     = Ok (2 ^ 32 - 1, 0, 1, 1).
Proof.
  split; [exact reference_init_returns |].
  repeat split; vm_compute; reflexivity.
Qed.

(** ** The bytes a page fault reads *)

(** C5, as the code has it. With 256 entries and a page size of 128, the
    fault on page 1 asks the backing store for [PAGE_N = 256] bytes at byte
    [1 * 256]: it copies blocks 2 and 3 and leaves the file at byte 512.
    The 128 bytes at byte [1 * 128], block 1, are not what it reads. *)
Theorem page_fault_reads_page_n_bytes :
  half_pages_init = Ok (state_of half_pages_init)
  /\ PAGE_SIZE (m_pmt (state_of half_pages_init)) = 128
  /\ pmt_page_n (m_pmt (state_of half_pages_init)) = 256
  /\ fault_view (mmu_findframe 0x0100 (state_of half_pages_init))
     = Ok (0, 1, 512, replicate 128 2 ++ replicate 128 3)
  /\ take 128 (drop (1 * 128) numbered_store) = replicate 128 1.
Proof.
  split; [refine (state_of_returned half_pages_init _); vm_compute; exact I |].
  repeat split; vm_compute; reflexivity.
Qed.

(** A short read ends the process: with a backing store cut to 300 bytes the
    same fault leaves through [exit]. *)
Lemma short_read_exits :
  bind (init_mmu (disk (take 300 numbered_store)) main.BACKING_STORE
          256 128 256 256 16)
       (mmu_findframe 0x0100) = Exit.
Proof. vm_compute. reflexivity. Qed.

(** In the reference configuration the page read on a fault is the page of
    the backing store: page 1 is 42 everywhere, and the value at the
    physical address of [0x0100] is 42. *)
Lemma reference_page_1_is_42 :
  fault_view (mmu_findframe 0x0100 reference_state)
  = Ok (0, 1, 512, replicate 256 42)
  /\ mmu_getvalue 0 after_page_1 = Ok 42.
Proof. split; vm_compute; reflexivity. Qed.

(** ** Translations that return *)

Lemma mmu_ok_shape s s' : same_shape s s' -> mmu_ok s -> mmu_ok s'.
Proof.
  intros [] [Hi Ht Hp Hn Hf Hs (H1 & H2 & H3 & H4)].
  split; unfold physical_fits; try congruence; try lia.
Qed.

Lemma tlb_slot_returns p t :
  0 < TLB_SIZE t <= Z.of_nat (length (g_tlb t)) ->
  exists e, tlb_slot p t = Ok e.
Proof.
  intros Ht. unfold tlb_slot, hashCode.
  destruct (Z.eqb_spec (TLB_SIZE t) 0) as [Hz | _]; [lia |]. simpl.
  apply load_in_bounds.
  pose proof (Z.mod_pos_bound p (TLB_SIZE t)). lia.
Qed.

Lemma tlb_insert_returns p frame t :
  0 < TLB_SIZE t <= Z.of_nat (length (g_tlb t)) ->
  exists t', tlb_insert p frame t = Ok t'.
Proof.
  intros Ht. destruct (tlb_slot_returns p t Ht) as [e He].
  eapply tlb_slot_insert_returns; eauto.
Qed.

Lemma page_fault_returns p s :
  mmu_ok s -> 0 <= p < 256 -> g_pagefault s < INT_MAX ->
  exists frame s', page_fault p s = Ok (frame, s').
Proof.
  intros [Hi Ht Hp Hn Hf Hs Hph] Hrange Hlt.
  unfold page_fault, pmt_page_n. rewrite (incr_lt _ Hlt). msimpl.
  rewrite backingstore_get_spec by nia.
  destruct (Z.ltb_spec 0 (PAGE_N (m_pmt s))) as [_ | Hle]; [| lia].
  destruct (Z.leb_spec (p * PAGE_N (m_pmt s) + PAGE_N (m_pmt s))
              (Z.of_nat (length (f_bytes (g_backing s))))) as [_ | Hgt]; [| nia].
  cbn [andb]. msimpl.
  set (data := take _ (drop _ _)).
  assert (Hlen : PAGE_N (m_pmt s) <= Z.of_nat (length data)).
  { unfold data. rewrite length_take, length_drop. nia. }
  destruct (physical_insert_returns data _ _ Hph Hlen) as [ph Hins].
  rewrite Hins. msimpl.
  unfold pmt_insert, store.
  destruct (Z.leb_spec 0 p) as [_ | Hneg]; [| lia].
  destruct (Z.ltb_spec p (Z.of_nat (length (g_pmt (m_pmt s))))) as [_ | Hge];
    [| lia].
  simpl. eauto.
Qed.

Lemma mmu_findframe_returns addr s :
  mmu_ok s -> g_tlbhit s < INT_MAX -> g_pagefault s < INT_MAX ->
  exists frame s', mmu_findframe addr s = Ok (frame, s').
Proof.
  intros Hok Hhit Hfault. pose proof (page_range addr) as Hp.
  set (p := page (page_offset addr)) in *.
  destruct (tlb_slot_returns p (m_tlb s) (ok_tlb _ Hok)) as [e He].
  destruct (tlb_page e =? p) eqn:Hcmp.
  - assert (Hhits : tlb_search p (m_tlb s) = Ok TLB_HIT)
      by (rewrite tlb_search_slot, He; simpl; now rewrite Hcmp).
    rewrite (mmu_findframe_hit _ _ Hhits), (incr_lt _ Hhit). msimpl. fold p.
    rewrite tlb_get_slot, He. simpl. eauto.
  - assert (Hmiss : tlb_search p (m_tlb s) = Ok TLB_MISS)
      by (rewrite tlb_search_slot, He; simpl; now rewrite Hcmp).
    destruct (load_in_bounds (g_pmt (m_pmt s)) p) as [entry Hentry];
      [pose proof (ok_pmt _ Hok); lia |].
    assert (Hsearch : pmt_search p (m_pmt s)
                      = Ok (if entry =? -1 then PAGE_FAULT else PAGE_SUCCESS))
      by (unfold pmt_search; now rewrite Hentry).
    destruct (entry =? -1) eqn:Hunmapped.
    + rewrite (mmu_findframe_fault _ _ Hmiss Hsearch). fold p.
      destruct (page_fault_returns p s Hok Hp Hfault) as (frame & s1 & Hpf).
      rewrite Hpf. msimpl.
      apply page_fault_shape in Hpf as Hshape.
      destruct (tlb_insert_returns p frame (m_tlb s1)) as [t Hins].
      { rewrite (shape_tlb_size _ _ Hshape), (shape_tlb_length _ _ Hshape).
        exact (ok_tlb _ Hok). }
      rewrite Hins. msimpl. eauto.
    + rewrite (mmu_findframe_mapped _ _ Hmiss Hsearch). fold p.
      unfold pmt_get. rewrite Hentry. msimpl.
      destruct (tlb_insert_returns p (uint32 entry) (m_tlb s) (ok_tlb _ Hok))
        as [t Hins].
      rewrite Hins. msimpl. eauto.
Qed.

(** From a state that is [mmu_ok] every translation returns, as long as the
    counters are short of [INT_MAX], and leaves a state that is [mmu_ok]. *)
Lemma mmu_getphysical_returns logical s :
  mmu_ok s ->
  g_translated s < INT_MAX -> g_tlbhit s < INT_MAX -> g_pagefault s < INT_MAX ->
  exists phys s', mmu_getphysical logical s = Ok (phys, s') /\ mmu_ok s'.
Proof.
  intros Hok Htr Hhit Hfault.
  assert (Hok' : mmu_ok (set_g_translated (g_translated s + 1) s))
    by (destruct Hok; split; assumption).
  destruct (mmu_findframe_returns logical _ Hok' Hhit Hfault)
    as (frame & s' & Hf).
  assert (H : mmu_getphysical logical s
              = Ok (uint32 (frame + offset (page_offset logical)), s')).
  { unfold mmu_getphysical. rewrite (ok_initialized _ Hok), (incr_lt _ Htr).
    msimpl. rewrite Hf. reflexivity. }
  eexists _, _. split; [exact H |].
  eapply mmu_ok_shape; [| exact Hok]. eapply mmu_getphysical_shape; eauto.
Qed.

(** The configurations [init_mmu] turns into such a state. *)
Lemma init_mmu_ok w store bytes page_n page_size frame_n frame_size tlb_size :
  w_fopen w store = Some bytes ->
  0 <= page_size <= page_n -> 256 <= page_n <= INT_MAX ->
  0 < tlb_size <= INT_MAX ->
  256 * page_n <= Z.of_nat (length bytes) ->
  0 <= frame_n -> frame_n * 255 + page_n <= size_t (frame_size * frame_n) ->
  exists s0,
    init_mmu w store page_n page_size frame_n frame_size tlb_size = Ok s0
    /\ mmu_ok s0.
Proof.
  intros Hopen Hps Hpn Hts Hbytes Hfn Hfit. unfold INT_MAX in *.
  destruct (init_pmt_returns w page_n page_size Hps ltac:(unfold INT_MAX; lia))
    as [pm Hpm].
  destruct (init_tlb_returns tlb_size ltac:(unfold INT_MAX; lia)) as [t Ht].
  eexists. split.
  - unfold init_mmu, init_backingstore. rewrite Hopen, Hpm, Ht. reflexivity.
  - destruct (init_tlb_Ok _ _ Ht) as [Hsz Hslots].
    destruct (init_pmt_Ok _ _ _ _ Hpm) as (Hn & _).
    pose proof (init_pmt_length _ _ _ _ Hpm ltac:(lia)) as Hlen.
    split; simpl.
    + reflexivity.
    + rewrite Hsz, Hslots, length_replicate. lia.
    + lia.
    + lia.
    + lia.
    + unfold LONG_MAX. lia.
    + rewrite Hn. apply init_physical_fits; lia.
Qed.

(** The reference configuration with the sample backing store is one. *)
Lemma reference_state_ok : mmu_ok reference_state.
Proof.
  assert (Hopen : w_fopen (disk sample_store) main.BACKING_STORE
                  = Some sample_store)
    by (unfold disk, w_fopen; now rewrite String.eqb_refl).
  assert (Hbytes : 256 * main.PAGE_N <= Z.of_nat (length sample_store))
    by (vm_compute; discriminate).
  assert (Hfit : main.FRAME_N * 255 + main.PAGE_N
                 <= size_t (main.FRAME_SIZE * main.FRAME_N))
    by (vm_compute; discriminate).
  destruct (init_mmu_ok (disk sample_store) main.BACKING_STORE sample_store
              main.PAGE_N main.PAGE_SIZE main.FRAME_N main.FRAME_SIZE main.TLB_SIZE
              Hopen) as (s0 & Hinit & Hok);
    try exact Hbytes; try exact Hfit;
    try (unfold main.PAGE_N, main.PAGE_SIZE, main.FRAME_N, main.TLB_SIZE, INT_MAX; lia).
  fold reference_init in Hinit. rewrite reference_init_returns in Hinit.
  assert (Heq : reference_state = s0) by congruence.
  rewrite Heq. exact Hok.
Qed.

(** * Further properties *)

(** ** Copies and slots, entry by entry *)

Lemma tlb_insert_slots_eq page frame t t' h e :
  tlb_insert page frame t = Ok t' -> load (g_tlb t') h = Ok e ->
  e = {| tlb_page := page; tlb_frame := frame |} \/ load (g_tlb t) h = Ok e.
Proof.
  unfold tlb_insert. intros H Hl. apply bind_Ok in H as (hash & Hh & H).
  apply bind_Ok in H as (slots & Hs & H). inversion H; subst t'; clear H.
  simpl in Hl. destruct (Z.eq_dec hash h) as [-> | Hne].
  - left. rewrite (load_store_eq _ _ _ _ Hs) in Hl. now inversion Hl.
  - right. rewrite <- Hl. symmetry. eapply load_store_ne; eauto.
    now apply load_bounds in Hl.
Qed.

(** An insertion changes the slot of the inserted page and no other. *)
Lemma tlb_insert_other_slot page frame t t' q :
  tlb_insert page frame t = Ok t' ->
  q mod TLB_SIZE t <> page mod TLB_SIZE t ->
  tlb_slot q t' = tlb_slot q t.
Proof.
  unfold tlb_insert. intros H Hne. apply bind_Ok in H as (hash & Hh & H).
  apply bind_Ok in H as (slots & Hs & H). inversion H; subst t'; clear H.
  apply hashCode_Ok in Hh as [Hsz ->].
  unfold tlb_slot, hashCode. simpl.
  destruct (Z.eqb_spec (TLB_SIZE t) 0) as [Hz | _]; [done |]. simpl.
  destruct (Z.lt_ge_cases (q mod TLB_SIZE t) 0) as [Hneg | Hpos].
  - unfold load. destruct (Z.leb_spec 0 (q mod TLB_SIZE t)) as [Hle | _]; [lia |].
    reflexivity.
  - eapply load_store_ne; eauto.
Qed.

(** At most 256 distinct page numbers. *)
Lemma pages_at_most_256 (order : list Z) :
  NoDup order -> (forall p, p ∈ order -> 0 <= p < 256) ->
  (length order <= 256)%nat.
Proof.
  intros Hnd Hrange.
  assert (Hsub : order ⊆+ seqZ 0 256).
  { apply NoDup_submseteq; [exact Hnd |].
    intros p Hp. apply elem_of_seqZ. specialize (Hrange p Hp). lia. }
  apply submseteq_length in Hsub. rewrite length_seqZ in Hsub. lia.
Qed.

(** The bytes [backingstore_get] returns, one by one. *)
Lemma backingstore_get_bytes offset page_n f data f' (o : nat) :
  backingstore_get offset page_n f = Ok (data, f') ->
  0 <= offset * page_n <= LONG_MAX ->
  Z.of_nat o < page_n ->
  exists b, data !! o = Some b
            /\ f_bytes f !! (Z.to_nat (offset * page_n) + o)%nat = Some b.
Proof.
  intros H Hloc Ho. rewrite backingstore_get_spec in H by exact Hloc.
  destruct (Z.ltb_spec 0 page_n) as [Hpos | Hzero]; [| discriminate].
  destruct (Z.leb_spec (offset * page_n + page_n)
              (Z.of_nat (length (f_bytes f)))) as [Hin | Hout]; [| discriminate].
  simpl in H. inversion H; subst data f'; clear H.
  rewrite lookup_take_lt by lia. rewrite lookup_drop.
  destruct (lookup_lt_is_Some_2 (f_bytes f) (Z.to_nat (offset * page_n) + o))
    as [b Hb]; [lia |].
  exists b. auto.
Qed.

(** ** Resident pages along a run *)

Lemma tlb_slot_Ok q t e :
  tlb_slot q t = Ok e <->
  TLB_SIZE t <> 0 /\ load (g_tlb t) (q mod TLB_SIZE t) = Ok e.
Proof.
  unfold tlb_slot, hashCode.
  destruct (Z.eqb_spec (TLB_SIZE t) 0) as [Hz | Hnz]; simpl; split.
  - discriminate.
  - intros [Hne _]. contradiction.
  - auto.
  - intros [_ H]. exact H.
Qed.

Lemma cached_app frame_n order more e :
  cached frame_n order e -> cached frame_n (order ++ more) e.
Proof.
  intros (i & Hi & Hf). exists i. split; [| exact Hf].
  now apply lookup_app_l_Some.
Qed.

Lemma pmt_insert_load page frame pm pm' :
  pmt_insert page frame pm = Ok pm' ->
  load (g_pmt pm') page = Ok (int32 frame).
Proof.
  unfold pmt_insert. intros H. apply bind_Ok in H as (t & Ht & H).
  inversion H; simpl. eapply load_store_eq; eauto.
Qed.

Lemma int32_small z : 0 <= z < 2 ^ 31 -> int32 z = z.
Proof. intros H. unfold int32. rewrite Z.mod_small by lia. lia. Qed.

(** The slots after the insertion of a page of [order'] with its frame. *)
Lemma slots_after_insert frame_n order order' t t' p i :
  (forall h e, load (g_tlb t) h = Ok e ->
               e = sentinel \/ cached frame_n order e) ->
  (255 ∈ order -> forall e, tlb_slot 255 t = Ok e -> cached frame_n order e) ->
  (forall e, cached frame_n order e -> cached frame_n order' e) ->
  (255 ∈ order' -> 255 ∈ order \/ p = 255) ->
  order' !! i = Some p ->
  tlb_insert p (frame_n * Z.of_nat i) t = Ok t' ->
  (forall h e, load (g_tlb t') h = Ok e ->
               e = sentinel \/ cached frame_n order' e)
  /\ (255 ∈ order' ->
      forall e, tlb_slot 255 t' = Ok e -> cached frame_n order' e).
Proof.
  intros Hslots H255 Hmore Hin Hrank Hins.
  assert (Hnew : cached frame_n order'
                   {| tlb_page := p; tlb_frame := frame_n * Z.of_nat i |})
    by (exists i; split; [exact Hrank | reflexivity]).
  split.
  - intros h e Hl.
    destruct (tlb_insert_slots_eq _ _ _ _ _ _ Hins Hl) as [-> | Hold].
    + now right.
    + destruct (Hslots _ _ Hold) as [-> | Hc]; [now left | right; auto].
  - intros Hin' e He.
    destruct (Z.eq_dec p 255) as [-> | Hne].
    + rewrite (tlb_insert_slot _ _ _ _ Hins) in He. inversion He. exact Hnew.
    + destruct (Hin Hin') as [Hold | Heq]; [| contradiction].
      apply tlb_slot_Ok in He as [Hsz Hl].
      rewrite (tlb_insert_size _ _ _ _ Hins) in Hsz, Hl.
      destruct (tlb_insert_slots_eq _ _ _ _ _ _ Hins Hl) as [-> | Hl'].
      * exact Hnew.
      * apply Hmore. apply (H255 Hold). apply tlb_slot_Ok. auto.
Qed.

Lemma init_resident w store file page_n page_size frame_n frame_size tlb_size s0 :
  init_mmu w store page_n page_size frame_n frame_size tlb_size = Ok s0 ->
  w_fopen w store = Some file ->
  well_configured page_n page_size frame_n frame_size tlb_size ->
  resident frame_n page_n file [] s0.
Proof.
  intros Hinit Hopen (Hts & Hps & Hpn & Hfit & Hcap).
  apply init_mmu_physical in Hinit
    as (Hph & Hpf & _ & _ & Hini & Hpm & Ht & Hf).
  destruct (init_physical_index w frame_n frame_size) as (Hidx & Hfn & Hlen).
  destruct (init_pmt_Ok _ _ _ _ Hpm) as (Hn & _).
  destruct (init_tlb_Ok _ _ Ht) as [Hsz Hslots].
  unfold init_backingstore in Hf. rewrite Hopen in Hf.
  assert (Hfile : f_bytes (g_backing s0) = file)
    by (inversion Hf as [Hfile]; reflexivity).
  split.
  - exact Hini.
  - now rewrite Hph.
  - exact Hn.
  - exact Hfile.
  - exact Hpn.
  - rewrite Hph, Hlen. lia.
  - apply NoDup_nil_2.
  - intros p Hp. now apply elem_of_nil in Hp.
  - rewrite Hph, Hidx. reflexivity.
  - exact Hpf.
  - intros i p Hi. discriminate.
  - intros p Hp _.
    pose proof (init_pmt_search _ _ _ _ p Hpm ltac:(lia)) as Hs.
    unfold pmt_search in Hs. apply bind_Ok in Hs as (e & He & Hs).
    destruct (Z.eqb_spec e (-1)) as [-> | Hne]; [exact He | discriminate].
  - intros i p o Hi. discriminate.
  - intros h e [_ Hl]%load_Ok. left. rewrite Hslots in Hl.
    apply lookup_replicate in Hl as [-> _]. reflexivity.
  - intros Hin. now apply elem_of_nil in Hin.
Qed.

Lemma resident_rank frame_n page_n file order s i p :
  resident frame_n page_n file order s -> order !! i = Some p ->
  Z.of_nat i <= 255
  /\ 0 <= frame_n * Z.of_nat i
  /\ frame_n * Z.of_nat i + page_n < 2 ^ 31.
Proof.
  intros Hres Hi.
  pose proof (pages_at_most_256 order (res_nodup _ _ _ _ _ Hres)
                (res_pages _ _ _ _ _ Hres)) as Hlen.
  apply lookup_lt_Some in Hi.
  destruct (res_sizes _ _ _ _ _ Hres) as [Hpn Hfn].
  destruct (res_room _ _ _ _ _ Hres) as [Hfit Hcap].
  split; [lia |]. split; nia.
Qed.

(** A state that differs from a resident one by its lookaside buffer and
    its counters of hits and translations only. *)
Lemma resident_with_tlb frame_n page_n file order s s' :
  resident frame_n page_n file order s ->
  mmu_initialized s' = mmu_initialized s ->
  m_physical s' = m_physical s -> m_pmt s' = m_pmt s ->
  g_backing s' = g_backing s -> g_pagefault s' = g_pagefault s ->
  (forall h e, load (g_tlb (m_tlb s')) h = Ok e ->
               e = sentinel \/ cached frame_n order e) ->
  (255 ∈ order ->
   forall e, tlb_slot 255 (m_tlb s') = Ok e -> cached frame_n order e) ->
  resident frame_n page_n file order s'.
Proof.
  intros [] Hi Hph Hpm Hb Hpf Hslots H255.
  split; rewrite ?Hi, ?Hph, ?Hpm, ?Hb, ?Hpf; assumption.
Qed.

(** The frame a lookaside-buffer hit returns, in a resident state. *)
Lemma resident_hit frame_n page_n file order s p frame :
  resident frame_n page_n file order s ->
  tlb_search p (m_tlb s) = Ok TLB_HIT ->
  tlb_get p (m_tlb s) = Ok frame ->
  (exists i, order !! i = Some p /\ frame = frame_n * Z.of_nat i)
  \/ (p = 255 /\ (255 ∉ order) /\ frame = 2 ^ 32 - 1).
Proof.
  intros Hres Hs Hg. rewrite tlb_search_slot in Hs. rewrite tlb_get_slot in Hg.
  apply bind_Ok in Hs as (e & He & Hs). rewrite He in Hg. simpl in Hg.
  destruct (Z.eqb_spec (tlb_page e) p) as [Hp | Hne]; [| discriminate].
  inversion Hg as [Hf]. clear Hg Hs.
  assert (Hcached : cached frame_n order e ->
                    exists i, order !! i = Some p
                              /\ tlb_frame e = frame_n * Z.of_nat i)
    by (intros (i & Hi & Hfr); exists i; split; congruence).
  pose proof He as He'. apply tlb_slot_Ok in He' as [_ Hl].
  destruct (res_slots _ _ _ _ _ Hres _ _ Hl) as [Hsent | Hc]; [| left; auto].
  assert (Hp255 : p = 255) by (rewrite <- Hp, Hsent; reflexivity).
  destruct (decide (255 ∈ order)) as [Hin | Hnot].
  - left. apply Hcached. apply (res_slot_255 _ _ _ _ _ Hres Hin).
    now rewrite <- Hp255.
  - right. rewrite Hsent. auto.
Qed.

(** The frame the page table gives for a mapped page, in a resident state. *)
Lemma resident_mapped frame_n page_n file order s p frame :
  resident frame_n page_n file order s -> 0 <= p < 256 ->
  pmt_search p (m_pmt s) = Ok PAGE_SUCCESS ->
  pmt_get p (m_pmt s) = Ok frame ->
  exists i, order !! i = Some p /\ frame = frame_n * Z.of_nat i.
Proof.
  intros Hres Hp Hs Hg. unfold pmt_search in Hs. unfold pmt_get in Hg.
  apply bind_Ok in Hs as (entry & He & Hs). rewrite He in Hg. simpl in Hg.
  inversion Hg as [Hf]. clear Hg.
  destruct (decide (p ∈ order)) as [Hin | Hnot].
  - apply list_elem_of_lookup in Hin as [i Hi]. exists i. split; [exact Hi |].
    rewrite (res_mapped _ _ _ _ _ Hres _ _ Hi) in He.
    assert (Hentry : entry = frame_n * Z.of_nat i) by congruence.
    destruct (resident_rank _ _ _ _ _ _ _ Hres Hi) as (_ & Hpos & Hmax).
    destruct (res_sizes _ _ _ _ _ Hres) as [Hpn Hfn].
    rewrite Hentry. apply uint32_small. lia.
  - rewrite (res_unmapped _ _ _ _ _ Hres p Hp Hnot) in He. inversion He; subst.
    discriminate.
Qed.

(** A page the page table does not map is not resident. *)
Lemma resident_fault frame_n page_n file order s p :
  resident frame_n page_n file order s ->
  pmt_search p (m_pmt s) = Ok PAGE_FAULT -> p ∉ order.
Proof.
  intros Hres Hs Hin. apply list_elem_of_lookup in Hin as [i Hi].
  unfold pmt_search in Hs.
  rewrite (res_mapped _ _ _ _ _ Hres _ _ Hi) in Hs. simpl in Hs.
  destruct (resident_rank _ _ _ _ _ _ _ Hres Hi) as (_ & Hpos & _).
  destruct (Z.eqb_spec (frame_n * Z.of_nat i) (-1)) as [Heq | _];
    [lia | discriminate].
Qed.

(** The page-fault path keeps the state resident, with the faulting page as
    the newest of the order. *)
Lemma resident_after_fault frame_n page_n file order s p frame s' :
  resident frame_n page_n file order s -> 0 <= p < 256 ->
  mmu_initialized s' = mmu_initialized s ->
  fault_path p frame s s' ->
  resident frame_n page_n file (order ++ [p]) s'
  /\ frame = frame_n * Z.of_nat (length order).
Proof.
  intros Hres Hp Hini Hf.
  pose proof (resident_fault _ _ _ _ _ _ Hres (fault_pmt_search _ _ _ _ Hf))
    as Hnot.
  destruct (res_sizes _ _ _ _ _ Hres) as [Hpn Hfn].
  destruct (res_room _ _ _ _ _ Hres) as [Hfit Hcap].
  assert (Hnd : NoDup (order ++ [p])).
  { apply NoDup_app. split; [exact (res_nodup _ _ _ _ _ Hres) |].
    split; [| apply NoDup_singleton].
    intros q Hq Hq'. apply list_elem_of_singleton in Hq'. congruence. }
  assert (Hpages : forall q, q ∈ order ++ [p] -> 0 <= q < 256).
  { intros q [Hq | Hq]%elem_of_app; [exact (res_pages _ _ _ _ _ Hres q Hq) |].
    apply list_elem_of_singleton in Hq. lia. }
  pose proof (pages_at_most_256 _ Hnd Hpages) as Hlen.
  rewrite length_app in Hlen. simpl in Hlen.
  set (k := Z.of_nat (length order)) in *.
  assert (Hk : 0 <= k <= 255) by lia.
  destruct (fault_read _ _ _ _ Hf) as (data & Hb & Hins).
  rewrite (res_page_n _ _ _ _ _ Hres) in Hb, Hins.
  apply physical_insert_Ok in Hins as (mem & Hcpy & Hph').
  rewrite (res_frame_n _ _ _ _ _ Hres), (res_index _ _ _ _ _ Hres) in Hcpy, Hph'.
  fold k in Hcpy, Hph'. rewrite (Z.mod_small k 256) in Hcpy, Hph' by lia.
  assert (Hsz : size_t (frame_n * k) = frame_n * k)
    by (unfold size_t; apply Z.mod_small; nia).
  rewrite Hsz in Hcpy.
  assert (Hframe : frame = frame_n * k).
  { rewrite (fault_frame _ _ _ _ Hf), Hph'. unfold physical_index. simpl.
    rewrite Hsz. apply uint32_small. nia. }
  split; [| exact Hframe].
  pose proof (fault_pmt_insert _ _ _ _ Hf) as Hpmt.
  pose proof (fault_tlb_insert _ _ _ _ Hf) as Htlb.
  rewrite Hframe in Hpmt, Htlb.
  destruct (pmt_insert_Ok _ _ _ _ Hpmt) as (_ & Hn' & _ & _).
  destruct (backingstore_get_Ok _ _ _ _ _ Hb) as (Hdata & _ & Hfile).
  destruct (slots_after_insert frame_n order (order ++ [p])
              (m_tlb s) (m_tlb s') p (length order)
              (res_slots _ _ _ _ _ Hres) (res_slot_255 _ _ _ _ _ Hres))
    as [Hslots H255]; try exact Htlb.
  { intros e. apply cached_app. }
  { intros [Hin | Hin]%elem_of_app; [now left | right].
    now apply list_elem_of_singleton in Hin. }
  { rewrite lookup_app_r by lia. now rewrite Nat.sub_diag. }
  split.
  - now rewrite Hini, (res_initialized _ _ _ _ _ Hres).
  - now rewrite Hph'.
  - now rewrite Hn', (res_page_n _ _ _ _ _ Hres).
  - now rewrite Hfile, (res_file _ _ _ _ _ Hres).
  - lia.
  - rewrite Hph'. simpl. rewrite (memcpy_length _ _ _ _ _ Hcpy). lia.
  - exact Hnd.
  - exact Hpages.
  - rewrite Hph', length_app. simpl. unfold uint8. change (2 ^ 8) with 256.
    f_equal. unfold k. lia.
  - rewrite (fault_pagefault _ _ _ _ Hf), (res_faults _ _ _ _ _ Hres), length_app.
    simpl. lia.
  - intros i q Hi. apply lookup_app_Some in Hi as [Hi | [Hge Hi]].
    + assert (Hq : q ∈ order) by (apply list_elem_of_lookup; eauto).
      rewrite (pmt_insert_other _ _ _ _ q Hpmt).
      * exact (res_mapped _ _ _ _ _ Hres _ _ Hi).
      * exact (proj1 (res_pages _ _ _ _ _ Hres q Hq)).
      * congruence.
    + apply list_lookup_singleton_Some in Hi as [Hi <-].
      rewrite (pmt_insert_load _ _ _ _ Hpmt).
      replace i with (length order) by lia. fold k.
      rewrite int32_small by nia. reflexivity.
  - intros q Hq Hq'. apply not_elem_of_app in Hq' as [Hq1 Hq2].
    apply not_elem_of_cons in Hq2 as [Hne _].
    rewrite (pmt_insert_other _ _ _ _ q Hpmt); [| lia | congruence].
    exact (res_unmapped _ _ _ _ _ Hres q Hq Hq1).
  - intros i q o Hi Ho. rewrite Hph'. simpl.
    apply lookup_app_Some in Hi as [Hi | [Hge Hi]].
    + destruct (res_bytes _ _ _ _ _ Hres i q o Hi Ho) as (b & Hm & Hfb).
      exists b. split; [| exact Hfb].
      rewrite (memcpy_lookup_before _ _ _ _ _ _ Hcpy); [exact Hm |].
      apply lookup_lt_Some in Hi. nia.
    + apply list_lookup_singleton_Some in Hi as [Hi <-].
      replace i with (length order) by lia. fold k.
      destruct (backingstore_get_bytes _ _ _ _ _ (Z.to_nat o) Hb) as (b & Hd & Hfb);
        [unfold LONG_MAX; nia | lia |].
      exists b. rewrite (res_file _ _ _ _ _ Hres) in Hfb. split.
      * replace (Z.to_nat (frame_n * k + o))
          with (Z.to_nat (frame_n * k) + Z.to_nat o)%nat by nia.
        rewrite (memcpy_lookup_written _ _ _ _ _ _ Hcpy) by lia. exact Hd.
      * replace (Z.to_nat (p * page_n + o))
          with (Z.to_nat (p * page_n) + Z.to_nat o)%nat by nia.
        exact Hfb.
  - exact Hslots.
  - exact H255.
Qed.

(** A translation keeps the state resident; it adds its page to the order
    exactly when it faults, and the address it returns is the frame of the
    rank of the page plus the offset, unless it hit the [sentinel]. *)
Lemma resident_step frame_n page_n file order s logical phys s' :
  resident frame_n page_n file order s ->
  mmu_getphysical logical s = Ok (phys, s') ->
  exists order',
    resident frame_n page_n file order' s'
    /\ (order' = order \/ order' = order ++ [page (page_offset logical)])
    /\ ((exists i, order' !! i = Some (page (page_offset logical))
                   /\ phys = frame_n * Z.of_nat i + offset (page_offset logical))
        \/ (page (page_offset logical) = 255 /\ (255 ∉ order')
            /\ phys = uint32 (2 ^ 32 - 1 + offset (page_offset logical)))).
Proof.
  intros Hres Hstep.
  pose proof (mmu_getphysical_shape _ _ _ _ Hstep) as Hshape.
  apply mmu_getphysical_paths in Hstep as (_ & _ & _ & frame & -> & Hpath).
  pose proof (page_range logical) as Hp. pose proof (offset_range logical) as Ho.
  set (p := page (page_offset logical)) in *.
  set (o := offset (page_offset logical)) in *.
  destruct (res_sizes _ _ _ _ _ Hres) as [Hpn Hfn].
  assert (Hphys : forall order' i,
             resident frame_n page_n file order' s' ->
             order' !! i = Some p -> frame = frame_n * Z.of_nat i ->
             exists j, order' !! j = Some p
                       /\ uint32 (frame + o) = frame_n * Z.of_nat j + o).
  { intros order' i Hres' Hi ->. exists i. split; [exact Hi |].
    destruct (resident_rank _ _ _ _ _ _ _ Hres' Hi) as (_ & Hpos & Hmax).
    apply uint32_small. lia. }
  destruct Hpath as [Hh | [Hm | Hf]].
  - assert (Hres' : resident frame_n page_n file order s').
    { apply (resident_with_tlb _ _ _ _ s); try assumption.
      - exact (shape_initialized _ _ Hshape).
      - exact (hit_physical _ _ _ _ Hh).
      - exact (hit_pmt _ _ _ _ Hh).
      - exact (hit_backing _ _ _ _ Hh).
      - exact (hit_pagefault _ _ _ _ Hh).
      - rewrite (hit_tlb _ _ _ _ Hh). exact (res_slots _ _ _ _ _ Hres).
      - rewrite (hit_tlb _ _ _ _ Hh). exact (res_slot_255 _ _ _ _ _ Hres). }
    exists order. split; [exact Hres' |]. split; [now left |].
    destruct (resident_hit _ _ _ _ _ _ _ Hres (hit_search _ _ _ _ Hh)
                (hit_get _ _ _ _ Hh)) as [(i & Hi & Hfr) | (H255 & Hnot & Hfr)].
    + left. eapply Hphys; eauto.
    + right. rewrite Hfr. auto.
  - destruct (resident_mapped _ _ _ _ _ _ _ Hres Hp
                (mapped_pmt_search _ _ _ _ Hm) (mapped_get _ _ _ _ Hm))
      as (i & Hi & Hfr).
    pose proof (mapped_insert _ _ _ _ Hm) as Hins. rewrite Hfr in Hins.
    destruct (slots_after_insert frame_n order order (m_tlb s) (m_tlb s') p i
                (res_slots _ _ _ _ _ Hres) (res_slot_255 _ _ _ _ _ Hres))
      as [Hslots H255]; auto.
    assert (Hres' : resident frame_n page_n file order s').
    { apply (resident_with_tlb _ _ _ _ s); try assumption.
      - exact (shape_initialized _ _ Hshape).
      - exact (mapped_physical _ _ _ _ Hm).
      - exact (mapped_pmt _ _ _ _ Hm).
      - exact (mapped_backing _ _ _ _ Hm).
      - exact (mapped_pagefault _ _ _ _ Hm). }
    exists order. split; [exact Hres' |]. split; [now left |].
    left. eapply Hphys; eauto.
  - destruct (resident_after_fault _ _ _ _ _ _ _ _ Hres Hp
                (shape_initialized _ _ Hshape) Hf) as [Hres' Hfr].
    exists (order ++ [p]). split; [exact Hres' |]. split; [now right |].
    left. apply (Hphys _ (length order) Hres'); [| exact Hfr].
    rewrite lookup_app_r by lia. now rewrite Nat.sub_diag.
Qed.

(** Along a run the order only grows, by pages that were translated. *)
Lemma resident_run frame_n page_n file order s history s' :
  resident frame_n page_n file order s ->
  run s history s' ->
  exists more,
    resident frame_n page_n file (order ++ more) s'
    /\ forall p, p ∈ more -> p ∈ pages_of history.
Proof.
  intros Hres Hrun.
  induction Hrun as [| history s1 logical phys s2 Hrun IH Hstep].
  - exists []. rewrite app_nil_r. split; [exact Hres |].
    intros p Hp. now apply elem_of_nil in Hp.
  - destruct IH as (more & Hres1 & Hsub).
    destruct (resident_step _ _ _ _ _ _ _ _ Hres1 Hstep)
      as (order' & Hres2 & [-> | ->] & _).
    + exists more. split; [exact Hres2 |].
      intros p Hp. unfold pages_of. simpl. apply elem_of_cons. right.
      now apply Hsub.
    + exists (more ++ [page (page_offset logical)]).
      rewrite app_assoc. split; [exact Hres2 |].
      intros p [Hp | Hp]%elem_of_app; unfold pages_of; simpl;
        apply elem_of_cons.
      * right. now apply Hsub.
      * left. now apply list_elem_of_singleton in Hp.
Qed.

Lemma resident_from_init w store file page_n page_size frame_n frame_size
    tlb_size s0 history s :
  init_mmu w store page_n page_size frame_n frame_size tlb_size = Ok s0 ->
  w_fopen w store = Some file ->
  well_configured page_n page_size frame_n frame_size tlb_size ->
  run s0 history s ->
  exists order,
    resident frame_n page_n file order s
    /\ forall p, p ∈ order -> p ∈ pages_of history.
Proof.
  intros Hinit Hopen Hcfg Hrun.
  pose proof (init_resident _ _ _ _ _ _ _ _ _ Hinit Hopen Hcfg) as Hres.
  destruct (resident_run _ _ _ _ _ _ _ Hres Hrun) as (more & Hres' & Hsub).
  exists more. auto.
Qed.

(** ** The reference run, as a run *)

Lemma reference_open :
  w_fopen (disk sample_store) main.BACKING_STORE = Some sample_store.
Proof. unfold disk, w_fopen. now rewrite String.eqb_refl. Qed.

Lemma reference_well_configured :
  well_configured main.PAGE_N main.PAGE_SIZE main.FRAME_N main.FRAME_SIZE
    main.TLB_SIZE.
Proof. repeat split; vm_compute; congruence. Qed.

Lemma run_page_1 : run reference_state [0x0100] after_page_1.
Proof.
  apply (run_step _ [] reference_state 0x0100 0);
    [constructor | exact page_1_translated].
Qed.

Lemma run_page_17 : run reference_state [0x1100; 0x0100] after_page_17.
Proof.
  apply (run_step _ [0x0100] after_page_1 0x1100 256);
    [exact run_page_1 | exact page_17_translated].
Qed.

(** ** What a translation returns *)

(** The value at an address of a resident page is the byte of the file. *)
Lemma resident_value frame_n page_n file order s i p o :
  resident frame_n page_n file order s ->
  order !! i = Some p -> 0 <= o < 256 ->
  exists b,
    file !! Z.to_nat (p * page_n + o) = Some b
    /\ mmu_getvalue (frame_n * Z.of_nat i + o) s = Ok (int8 b).
Proof.
  intros Hres Hi Ho.
  destruct (res_sizes _ _ _ _ _ Hres) as [Hpn Hfn].
  destruct (res_bytes _ _ _ _ _ Hres i p o Hi) as (b & Hm & Hf); [lia |].
  exists b. split; [exact Hf |].
  destruct (resident_rank _ _ _ _ _ _ _ Hres Hi) as (_ & Hpos & Hmax).
  unfold mmu_getvalue, physical_value.
  rewrite (res_initialized _ _ _ _ _ Hres), int32_small by lia.
  assert (Hl : load (g_physical (m_physical s)) (frame_n * Z.of_nat i + o) = Ok b)
    by (apply load_Ok; split; [lia | exact Hm]).
  now rewrite Hl.
Qed.

(** X1. The value read at the address a translation returned is the byte of the
    backing store at [page * PAGE_N + offset], as a signed byte: for every
    state of a run from a well-configured [init_mmu] and every address whose
    page is not 255. *)
Theorem translated_value_is_backing_byte
    (w : world) (store : string) (file : list Z)
    (page_n page_size frame_n frame_size tlb_size : Z)
    (s0 : mmu) (history : list Z) (s : mmu) (logical phys : Z) (s' : mmu) :
  init_mmu w store page_n page_size frame_n frame_size tlb_size = Ok s0 ->
  w_fopen w store = Some file ->
  well_configured page_n page_size frame_n frame_size tlb_size ->
  run s0 history s ->
  mmu_getphysical logical s = Ok (phys, s') ->
  page (page_offset logical) <> 255 ->
  exists b,
    file !! Z.to_nat (page (page_offset logical) * page_n
                      + offset (page_offset logical)) = Some b
    /\ mmu_getvalue phys s' = Ok (int8 b).
Proof.
  intros Hinit Hopen Hcfg Hrun Hstep Hne.
  destruct (resident_from_init _ _ _ _ _ _ _ _ _ _ _ Hinit Hopen Hcfg Hrun)
    as (order & Hres & _).
  destruct (resident_step _ _ _ _ _ _ _ _ Hres Hstep)
    as (order' & Hres' & _ & [(i & Hi & ->) | (H255 & _)]); [| contradiction].
  exact (resident_value _ _ _ _ _ _ _ _ Hres' Hi (offset_range logical)).
Qed.

Lemma translated_value_is_backing_byte_witness :
  page (page_offset 0x1100) <> 255
  /\ exists b,
       sample_store !! Z.to_nat (page (page_offset 0x1100) * main.PAGE_N
                                 + offset (page_offset 0x1100)) = Some b
       /\ mmu_getvalue 256 after_page_17 = Ok (int8 b).
Proof.
  assert (Hne : page (page_offset 0x1100) <> 255) by (vm_compute; discriminate).
  split; [exact Hne |].
  exact (translated_value_is_backing_byte _ _ _ _ _ _ _ _ _ _ _ _ _ _
           reference_init_returns reference_open reference_well_configured
           run_page_1 page_17_translated Hne).
Defined.

(** X2. A page keeps its frame: two translations of addresses of one page, at
    any two moments of a run from a well-configured [init_mmu], return
    physical addresses in the same frame (the page not being 255). *)
Theorem page_keeps_its_frame
    (w : world) (store : string) (file : list Z)
    (page_n page_size frame_n frame_size tlb_size : Z)
    (s0 : mmu) (history : list Z) (s : mmu) (a phys1 : Z) (s1 : mmu)
    (later : list Z) (s2 : mmu) (a' phys2 : Z) (s3 : mmu) :
  init_mmu w store page_n page_size frame_n frame_size tlb_size = Ok s0 ->
  w_fopen w store = Some file ->
  well_configured page_n page_size frame_n frame_size tlb_size ->
  run s0 history s ->
  mmu_getphysical a s = Ok (phys1, s1) ->
  run s1 later s2 ->
  mmu_getphysical a' s2 = Ok (phys2, s3) ->
  page (page_offset a') = page (page_offset a) ->
  page (page_offset a) <> 255 ->
  phys2 - offset (page_offset a') = phys1 - offset (page_offset a).
Proof.
  intros Hinit Hopen Hcfg Hrun H1 Hlater H2 Hsame Hne.
  destruct (resident_from_init _ _ _ _ _ _ _ _ _ _ _ Hinit Hopen Hcfg Hrun)
    as (order & Hres & _).
  destruct (resident_step _ _ _ _ _ _ _ _ Hres H1)
    as (order1 & Hres1 & _ & [(i & Hi & ->) | (H255 & _)]); [| contradiction].
  destruct (resident_run _ _ _ _ _ _ _ Hres1 Hlater) as (more & Hres2 & _).
  destruct (resident_step _ _ _ _ _ _ _ _ Hres2 H2)
    as (order3 & Hres3 & Hgrow & [(j & Hj & ->) | (H255 & _)]);
    [| congruence].
  assert (Hi3 : order3 !! i = Some (page (page_offset a'))).
  { rewrite Hsame.
    destruct Hgrow as [-> | ->]; repeat apply lookup_app_l_Some; exact Hi. }
  pose proof (NoDup_lookup _ _ _ _ (res_nodup _ _ _ _ _ Hres3) Hi3 Hj) as Hij.
  subst j. lia.
Qed.

Lemma page_keeps_its_frame_witness :
  page (page_offset 0x0142) = page (page_offset 0x0100)
  /\ page (page_offset 0x0100) <> 255
  /\ exists phys2,
       value_of (mmu_getphysical 0x0142 after_page_17) = Ok phys2
       /\ phys2 - offset (page_offset 0x0142) = 0 - offset (page_offset 0x0100).
Proof.
  assert (Hsame : page (page_offset 0x0142) = page (page_offset 0x0100))
    by (vm_compute; reflexivity).
  assert (Hne : page (page_offset 0x0100) <> 255) by (vm_compute; discriminate).
  assert (Hv : value_of (mmu_getphysical 0x0142 after_page_17) = Ok 0x42)
    by (vm_compute; reflexivity).
  split; [exact Hsame |]. split; [exact Hne |].
  exists 0x42. split; [exact Hv |].
  exact (page_keeps_its_frame _ _ _ _ _ _ _ _ _ _ _ _ _ _ _ _ _ _ _
           reference_init_returns reference_open reference_well_configured
           (run_nil reference_state) page_1_translated
           (run_step _ [] after_page_1 0x1100 256 after_page_17
              (run_nil after_page_1) page_17_translated)
           (returned _ _ Hv) Hsame Hne).
Defined.

(** X3. Every page faults at most once: along a run from a well-configured
    [init_mmu] the fault counter is at most the number of distinct pages
    translated, hence at most 256. *)
Theorem each_page_faults_at_most_once
    (w : world) (store : string) (file : list Z)
    (page_n page_size frame_n frame_size tlb_size : Z)
    (s0 : mmu) (history : list Z) (s : mmu) :
  init_mmu w store page_n page_size frame_n frame_size tlb_size = Ok s0 ->
  w_fopen w store = Some file ->
  well_configured page_n page_size frame_n frame_size tlb_size ->
  run s0 history s ->
  0 <= g_pagefault s <= Z.of_nat (length (remove_dups (pages_of history)))
  /\ g_pagefault s <= 256.
Proof.
  intros Hinit Hopen Hcfg Hrun.
  destruct (resident_from_init _ _ _ _ _ _ _ _ _ _ _ Hinit Hopen Hcfg Hrun)
    as (order & Hres & Hsub).
  rewrite (res_faults _ _ _ _ _ Hres).
  pose proof (pages_at_most_256 order (res_nodup _ _ _ _ _ Hres)
                (res_pages _ _ _ _ _ Hres)) as H256.
  assert (Hle : order ⊆+ remove_dups (pages_of history)).
  { apply NoDup_submseteq; [exact (res_nodup _ _ _ _ _ Hres) |].
    intros p Hp. apply elem_of_remove_dups. now apply Hsub. }
  apply submseteq_length in Hle. lia.
Qed.

Lemma each_page_faults_at_most_once_witness :
  0 <= g_pagefault after_page_17
       <= Z.of_nat (length (remove_dups (pages_of [0x1100; 0x0100])))
  /\ g_pagefault after_page_17 <= 256.
Proof.
  exact (each_page_faults_at_most_once _ _ _ _ _ _ _ _ _ _ _
           reference_init_returns reference_open reference_well_configured
           run_page_17).
Defined.

(** ** The counters along a run *)

Lemma run_counters s history s' :
  run s history s' ->
  g_translated s' = g_translated s + Z.of_nat (length history)
  /\ g_pagefault s <= g_pagefault s'
  /\ g_tlbhit s <= g_tlbhit s'
  /\ (g_pagefault s' - g_pagefault s) + (g_tlbhit s' - g_tlbhit s)
     <= Z.of_nat (length history).
Proof.
  induction 1 as [| history s1 logical phys s2 _ IH Hstep].
  - simpl. lia.
  - destruct IH as (Htr & Hpf & Hth & Hsum).
    apply mmu_getphysical_paths in Hstep
      as (_ & _ & Htr' & frame & _ & [Hh | [Hm | Hf]]);
      change (length (logical :: history)) with (S (length history)).
    + rewrite Htr', (hit_tlbhit _ _ _ _ Hh), (hit_pagefault _ _ _ _ Hh). lia.
    + rewrite Htr', (mapped_tlbhit _ _ _ _ Hm), (mapped_pagefault _ _ _ _ Hm).
      lia.
    + rewrite Htr', (fault_tlbhit _ _ _ _ Hf), (fault_pagefault _ _ _ _ Hf). lia.
Qed.

(** X4. After [init_mmu], whatever the configuration, the counter of
    translations is the number of translations that returned, and faults and
    hits are counted apart: their sum never exceeds it. *)
Theorem counters_count_translations
    (w : world) (store : string)
    (page_n page_size frame_n frame_size tlb_size : Z)
    (s0 : mmu) (history : list Z) (s : mmu) :
  init_mmu w store page_n page_size frame_n frame_size tlb_size = Ok s0 ->
  run s0 history s ->
  g_translated s = Z.of_nat (length history)
  /\ 0 <= g_pagefault s /\ 0 <= g_tlbhit s
  /\ g_pagefault s + g_tlbhit s <= g_translated s.
Proof.
  intros (_ & Hpf & Hth & Htr & _)%init_mmu_physical Hrun.
  apply run_counters in Hrun. lia.
Qed.

Lemma counters_count_translations_witness :
  g_translated after_page_17 = Z.of_nat (length [0x1100; 0x0100])
  /\ 0 <= g_pagefault after_page_17 /\ 0 <= g_tlbhit after_page_17
  /\ g_pagefault after_page_17 + g_tlbhit after_page_17
     <= g_translated after_page_17.
Proof.
  exact (counters_count_translations _ _ _ _ _ _ _ _ _ _
           reference_init_returns run_page_17).
Defined.

(** ** Runs that return *)

Lemma init_mmu_is_ok w store file page_n page_size frame_n frame_size tlb_size s0 :
  init_mmu w store page_n page_size frame_n frame_size tlb_size = Ok s0 ->
  w_fopen w store = Some file ->
  well_configured page_n page_size frame_n frame_size tlb_size ->
  256 * page_n <= Z.of_nat (length file) ->
  mmu_ok s0.
Proof.
  intros Hinit Hopen (Hts & Hps & Hpn & Hfit & Hcap) Hfile.
  apply init_mmu_physical in Hinit as (Hph & _ & _ & _ & Hini & Hpm & Ht & Hf).
  destruct (init_tlb_Ok _ _ Ht) as [Hsz Hslots].
  destruct (init_pmt_Ok _ _ _ _ Hpm) as (Hn & _).
  assert (Hfn : frame_n < 2 ^ 31) by lia.
  pose proof (init_pmt_length _ _ _ _ Hpm ltac:(lia)) as Hlen.
  unfold init_backingstore in Hf. rewrite Hopen in Hf.
  assert (Hbytes : f_bytes (g_backing s0) = file)
    by (inversion Hf; reflexivity).
  split.
  - exact Hini.
  - rewrite Hsz, Hslots, length_replicate. lia.
  - lia.
  - lia.
  - rewrite Hn, Hbytes. exact Hfile.
  - unfold LONG_MAX. lia.
  - rewrite Hn, Hph. apply init_physical_fits; lia.
Qed.

(** A state from which [n] more translations cannot overflow a counter. *)
Lemma translations_return logicals s :
  mmu_ok s ->
  g_pagefault s <= g_translated s -> g_tlbhit s <= g_translated s ->
  g_translated s + Z.of_nat (length logicals) <= INT_MAX ->
  exists s', translations logicals s = Ok s'.
Proof.
  revert s. induction logicals as [| logical rest IH]; intros s Hok Hpf Hth Hn.
  - simpl. eauto.
  - change (length (logical :: rest)) with (S (length rest)) in Hn.
    destruct (mmu_getphysical_returns logical s Hok)
      as (phys & s1 & Hstep & Hok1); try lia.
    simpl. rewrite Hstep. msimpl.
    pose proof (run_counters _ _ _ (run_step s [] s logical phys s1
                                      (run_nil s) Hstep)) as Hc.
    simpl in Hc. apply IH; try assumption; lia.
Qed.

(** X5. From a well-configured [init_mmu] on a backing store that holds its 256
    pages, any sequence of at most [INT_MAX] translations returns: no
    translation exits, fails an assertion or leaves the arrays, whatever
    the addresses. *)
Theorem translations_never_fail
    (w : world) (store : string) (file : list Z)
    (page_n page_size frame_n frame_size tlb_size : Z)
    (s0 : mmu) (logicals : list Z) :
  init_mmu w store page_n page_size frame_n frame_size tlb_size = Ok s0 ->
  w_fopen w store = Some file ->
  well_configured page_n page_size frame_n frame_size tlb_size ->
  256 * page_n <= Z.of_nat (length file) ->
  Z.of_nat (length logicals) <= INT_MAX ->
  exists s,
    translations logicals s0 = Ok s
    /\ g_translated s = Z.of_nat (length logicals).
Proof.
  intros Hinit Hopen Hcfg Hfile Hlen.
  pose proof (init_mmu_is_ok _ _ _ _ _ _ _ _ _ Hinit Hopen Hcfg Hfile) as Hok.
  pose proof Hinit as (_ & Hpf & Hth & Htr & _)%init_mmu_physical.
  destruct (translations_return logicals s0 Hok) as [s Hs]; try lia.
  exists s. split; [exact Hs |].
  apply translations_run in Hs. apply run_counters in Hs.
  rewrite length_reverse in Hs. lia.
Qed.

Lemma translations_never_fail_witness :
  exists s,
    translations [0x0100; 0xFF00; 0x1100; 0x0100] reference_state = Ok s
    /\ g_translated s = 4.
Proof.
  refine (translations_never_fail _ _ _ _ _ _ _ _ _ [0x0100; 0xFF00; 0x1100; 0x0100]
            reference_init_returns reference_open reference_well_configured
            _ _).
  - vm_compute. discriminate.
  - vm_compute. discriminate.
Defined.

(** ** The loop of main *)

Lemma main_loop_resident frame_n page_n file order s vmem_arr :
  resident frame_n page_n file order s -> mmu_ok s ->
  g_pagefault s <= g_translated s -> g_tlbhit s <= g_translated s ->
  g_translated s + Z.of_nat (length vmem_arr) <= INT_MAX ->
  Forall (fun logical => page (page_offset logical) <> 255) vmem_arr ->
  exists lines s',
    main_loop vmem_arr s = Ok (lines, s')
    /\ map logical_and_value lines
       = map (fun logical =>
                (int32 logical, int8 (backing_byte file page_n logical)))
           vmem_arr.
Proof.
  revert order s.
  induction vmem_arr as [| logical rest IH];
    intros order s Hres Hok Hpf Hth Hn Hall.
  - exists [], s. split; reflexivity.
  - change (length (logical :: rest)) with (S (length rest)) in Hn.
    apply Forall_cons in Hall as [Hne Hrest].
    destruct (mmu_getphysical_returns logical s Hok)
      as (phys & s1 & Hstep & Hok1); try lia.
    pose proof (run_counters _ _ _ (run_step s [] s logical phys s1
                                      (run_nil s) Hstep)) as Hc.
    simpl in Hc.
    destruct (resident_step _ _ _ _ _ _ _ _ Hres Hstep)
      as (order1 & Hres1 & _ & [(i & Hi & Hphys) | (H255 & _)]);
      [| contradiction].
    destruct (resident_value _ _ _ _ _ _ _ _ Hres1 Hi (offset_range logical))
      as (b & Hb & Hv).
    rewrite <- Hphys in Hv.
    destruct (IH order1 s1 Hres1 Hok1) as (lines & s2 & Hloop & Hlines);
      try assumption; try lia.
    exists ((int32 logical, int32 phys, int8 b) :: lines), s2. split.
    + simpl. rewrite Hstep. msimpl. rewrite Hv. msimpl. rewrite Hloop.
      reflexivity.
    + simpl. rewrite Hlines. f_equal. unfold logical_and_value, backing_byte.
      simpl. f_equal. f_equal. symmetry. now apply nth_lookup_Some.
Qed.

(** X6. From a well-configured [init_mmu] on a backing store that holds its 256
    pages, the loop of [main] over addresses outside page 255 returns, with
    one line per address. The line of an address shows the address as [%d]
    prints a [uint32_t], that is as the [int] of the same bits (the address
    itself when it is below [2 ^ 31]), and the value it shows is the byte of
    the backing store at [page * PAGE_N + offset], as a signed byte. *)
Theorem main_loop_prints_backing_bytes
    (w : world) (store : string) (file : list Z)
    (page_n page_size frame_n frame_size tlb_size : Z)
    (s0 : mmu) (vmem_arr : list Z) :
  init_mmu w store page_n page_size frame_n frame_size tlb_size = Ok s0 ->
  w_fopen w store = Some file ->
  well_configured page_n page_size frame_n frame_size tlb_size ->
  256 * page_n <= Z.of_nat (length file) ->
  Z.of_nat (length vmem_arr) <= INT_MAX ->
  Forall (fun logical => page (page_offset logical) <> 255) vmem_arr ->
  exists lines s,
    main_loop vmem_arr s0 = Ok (lines, s)
    /\ map logical_and_value lines
       = map (fun logical =>
                (int32 logical, int8 (backing_byte file page_n logical)))
           vmem_arr
    /\ (Forall (fun logical => 0 <= logical < 2 ^ 31) vmem_arr ->
        map logical_and_value lines
        = map (fun logical => (logical, int8 (backing_byte file page_n logical)))
            vmem_arr).
Proof.
  intros Hinit Hopen Hcfg Hfile Hlen Hall.
  pose proof (init_mmu_is_ok _ _ _ _ _ _ _ _ _ Hinit Hopen Hcfg Hfile) as Hok.
  pose proof (init_resident _ _ _ _ _ _ _ _ _ Hinit Hopen Hcfg) as Hres.
  pose proof Hinit as (_ & Hpf & Hth & Htr & _)%init_mmu_physical.
  destruct (main_loop_resident _ _ _ _ _ vmem_arr Hres Hok)
    as (lines & s & Hloop & Hlines); try assumption; try lia.
  exists lines, s. split; [exact Hloop |]. split; [exact Hlines |].
  intros Hsmall. rewrite Hlines. apply map_ext_in.
  intros logical Hin. rewrite Forall_forall in Hsmall.
  rewrite int32_small; [reflexivity |]. apply Hsmall.
  now apply list_elem_of_In.
Qed.

Lemma main_loop_prints_backing_bytes_witness :
  exists lines s,
    main_loop [0x0100; 0x1100; 0x80000142] reference_state = Ok (lines, s)
    /\ map logical_and_value lines
       = [(0x0100, 42); (0x1100, 58); (0x0142 - 2 ^ 31, 42)].
Proof.
  assert (Hbytes :
    map (fun logical =>
           (int32 logical, int8 (backing_byte sample_store main.PAGE_N logical)))
      [0x0100; 0x1100; 0x80000142]
    = [(0x0100, 42); (0x1100, 58); (0x0142 - 2 ^ 31, 42)])
    by (vm_compute; reflexivity).
  rewrite <- Hbytes.
  assert (Hfile : 256 * main.PAGE_N <= Z.of_nat (length sample_store))
    by (vm_compute; discriminate).
  assert (Hlen : Z.of_nat (length [0x0100; 0x1100; 0x80000142]) <= INT_MAX)
    by (vm_compute; discriminate).
  assert (Hall : Forall (fun logical => page (page_offset logical) <> 255)
                   [0x0100; 0x1100; 0x80000142]).
  { repeat (apply Forall_cons; split; [vm_compute; discriminate |]).
    apply Forall_nil_2. }
  destruct (main_loop_prints_backing_bytes _ _ _ _ _ _ _ _ _
              [0x0100; 0x1100; 0x80000142]
              reference_init_returns reference_open reference_well_configured
              Hfile Hlen Hall) as (lines & s & Hloop & Hlines & _).
  exact (ex_intro _ lines (ex_intro _ s (conj Hloop Hlines))).
Defined.

(** ** The first translation of page 255 *)

Lemma int32_uint32 z : int32 (uint32 z) = int32 z.
Proof.
  unfold int32, uint32.
  rewrite Zplus_mod_idemp_l. reflexivity.
Qed.

Lemma int32_signed z : - 2 ^ 31 <= z < 2 ^ 31 -> int32 z = z.
Proof. intros H. unfold int32. rewrite Z.mod_small by lia. lia. Qed.

(** X7. Right after [init_mmu], whatever the sizes (with at least one slot), the
    translation of an address of page 255 is answered by the initial content
    of its slot: it counts a hit and no fault, leaves the page table and the
    memory alone, and returns the address [offset - 1] in 32 bits. The value
    then read is the byte before the offset in the untouched memory, and
    with offset 0 the read is at index [-1], outside the memory. *)
Theorem page_255_first_touch_reads_before_offset
    (w : world) (store : string)
    (page_n page_size frame_n frame_size tlb_size : Z)
    (s0 : mmu) (logical : Z) :
  init_mmu w store page_n page_size frame_n frame_size tlb_size = Ok s0 ->
  0 < tlb_size ->
  page (page_offset logical) = 255 ->
  exists s',
    mmu_getphysical logical s0
    = Ok (uint32 (offset (page_offset logical) - 1), s')
    /\ g_tlbhit s' = 1 /\ g_pagefault s' = 0
    /\ m_pmt s' = m_pmt s0 /\ m_physical s' = m_physical s0
    /\ mmu_getvalue (uint32 (offset (page_offset logical) - 1)) s'
       = (do v <- load (g_physical (init_physical w frame_n frame_size))
                    (offset (page_offset logical) - 1);
          Ok (int8 v))
    /\ (offset (page_offset logical) = 0 ->
        mmu_getvalue (uint32 (offset (page_offset logical) - 1)) s' = Undef).
Proof.
  intros Hinit Hts Hp.
  apply init_mmu_physical in Hinit as (Hph & Hpf & Hth & Htr & Hini & _ & Ht & _).
  pose proof (offset_range logical) as Ho.
  set (o := offset (page_offset logical)) in *.
  assert (Hsearch : tlb_search (page (page_offset logical)) (m_tlb s0)
                    = Ok TLB_HIT)
    by (rewrite (init_tlb_search _ _ _ Ht Hts), Hp; reflexivity).
  assert (Hget : tlb_get (page (page_offset logical)) (m_tlb s0)
                 = Ok (2 ^ 32 - 1))
    by (rewrite tlb_get_slot, (init_tlb_slot _ _ _ Ht Hts), Hp; reflexivity).
  exists (set_g_tlbhit 1 (set_g_translated 1 s0)).
  assert (Hvalue :
    mmu_getvalue (uint32 (o - 1)) (set_g_tlbhit 1 (set_g_translated 1 s0))
    = (do v <- load (g_physical (init_physical w frame_n frame_size)) (o - 1);
       Ok (int8 v))).
  { unfold mmu_getvalue, physical_value. msimpl.
    rewrite Hini, Hph, int32_uint32, int32_signed by lia. reflexivity. }
  split; [| repeat split; try assumption].
  - unfold mmu_getphysical. rewrite Hini, Htr. rewrite incr_lt by (vm_compute; reflexivity).
    msimpl. rewrite mmu_findframe_hit by exact Hsearch. msimpl.
    rewrite Hth, incr_lt by (vm_compute; reflexivity). msimpl.
    rewrite Hget. msimpl. fold o. do 2 f_equal.
    unfold uint32. replace (2 ^ 32 - 1 + o) with (o - 1 + 1 * 2 ^ 32) by lia.
    apply Z.mod_add. lia.
  - intros Hz. rewrite Hvalue, Hz. reflexivity.
Qed.

Lemma page_255_first_touch_reads_before_offset_witness :
  page (page_offset 0xFF00) = 255
  /\ exists s',
       mmu_getphysical 0xFF00 reference_state = Ok (2 ^ 32 - 1, s')
       /\ g_tlbhit s' = 1 /\ g_pagefault s' = 0
       /\ mmu_getvalue (2 ^ 32 - 1) s' = Undef.
Proof.
  assert (Hp : page (page_offset 0xFF00) = 255) by (vm_compute; reflexivity).
  split; [exact Hp |].
  destruct (page_255_first_touch_reads_before_offset _ _ _ _ _ _ _ _ 0xFF00
              reference_init_returns ltac:(vm_compute; reflexivity) Hp)
    as (s' & Hstep & Hhit & Hfault & _ & _ & _ & Hundef).
  exists s'. exact (conj Hstep (conj Hhit (conj Hfault (Hundef eq_refl)))).
Defined.

Lemma first_touch_faults_witness :
  (page (page_offset 0x1100) ∉ pages_of [0x0100])
  /\ page (page_offset 0x1100) < main.PAGE_SIZE
  /\ page (page_offset 0x1100) <> 255
  /\ tlb_search (page (page_offset 0x1100)) (m_tlb after_page_1) = Ok TLB_MISS
  /\ pmt_search (page (page_offset 0x1100)) (m_pmt after_page_1) = Ok PAGE_FAULT
  /\ g_pagefault after_page_17 = g_pagefault after_page_1 + 1
  /\ g_tlbhit after_page_17 = g_tlbhit after_page_1.
Proof.
  assert (H1 : page (page_offset 0x1100) ∉ pages_of [0x0100]).
  { intros Hin. apply list_elem_of_singleton in Hin. vm_compute in Hin.
    discriminate. }
  assert (H2 : page (page_offset 0x1100) < main.PAGE_SIZE)
    by (vm_compute; reflexivity).
  assert (H3 : page (page_offset 0x1100) <> 255) by (vm_compute; discriminate).
  destruct (first_touch_faults _ _ _ _ _ _ _ _ _ _ 0x1100
              reference_init_returns ltac:(vm_compute; reflexivity)
              run_page_1 H1 H2 H3) as (Hmiss & Hfault & Hcount).
  destruct (Hcount _ _ page_17_translated) as [Hpf Hth].
  exact (conj H1 (conj H2 (conj H3 (conj Hmiss (conj Hfault (conj Hpf Hth)))))).
Defined.

(** ** The lookaside buffer as a direct-mapped cache *)

(** X9. After [tlb_insert] of a page with a frame: the lookup of that page is a
    hit with that frame; any other page of the same slot misses, and
    [tlb_get] answers it [0xFFFFFFFF]; the pages of the other slots are
    answered as before. *)
Theorem tlb_insert_then_lookup
    (page frame : Z) (t t' : tlb) :
  tlb_insert page frame t = Ok t' ->
  tlb_search page t' = Ok TLB_HIT
  /\ tlb_get page t' = Ok frame
  /\ (forall q, q <> page -> q mod TLB_SIZE t = page mod TLB_SIZE t ->
                tlb_search q t' = Ok TLB_MISS
                /\ tlb_get q t' = Ok (2 ^ 32 - 1))
  /\ (forall q, q mod TLB_SIZE t <> page mod TLB_SIZE t ->
                tlb_search q t' = tlb_search q t
                /\ tlb_get q t' = tlb_get q t).
Proof.
  intros Hins. pose proof (tlb_insert_slot _ _ _ _ Hins) as Hslot.
  split; [| split; [| split]].
  - rewrite tlb_search_slot, Hslot. simpl. now rewrite Z.eqb_refl.
  - rewrite tlb_get_slot, Hslot. simpl. now rewrite Z.eqb_refl.
  - intros q Hne Hhash.
    assert (Hq : tlb_slot q t' = Ok {| tlb_page := page; tlb_frame := frame |}).
    { rewrite <- Hslot. apply tlb_slot_congruent.
      now rewrite (tlb_insert_size _ _ _ _ Hins). }
    rewrite tlb_search_slot, tlb_get_slot, Hq. simpl.
    destruct (Z.eqb_spec page q) as [Heq | _]; [congruence |].
    split; reflexivity.
  - intros q Hhash.
    rewrite !tlb_search_slot, !tlb_get_slot,
      (tlb_insert_other_slot _ _ _ _ q Hins Hhash).
    split; reflexivity.
Qed.

Lemma tlb_insert_then_lookup_witness :
  bind (init_tlb 16) (tlb_insert 17 0x1100)
  = Ok (state_of_tlb (bind (init_tlb 16) (tlb_insert 17 0x1100)))
  /\ tlb_get 17 (state_of_tlb (bind (init_tlb 16) (tlb_insert 17 0x1100)))
     = Ok 0x1100
  /\ tlb_search 1 (state_of_tlb (bind (init_tlb 16) (tlb_insert 17 0x1100)))
     = Ok TLB_MISS.
Proof.
  assert (H0 : init_tlb 16 = Ok (state_of_tlb (init_tlb 16))) by reflexivity.
  assert (H : tlb_insert 17 0x1100 (state_of_tlb (init_tlb 16))
              = Ok (state_of_tlb (bind (init_tlb 16) (tlb_insert 17 0x1100))))
    by reflexivity.
  destruct (tlb_insert_then_lookup _ _ _ _ H) as (_ & Hget & Hsame & _).
  destruct (Hsame 1 ltac:(discriminate) eq_refl) as [Hmiss _].
  split; [reflexivity |]. exact (conj Hget Hmiss).
Defined.

(** X10. A fresh buffer of any positive number of slots: the lookup of a page is
    a hit exactly when the page is 255, and [tlb_get] answers every page
    [0xFFFFFFFF]. *)
Theorem fresh_tlb_hits_only_page_255 (size : Z) (t : tlb) (page : Z) :
  init_tlb size = Ok t -> 0 < size ->
  (tlb_search page t = Ok TLB_HIT <-> page = 255)
  /\ (tlb_search page t = Ok TLB_MISS <-> page <> 255)
  /\ tlb_get page t = Ok (2 ^ 32 - 1).
Proof.
  intros Hinit Hpos.
  rewrite (init_tlb_search _ _ page Hinit Hpos), tlb_get_slot,
    (init_tlb_slot _ _ page Hinit Hpos).
  cbn [bind tlb_page tlb_frame].
  destruct (Z.eqb_spec 255 page) as [Heq | Hne].
  - split; [| split]; [split; congruence | split | reflexivity].
    + discriminate.
    + congruence.
  - split; [| split]; [split | split; congruence | reflexivity].
    + discriminate.
    + congruence.
Qed.

Lemma fresh_tlb_hits_only_page_255_witness :
  init_tlb 16 = Ok (state_of_tlb (init_tlb 16))
  /\ 0 < 16
  /\ (tlb_search 7 (state_of_tlb (init_tlb 16)) = Ok TLB_MISS <-> 7 <> 255)
  /\ tlb_get 7 (state_of_tlb (init_tlb 16)) = Ok (2 ^ 32 - 1).
Proof.
  assert (H0 : init_tlb 16 = Ok (state_of_tlb (init_tlb 16))) by reflexivity.
  assert (H1 : 0 < 16) by lia.
  destruct (fresh_tlb_hits_only_page_255 16 _ 7 H0 H1) as (_ & Hmiss & Hget).
  exact (conj H0 (conj H1 (conj Hmiss Hget))).
Defined.

(** X11. The slot count is the only guard of the buffer: with as many slots as
    [TLB_SIZE] says, a lookup or an insertion for a page number returns when
    there is at least one slot, and with no slot at all the hash divides by
    zero. *)
Theorem tlb_operations_return_unless_no_slot (t : tlb) (page frame : Z) :
  Z.of_nat (length (g_tlb t)) = TLB_SIZE t ->
  0 <= page < 256 ->
  (0 < TLB_SIZE t ->
   exists r f t',
     tlb_search page t = Ok r /\ tlb_get page t = Ok f
     /\ tlb_insert page frame t = Ok t'
     /\ Z.of_nat (length (g_tlb t')) = TLB_SIZE t'
     /\ TLB_SIZE t' = TLB_SIZE t)
  /\ (TLB_SIZE t = 0 ->
      tlb_search page t = Undef /\ tlb_get page t = Undef
      /\ tlb_insert page frame t = Undef).
Proof.
  intros Hlen Hpage. unfold tlb_search, tlb_get, tlb_insert, hashCode. split.
  - intros Hpos. destruct (Z.eqb_spec (TLB_SIZE t) 0) as [Hz | _]; [lia |].
    pose proof (Z.mod_pos_bound page (TLB_SIZE t) Hpos) as Hh.
    destruct (load_in_bounds (g_tlb t) (page mod TLB_SIZE t)) as [e He];
      [lia |].
    cbn [bind]. rewrite He. cbn [bind].
    assert (Hst : store (g_tlb t) (page mod TLB_SIZE t)
                    {| tlb_page := page; tlb_frame := frame |}
                  = Ok (<[Z.to_nat (page mod TLB_SIZE t) :=
                          {| tlb_page := page; tlb_frame := frame |}]> (g_tlb t)))
      by (apply store_Ok; split; [lia | reflexivity]).
    rewrite Hst. cbn [bind]. eexists _, _, _.
    split; [reflexivity |]. split; [reflexivity |]. split; [reflexivity |].
    cbn [g_tlb TLB_SIZE]. rewrite length_insert. split; [exact Hlen | reflexivity].
  - intros Hz. rewrite Hz. repeat split.
Qed.

Lemma tlb_operations_return_unless_no_slot_witness :
  Z.of_nat (length (g_tlb (state_of_tlb (init_tlb 16))))
  = TLB_SIZE (state_of_tlb (init_tlb 16))
  /\ 0 <= 17 < 256
  /\ 0 < TLB_SIZE (state_of_tlb (init_tlb 16))
  /\ exists t', tlb_insert 17 0x1100 (state_of_tlb (init_tlb 16)) = Ok t'.
Proof.
  assert (Hlen : Z.of_nat (length (g_tlb (state_of_tlb (init_tlb 16))))
                 = TLB_SIZE (state_of_tlb (init_tlb 16))) by reflexivity.
  assert (Hpage : 0 <= 17 < 256) by lia.
  assert (Hpos : 0 < TLB_SIZE (state_of_tlb (init_tlb 16))) by reflexivity.
  destruct (tlb_operations_return_unless_no_slot _ 17 0x1100 Hlen Hpage)
    as [Hsome _].
  destruct (Hsome Hpos) as (r & f & t' & _ & _ & Hins & _).
  exact (conj Hlen (conj Hpage (conj Hpos (ex_intro _ t' Hins)))).
Defined.

(** ** The page table as an array *)

Lemma load_negative {A : Type} (a : list A) (i : Z) : i < 0 -> load a i = Undef.
Proof.
  intros H. unfold load. destruct (Z.leb_spec 0 i) as [Hle | _]; [lia | done].
Qed.

Lemma load_past {A : Type} (a : list A) (i : Z) :
  Z.of_nat (length a) <= i -> load a i = Undef.
Proof.
  intros H. unfold load. destruct (Z.leb_spec 0 i) as [_ | Hneg]; [| done].
  rewrite lookup_ge_None_2 by lia. reflexivity.
Qed.

Lemma store_outside {A : Type} (a : list A) (i : Z) (x : A) :
  i < 0 \/ Z.of_nat (length a) <= i -> store a i x = Undef.
Proof.
  intros H. unfold store.
  destruct (Z.leb_spec 0 i) as [Hle | Hneg];
    destruct (Z.ltb_spec i (Z.of_nat (length a))) as [Hlt | Hge];
    simpl; try reflexivity; lia.
Qed.

(** X12. After [pmt_insert] of a page with a 32-bit frame: [pmt_get] gives the
    frame back; [pmt_search] answers [PAGE_SUCCESS], except for the frame
    [0xFFFFFFFF], which leaves the page unmapped; every other page is
    answered as before. *)
Theorem pmt_insert_then_lookup (page frame : Z) (pm pm' : pmt) :
  pmt_insert page frame pm = Ok pm' ->
  0 <= frame < 2 ^ 32 ->
  pmt_get page pm' = Ok frame
  /\ pmt_search page pm'
     = Ok (if frame =? 2 ^ 32 - 1 then PAGE_FAULT else PAGE_SUCCESS)
  /\ (forall q, q <> page ->
                pmt_search q pm' = pmt_search q pm
                /\ pmt_get q pm' = pmt_get q pm).
Proof.
  intros Hins Hf. split; [| split].
  - rewrite (pmt_insert_get _ _ _ _ Hins). f_equal. now apply uint32_small.
  - unfold pmt_search. rewrite (pmt_insert_load _ _ _ _ Hins). simpl. f_equal.
    pose proof (int32_minus_one frame Hf) as Hiff.
    destruct (Z.eqb_spec (int32 frame) (-1)) as [H1 | H1];
      destruct (Z.eqb_spec frame (2 ^ 32 - 1)) as [H2 | H2];
      try reflexivity; tauto.
  - intros q Hne. unfold pmt_search, pmt_get.
    destruct (Z.lt_ge_cases q 0) as [Hneg | Hpos].
    + rewrite !load_negative by exact Hneg. split; reflexivity.
    + rewrite (pmt_insert_other _ _ _ _ q Hins Hpos) by congruence.
      split; reflexivity.
Qed.

Lemma pmt_insert_then_lookup_witness :
  0 <= 0x300 < 2 ^ 32
  /\ pmt_get 3 (state_of_pmt (bind (init_pmt zero_world 8 8) (pmt_insert 3 0x300)))
     = Ok 0x300
  /\ pmt_search 3
       (state_of_pmt (bind (init_pmt zero_world 8 8) (pmt_insert 3 0x300)))
     = Ok PAGE_SUCCESS.
Proof.
  assert (Hf : 0 <= 0x300 < 2 ^ 32) by lia.
  assert (H : pmt_insert 3 0x300 (state_of_pmt (init_pmt zero_world 8 8))
              = Ok (state_of_pmt
                      (bind (init_pmt zero_world 8 8) (pmt_insert 3 0x300))))
    by reflexivity.
  destruct (pmt_insert_then_lookup _ _ _ _ H Hf) as (Hget & Hsearch & _).
  exact (conj Hf (conj Hget Hsearch)).
Defined.

(** X13. The page table is indexed without a bounds check: after [init_pmt]
    with [entries] entries, a lookup or an insertion for a page number (a
    byte) that is not below [entries] leaves the array, and one below it
    does not. *)
Theorem page_table_has_no_bounds_check
    (w : world) (entries size : Z) (pm : pmt) (page : Z) :
  init_pmt w entries size = Ok pm ->
  0 <= entries < 2 ^ 62 ->
  0 <= page < 256 ->
  (entries <= page ->
   pmt_search page pm = Undef /\ pmt_get page pm = Undef
   /\ forall frame, pmt_insert page frame pm = Undef)
  /\ (page < entries ->
      exists r frame,
        pmt_search page pm = Ok r /\ pmt_get page pm = Ok frame
        /\ forall frame', exists pm', pmt_insert page frame' pm = Ok pm').
Proof.
  intros Hinit He Hpage.
  pose proof (init_pmt_length _ _ _ _ Hinit He) as Hlen.
  split.
  - intros Hpast. unfold pmt_search, pmt_get, pmt_insert.
    rewrite load_past by lia. repeat split.
    intros frame. rewrite store_outside by lia. reflexivity.
  - intros Hin. unfold pmt_search, pmt_get, pmt_insert.
    destruct (load_in_bounds (g_pmt pm) page) as [e Hl]; [lia |].
    rewrite Hl. simpl. eexists _, _. split; [reflexivity |].
    split; [reflexivity |]. intros frame'.
    assert (Hst : store (g_pmt pm) page (int32 frame')
                  = Ok (<[Z.to_nat page := int32 frame']> (g_pmt pm)))
      by (apply store_Ok; split; [lia | reflexivity]).
    rewrite Hst. simpl. eauto.
Qed.

Lemma page_table_has_no_bounds_check_witness :
  init_pmt zero_world 128 128 = Ok (state_of_pmt (init_pmt zero_world 128 128))
  /\ 0 <= 128 < 2 ^ 62
  /\ 0 <= 200 < 256
  /\ pmt_search 200 (state_of_pmt (init_pmt zero_world 128 128)) = Undef.
Proof.
  assert (H0 : init_pmt zero_world 128 128
               = Ok (state_of_pmt (init_pmt zero_world 128 128)))
    by (vm_compute; reflexivity).
  assert (He : 0 <= 128 < 2 ^ 62) by lia.
  assert (Hpage : 0 <= 200 < 256) by lia.
  destruct (page_table_has_no_bounds_check _ _ _ _ 200 H0 He Hpage)
    as [Hpast _].
  assert (H200 : 128 <= 200) by lia.
  destruct (Hpast H200) as (Hsearch & _).
  exact (conj H0 (conj He (conj Hpage Hsearch))).
Defined.

(** X14. [init_pmt] sets exactly the first [size] entries: the table has
    [entries] entries, the pages below [size] are unmapped, and an entry
    from [size] on holds what the fresh block held. *)
Theorem init_pmt_sets_the_first_size_entries
    (w : world) (entries size : Z) (pm : pmt) :
  init_pmt w entries size = Ok pm ->
  0 <= entries < 2 ^ 62 -> 0 <= size ->
  Z.of_nat (length (g_pmt pm)) = entries
  /\ size <= entries
  /\ (forall page, 0 <= page < size -> pmt_search page pm = Ok PAGE_FAULT)
  /\ (forall page, size <= page < entries ->
        pmt_get page pm = Ok (uint32 (w_words w (Z.to_nat page)))
        /\ pmt_search page pm
           = Ok (if int32 (w_words w (Z.to_nat page)) =? -1
                 then PAGE_FAULT else PAGE_SUCCESS)).
Proof.
  intros Hinit He Hs. split; [| split; [| split]].
  - exact (init_pmt_length _ _ _ _ Hinit He).
  - destruct (init_pmt_Ok _ _ _ _ Hinit) as (_ & _ & _ & Hle).
    now rewrite words_of_block in Hle.
  - intros page Hp. exact (init_pmt_search _ _ _ _ page Hinit Hp).
  - intros page Hp. unfold pmt_get, pmt_search.
    rewrite (init_pmt_untouched _ _ _ _ page Hinit) by lia. simpl.
    split; [| reflexivity]. f_equal. apply uint32_int32.
Qed.

Lemma init_pmt_sets_the_first_size_entries_witness :
  init_pmt zero_world 8 4 = Ok (state_of_pmt (init_pmt zero_world 8 4))
  /\ 0 <= 8 < 2 ^ 62 /\ 0 <= 4
  /\ pmt_search 3 (state_of_pmt (init_pmt zero_world 8 4)) = Ok PAGE_FAULT
  /\ pmt_get 5 (state_of_pmt (init_pmt zero_world 8 4)) = Ok 0.
Proof.
  assert (H0 : init_pmt zero_world 8 4
               = Ok (state_of_pmt (init_pmt zero_world 8 4))) by reflexivity.
  assert (He : 0 <= 8 < 2 ^ 62) by lia.
  assert (Hs : 0 <= 4) by lia.
  destruct (init_pmt_sets_the_first_size_entries _ _ _ _ H0 He Hs)
    as (_ & _ & Hlow & Hhigh).
  assert (H3 : 0 <= 3 < 4) by lia.
  assert (H5 : 4 <= 5 < 8) by lia.
  exact (conj H0 (conj He (conj Hs (conj (Hlow 3 H3) (proj1 (Hhigh 5 H5)))))).
Defined.

(** X15. With more pages to initialise than entries, the loop of [init_pmt]
    writes past the block. *)
Theorem init_pmt_overruns_the_block (w : world) (entries size : Z) :
  0 <= entries < 2 ^ 62 -> entries < size ->
  init_pmt w entries size = Undef.
Proof.
  intros He Hlt. unfold init_pmt.
  rewrite malloc_words_length, words_of_block by exact He.
  destruct (Z.leb_spec size (Z.of_nat (Z.to_nat entries))) as [Hle | _];
    [lia | reflexivity].
Qed.

Lemma init_pmt_overruns_the_block_witness :
  0 <= 128 < 2 ^ 62 /\ 128 < 256 /\ init_pmt zero_world 128 256 = Undef.
Proof.
  assert (He : 0 <= 128 < 2 ^ 62) by lia.
  assert (Hlt : 128 < 256) by lia.
  exact (conj He (conj Hlt (init_pmt_overruns_the_block zero_world 128 256 He Hlt))).
Defined.

(** ** The backing store, the physical memory and the split, on their own *)

(** X16. While the place sought fits a [long], [backingstore_get] either returns
    the whole block number [offset] of the file, byte for byte, and leaves
    the stream just behind it, or, when the file has no whole block there or
    the block size is not positive, ends the program. *)
Theorem backingstore_get_block_or_exit (offset page_n : Z) (f : FILE) :
  0 <= offset * page_n <= LONG_MAX ->
  (0 < page_n /\ offset * page_n + page_n <= Z.of_nat (length (f_bytes f)) ->
   exists data f',
     backingstore_get offset page_n f = Ok (data, f')
     /\ Z.of_nat (length data) = page_n
     /\ (forall o : nat, Z.of_nat o < page_n ->
           data !! o = f_bytes f !! (Z.to_nat (offset * page_n) + o)%nat)
     /\ f_bytes f' = f_bytes f
     /\ f_pos f' = offset * page_n + page_n)
  /\ (page_n <= 0 \/ Z.of_nat (length (f_bytes f)) < offset * page_n + page_n ->
      backingstore_get offset page_n f = Exit).
Proof.
  intros Hloc. rewrite (backingstore_get_spec _ _ _ Hloc). split.
  - intros [Hpos Hfit].
    destruct (Z.ltb_spec 0 page_n) as [_ | Hle]; [| lia].
    destruct (Z.leb_spec (offset * page_n + page_n)
                (Z.of_nat (length (f_bytes f)))) as [_ | Hgt]; [| lia].
    simpl. eexists _, _. split; [reflexivity |]. simpl.
    split; [rewrite length_take, length_drop; lia |].
    split; [| split; reflexivity].
    intros o Ho. rewrite lookup_take_lt by lia. apply lookup_drop.
  - intros [Hle | Hgt].
    + destruct (Z.ltb_spec 0 page_n) as [Hpos | _]; [lia | reflexivity].
    + destruct (Z.leb_spec (offset * page_n + page_n)
                  (Z.of_nat (length (f_bytes f)))) as [Hfit | _]; [lia |].
      now rewrite andb_false_r.
Qed.

Lemma backingstore_get_block_or_exit_witness :
  0 <= 1 * 4 <= LONG_MAX
  /\ (exists data f',
        backingstore_get 1 4 {| f_bytes := [10; 11; 12; 13; 14; 15; 16; 17; 18];
                                f_pos := 0 |} = Ok (data, f')
        /\ data !! 2%nat = Some 16 /\ f_pos f' = 8).
Proof.
  assert (Hloc : 0 <= 1 * 4 <= LONG_MAX) by (unfold LONG_MAX; lia).
  split; [exact Hloc |].
  destruct (backingstore_get_block_or_exit 1 4
              {| f_bytes := [10; 11; 12; 13; 14; 15; 16; 17; 18]; f_pos := 0 |}
              Hloc) as [Hblock _].
  destruct Hblock as (data & f' & Hget & _ & Hbytes & _ & Hpos);
    [simpl; lia |].
  exists data, f'. split; [exact Hget |]. split; [| exact Hpos].
  rewrite (Hbytes 2%nat) by lia. reflexivity.
Defined.

(** X17. An allocation that returns wrote the block at the place of the next
    frame and nowhere else. *)
Theorem physical_insert_writes_one_block
    (addr : list Z) (size : Z) (ph ph' : physical) :
  physical_insert addr size ph = Ok ph' ->
  length (g_physical ph') = length (g_physical ph)
  /\ (forall o : nat, Z.of_nat o < size ->
        g_physical ph'
          !! (Z.to_nat (size_t (FRAME_N ph * uint8 (g_physical_index ph + 1))) + o)%nat
        = addr !! o)
  /\ (forall j : nat,
        Z.of_nat j < size_t (FRAME_N ph * uint8 (g_physical_index ph + 1))
        \/ size_t (FRAME_N ph * uint8 (g_physical_index ph + 1)) + size
           <= Z.of_nat j ->
        g_physical ph' !! j = g_physical ph !! j).
Proof.
  intros (mem & Hm & ->)%physical_insert_Ok. simpl. split; [| split].
  - eapply memcpy_length; eauto.
  - intros o Ho. eapply memcpy_lookup_written; eauto.
  - intros j [Hj | Hj].
    + eapply memcpy_lookup_before; eauto.
    + eapply memcpy_lookup_after; eauto.
Qed.

Lemma physical_insert_writes_one_block_witness :
  physical_insert [1; 2; 3; 4] 4 (init_physical zero_world 4 4)
  = Ok (state_of_physical
          (physical_insert [1; 2; 3; 4] 4 (init_physical zero_world 4 4)))
  /\ g_physical
       (state_of_physical
          (physical_insert [1; 2; 3; 4] 4 (init_physical zero_world 4 4)))
       !! 2%nat = Some 3.
Proof.
  assert (H : physical_insert [1; 2; 3; 4] 4 (init_physical zero_world 4 4)
              = Ok (state_of_physical
                      (physical_insert [1; 2; 3; 4] 4
                         (init_physical zero_world 4 4)))) by reflexivity.
  destruct (physical_insert_writes_one_block _ _ _ _ H) as (_ & Hw & _).
  assert (H2 : Z.of_nat 2 < 4) by lia.
  exact (conj H (Hw 2%nat H2)).
Defined.

(** X18. [physical_insert] returns exactly when the block fits: the size is not
    negative, the source holds that many bytes, and the place of the next
    frame leaves room for them in the memory. Otherwise the copy leaves one
    of the two arrays. *)
Theorem physical_insert_returns_iff_block_fits
    (addr : list Z) (size : Z) (ph : physical) :
  ((exists ph', physical_insert addr size ph = Ok ph') <->
   0 <= size <= Z.of_nat (length addr)
   /\ size_t (FRAME_N ph * uint8 (g_physical_index ph + 1)) + size
      <= Z.of_nat (length (g_physical ph)))
  /\ ((forall ph', physical_insert addr size ph <> Ok ph') ->
      physical_insert addr size ph = Undef).
Proof.
  assert (Hidx : 0 <= size_t (FRAME_N ph * uint8 (g_physical_index ph + 1)))
    by (unfold size_t; apply Z.mod_pos_bound; lia).
  split; [split |].
  - intros (ph' & (mem & [Hc _]%memcpy_Ok & _)%physical_insert_Ok). lia.
  - intros [Hs Hfit]. eexists. apply physical_insert_Ok.
    eexists. split; [| reflexivity]. apply memcpy_Ok. split; [lia | reflexivity].
  - intros Hno. unfold physical_insert in *.
    destruct (memcpy _ _ _ _) as [mem | | |] eqn:Hm; simpl in *;
      try reflexivity.
    + exfalso. eapply Hno. reflexivity.
    + unfold memcpy in Hm. destruct (_ && _); discriminate.
    + unfold memcpy in Hm. destruct (_ && _); discriminate.
Qed.

(** X19. The split of a logical address loses nothing of its low 16 bits: page
    and offset are bytes and [page * 256 + offset] is the address modulo
    [2 ^ 16]. *)
Theorem page_offset_recomposes (addr : Z) :
  0 <= page (page_offset addr) < 256
  /\ 0 <= offset (page_offset addr) < 256
  /\ page (page_offset addr) * 256 + offset (page_offset addr)
     = addr mod 2 ^ 16.
Proof.
  split; [apply page_range |]. split; [apply offset_range |].
  rewrite page_offset_page, page_offset_offset.
  change (2 ^ 16) with (2 ^ 8 * 2 ^ 8).
  rewrite Z.rem_mul_r by lia. change (2 ^ 8) with 256. lia.
Qed.

(** ** The unit as a whole, in any configuration *)

(** X20. When the backing store cannot be opened [init_mmu] ends the program,
    whatever the sizes. *)
Theorem init_mmu_without_store_exits
    (w : world) (store : string)
    (page_n page_size frame_n frame_size tlb_size : Z) :
  w_fopen w store = None ->
  init_mmu w store page_n page_size frame_n frame_size tlb_size = Exit.
Proof.
  intros Hnone. unfold init_mmu, init_backingstore. now rewrite Hnone.
Qed.

Lemma init_mmu_without_store_exits_witness :
  w_fopen zero_world main.BACKING_STORE = None
  /\ init_mmu zero_world main.BACKING_STORE main.PAGE_N main.PAGE_SIZE
       main.FRAME_N main.FRAME_SIZE main.TLB_SIZE = Exit.
Proof.
  assert (H : w_fopen zero_world main.BACKING_STORE = None) by reflexivity.
  exact (conj H (init_mmu_without_store_exits zero_world main.BACKING_STORE
                   main.PAGE_N main.PAGE_SIZE main.FRAME_N main.FRAME_SIZE
                   main.TLB_SIZE H)).
Defined.

Lemma physical_inserts_index_range pages size ph ph' :
  physical_inserts pages size ph = Ok ph' ->
  0 <= g_physical_index ph < 256 -> 0 <= g_physical_index ph' < 256.
Proof.
  revert ph. induction pages as [| addr rest IH]; intros ph H Hr; simpl in H.
  - inversion H; subst. exact Hr.
  - apply bind_Ok in H as (ph1 & H1 & H).
    apply physical_insert_index in H1 as (Hi & _).
    apply (IH _ H). rewrite Hi. apply uint8_range.
Qed.

(** X21. In any configuration, along any run from [init_mmu], the allocation
    index is the number of page faults so far less one, as a byte, and the
    frame base reported is [frame_n] times that index, cut to 32 bits. *)
Theorem allocation_index_follows_fault_counter
    (w : world) (store : string)
    (page_n page_size frame_n frame_size tlb_size : Z)
    (s0 : mmu) (history : list Z) (s : mmu) :
  init_mmu w store page_n page_size frame_n frame_size tlb_size = Ok s0 ->
  run s0 history s ->
  g_physical_index (m_physical s) = uint8 (g_pagefault s - 1)
  /\ physical_index (m_physical s) = uint32 (frame_n * uint8 (g_pagefault s - 1)).
Proof.
  intros Hinit Hrun.
  destruct (run_allocations _ _ _ _ _ _ _ _ _ _ Hinit Hrun)
    as (pages & Hlen & Hpages).
  pose proof (physical_inserts_index_range _ _ _ _ Hpages) as Hrange.
  apply physical_inserts_index in Hpages as (Hi & Hn & _).
  simpl in Hrange, Hi, Hn. change (uint8 (-1)) with 255 in Hrange, Hi.
  assert (Hidx : g_physical_index (m_physical s) = uint8 (g_pagefault s - 1)).
  { rewrite <- Hlen.
    unfold uint8 in *. change (2 ^ 8) with 256 in *.
    rewrite Z.mod_small in Hi by (apply Hrange; lia).
    rewrite Hi.
    replace (255 + Z.of_nat (length pages))
      with (Z.of_nat (length pages) - 1 + 1 * 256) by lia.
    apply Z.mod_add. lia. }
  split; [exact Hidx |].
  unfold physical_index. now rewrite uint32_size_t, Hn, Hidx.
Qed.

Lemma allocation_index_follows_fault_counter_witness :
  g_physical_index (m_physical after_page_17)
  = uint8 (g_pagefault after_page_17 - 1)
  /\ physical_index (m_physical after_page_17)
     = uint32 (main.FRAME_N * uint8 (g_pagefault after_page_17 - 1)).
Proof.
  exact (allocation_index_follows_fault_counter _ _ _ _ _ _ _ _ _ _
           reference_init_returns run_page_17).
Defined.

(** X22. In any configuration, a page the page table maps stays mapped, to the
    same frame, whatever is translated afterwards: an entry of the page
    table is written once. *)
Theorem page_table_entries_are_written_once
    (s : mmu) (history : list Z) (s' : mmu) (p : Z) :
  run s history s' ->
  pmt_search p (m_pmt s) = Ok PAGE_SUCCESS ->
  pmt_search p (m_pmt s') = Ok PAGE_SUCCESS
  /\ pmt_get p (m_pmt s') = pmt_get p (m_pmt s).
Proof.
  intros Hrun Hmapped.
  induction Hrun as [| history s1 logical phys s2 _ IH Hstep].
  - split; [exact Hmapped | reflexivity].
  - destruct IH as [Hs Hg].
    destruct (mapped_stays _ _ _ _ _ Hs Hstep) as [Hs' Hg'].
    split; [exact Hs' | congruence].
Qed.

Lemma page_table_entries_are_written_once_witness :
  run after_page_1 [0x1100] after_page_17
  /\ pmt_search 1 (m_pmt after_page_1) = Ok PAGE_SUCCESS
  /\ pmt_search 1 (m_pmt after_page_17) = Ok PAGE_SUCCESS
  /\ pmt_get 1 (m_pmt after_page_17) = pmt_get 1 (m_pmt after_page_1).
Proof.
  assert (Hrun : run after_page_1 [0x1100] after_page_17)
    by exact (run_step _ [] after_page_1 0x1100 256 after_page_17
                (run_nil _) page_17_translated).
  assert (Hmapped : pmt_search 1 (m_pmt after_page_1) = Ok PAGE_SUCCESS)
    by (vm_compute; reflexivity).
  exact (conj Hrun (conj Hmapped
           (page_table_entries_are_written_once _ _ _ 1 Hrun Hmapped))).
Defined.

(** X23. In any configuration, translations leave the sizes, the capacities of
    the three arrays, the flag and the content of the backing file as they
    were. *)
Theorem translations_keep_the_shape (s0 : mmu) (history : list Z) (s : mmu) :
  run s0 history s -> same_shape s0 s.
Proof. exact (run_shape s0 history s). Qed.

Lemma translations_keep_the_shape_witness :
  run reference_state [0x1100; 0x0100] after_page_17
  /\ same_shape reference_state after_page_17.
Proof.
  exact (conj run_page_17 (translations_keep_the_shape _ _ _ run_page_17)).
Defined.

(** ** Units with very many frames *)

(** A page no translation touched misses the page table, and the lookaside
    buffer too unless it is page 255. *)
Lemma untouched_page_misses page_size tlb_size history s p :
  untouched_inv page_size tlb_size history s -> 0 < tlb_size ->
  0 <= p < page_size -> (p ∉ pages_of history) ->
  pmt_search p (m_pmt s) = Ok PAGE_FAULT
  /\ (p <> 255 -> tlb_search p (m_tlb s) = Ok TLB_MISS).
Proof.
  intros [Hsz Hlen Hun Hsl] Hts Hp Hnot. split.
  - unfold pmt_search. rewrite (Hun p Hp Hnot). reflexivity.
  - intros Hne. rewrite tlb_search_slot. unfold tlb_slot, hashCode. rewrite Hsz.
    destruct (Z.eqb_spec tlb_size 0) as [Hz | _]; [lia |]. cbn [bind].
    pose proof (Z.mod_pos_bound p tlb_size Hts) as Hh.
    destruct (load_in_bounds (g_tlb (m_tlb s)) (p mod tlb_size)) as [e He];
      [lia |].
    rewrite He. cbn [bind].
    destruct (Z.eqb_spec (tlb_page e) p) as [Heq | _]; [| reflexivity].
    destruct (Hsl _ _ He) as [H255 | Hin]; [congruence |].
    rewrite Heq in Hin. contradiction.
Qed.

(** A translation that finds neither the buffer nor the page table holding
    its page takes the page-fault path. *)
Lemma missing_page_faults logical s phys s' :
  tlb_search (page (page_offset logical)) (m_tlb s) = Ok TLB_MISS ->
  pmt_search (page (page_offset logical)) (m_pmt s) = Ok PAGE_FAULT ->
  mmu_getphysical logical s = Ok (phys, s') ->
  exists frame,
    phys = uint32 (frame + offset (page_offset logical))
    /\ fault_path (page (page_offset logical)) frame s s'.
Proof.
  intros Ht Hp Hstep.
  apply mmu_getphysical_paths in Hstep
    as (_ & _ & _ & frame & Hphys & [Hh | [Hm | Hf]]).
  - pose proof (hit_search _ _ _ _ Hh). congruence.
  - pose proof (mapped_pmt_search _ _ _ _ Hm). congruence.
  - eauto.
Qed.

(** Translations of pages that are new, below the page size and not 255
    fault one by one. *)
Lemma fresh_run_faults w store page_n page_size frame_n frame_size tlb_size
    s0 history s :
  init_mmu w store page_n page_size frame_n frame_size tlb_size = Ok s0 ->
  0 < tlb_size ->
  run s0 history s ->
  NoDup (pages_of history) ->
  Forall (fun logical => page (page_offset logical) < page_size
                         /\ page (page_offset logical) <> 255) history ->
  g_pagefault s = Z.of_nat (length history) /\ g_tlbhit s = 0.
Proof.
  intros Hinit Hts Hrun.
  induction Hrun as [| history s logical phys s' Hrun IH Hstep];
    intros Hnd Hall.
  - apply init_mmu_physical in Hinit as (_ & -> & -> & _). split; reflexivity.
  - unfold pages_of in Hnd. cbn [map] in Hnd.
    apply NoDup_cons in Hnd as [Hnot Hnd].
    apply Forall_cons in Hall as [[Hlt Hne] Hall].
    destruct (IH Hnd Hall) as [Hpf Hth].
    pose proof (run_untouched_inv _ _ _ _ _ _ _ _ _ _ Hinit ltac:(lia) Hrun)
      as Hinv.
    pose proof (page_range logical) as Hp.
    destruct (untouched_page_misses _ _ _ _ _ Hinv Hts
                (conj (proj1 Hp) Hlt) Hnot) as [Hfault Hmiss].
    destruct (missing_page_faults _ _ _ _ (Hmiss Hne) Hfault Hstep)
      as (frame & _ & Hf).
    rewrite (fault_pagefault _ _ _ _ Hf), (fault_tlbhit _ _ _ _ Hf), Hpf, Hth.
    change (length (logical :: history)) with (S (length history)).
    split; [lia | reflexivity].
Qed.

Lemma run_ok s history s' : mmu_ok s -> run s history s' -> mmu_ok s'.
Proof.
  intros Hok Hrun. eapply mmu_ok_shape; [| exact Hok].
  now apply run_shape in Hrun.
Qed.

(** The frame a page fault reports, from the number of faults before it. *)
Lemma fault_frame_base w store page_n page_size frame_n frame_size tlb_size
    s0 history s p frame s' :
  init_mmu w store page_n page_size frame_n frame_size tlb_size = Ok s0 ->
  run s0 history s ->
  fault_path p frame s s' ->
  frame = uint32 (frame_n * (g_pagefault s mod 256)).
Proof.
  intros Hinit Hrun Hf.
  destruct (run_allocations _ _ _ _ _ _ _ _ _ _ Hinit Hrun)
    as (pages & Hlen & Hpages).
  destruct (fault_read _ _ _ _ Hf) as (data & _ & Hins).
  destruct (physical_inserts_init_index _ _ _ _ _ _ Hpages) as [Hslot Hn].
  destruct (physical_insert_written _ _ _ _ Hins) as [Hbase _].
  rewrite (fault_frame _ _ _ _ Hf), Hbase, Hslot, Hn, Hlen. reflexivity.
Qed.

(** A page the page table does not map stays unmapped while other pages are
    translated. *)
Lemma unmapped_stays p logical s phys s' :
  pmt_search p (m_pmt s) = Ok PAGE_FAULT ->
  mmu_getphysical logical s = Ok (phys, s') ->
  page (page_offset logical) <> p ->
  pmt_search p (m_pmt s') = Ok PAGE_FAULT.
Proof.
  intros Hun Hstep Hne.
  apply mmu_getphysical_paths in Hstep
    as (_ & _ & _ & frame & _ & [Hh | [Hm | Hf]]).
  - now rewrite (hit_pmt _ _ _ _ Hh).
  - now rewrite (mapped_pmt _ _ _ _ Hm).
  - assert (Hpos : 0 <= p).
    { unfold pmt_search in Hun. apply bind_Ok in Hun as (e & He & _).
      now apply load_bounds in He. }
    unfold pmt_search in *.
    now rewrite (pmt_insert_other _ _ _ _ _ (fault_pmt_insert _ _ _ _ Hf) Hpos Hne).
Qed.

(** After a translation, its page sits in its slot: every other page of the
    slot misses. *)
Lemma translated_page_takes_slot logical s phys s' q :
  mmu_getphysical logical s = Ok (phys, s') ->
  q <> page (page_offset logical) ->
  q mod TLB_SIZE (m_tlb s') = page (page_offset logical) mod TLB_SIZE (m_tlb s') ->
  tlb_search (page (page_offset logical)) (m_tlb s') = Ok TLB_HIT
  /\ tlb_search q (m_tlb s') = Ok TLB_MISS.
Proof.
  intros Hstep Hne Hhash.
  apply mmu_getphysical_Ok in Hstep as (_ & _ & frame & Hfind & _).
  apply mmu_findframe_cached in Hfind.
  rewrite !tlb_search_slot, (tlb_slot_congruent _ _ _ Hhash), Hfind.
  cbn [bind tlb_page]. rewrite Z.eqb_refl. split; [reflexivity |].
  destruct (Z.eqb_spec (page (page_offset logical)) q) as [Heq | _];
    [congruence | reflexivity].
Qed.

Lemma first_pages_fresh :
  NoDup (pages_of (0xEF00 :: reverse first_pages))
  /\ Forall (fun logical => page (page_offset logical) < main.PAGE_SIZE
                            /\ page (page_offset logical) <> 255)
       (0xEF00 :: reverse first_pages)
  /\ (255 ∉ pages_of (0xEF00 :: reverse first_pages))
  /\ length first_pages = 254%nat.
Proof.
  split; [| split; [| split]].
  - apply (bool_decide_unpack _). vm_compute. exact I.
  - apply (bool_decide_unpack _). vm_compute. exact I.
  - apply (bool_decide_unpack _). vm_compute. exact I.
  - reflexivity.
Qed.

(** With [frame_n] frames of 256 bytes, and room for a page in each of the
    256 slots: the pages 0 to 254 are translated, page 239 last, and fault
    one by one; page 255 then misses the buffer, whose slot holds page 239,
    and the page table, and its fault, number 255 from 0, reports the frame
    base [frame_n * 255] cut to 32 bits. *)
Lemma last_frame_run (frame_n : Z) :
  0 <= frame_n -> frame_n * 255 + 256 <= size_t (256 * frame_n) ->
  exists s0 s phys s',
    many_frames_init frame_n = Ok s0
    /\ run s0 (0xEF00 :: reverse first_pages) s
    /\ g_pagefault s = 255
    /\ tlb_search 255 (m_tlb s) = Ok TLB_MISS
    /\ pmt_search 255 (m_pmt s) = Ok PAGE_FAULT
    /\ mmu_getphysical 0xFF00 s = Ok (phys, s')
    /\ phys = uint32 (uint32 (frame_n * 255) + 0)
    /\ fault_path 255 (uint32 (frame_n * 255)) s s'
    /\ mmu_ok s'
    /\ g_translated s' = 256
    /\ faulted_in 255 s' /\ faulted_in 239 s'
    /\ TLB_SIZE (m_tlb s') = 16.
Proof.
  intros Hn Hfit.
  destruct first_pages_fresh as (Hnd & Hall & H255 & Hlen).
  assert (Hfile : 256 * 256 <= Z.of_nat (length sample_store))
    by (vm_compute; discriminate).
  destruct (init_mmu_ok (disk sample_store) main.BACKING_STORE sample_store
              256 256 frame_n 256 16 reference_open)
    as (s0 & Hinit & Hok0); try (unfold INT_MAX; lia); try assumption.
  pose proof Hinit as (_ & Hpf0 & Hth0 & Htr0 & _)%init_mmu_physical.
  (* the pages 0 to 238 and 240 to 254 *)
  destruct (translations_return first_pages s0 Hok0) as [s1 Hs1];
    try (rewrite ?Hlen; unfold INT_MAX; lia).
  apply translations_run in Hs1 as Hrun1.
  pose proof (run_ok _ _ _ Hok0 Hrun1) as Hok1.
  pose proof (run_counters _ _ _ Hrun1) as (Htr1 & _ & _ & Hsum1).
  rewrite length_reverse, Hlen in Htr1, Hsum1.
  pose proof (run_untouched_inv _ _ _ _ _ _ _ _ _ _ Hinit ltac:(lia) Hrun1)
    as Hinv1.
  unfold pages_of in Hnd. cbn [map] in Hnd.
  pose proof Hnd as [Hnot239 Hnd1]%NoDup_cons.
  pose proof Hall as [_ Hall1]%Forall_cons.
  destruct (fresh_run_faults _ _ _ _ _ _ _ _ _ _ Hinit ltac:(lia) Hrun1 Hnd1 Hall1)
    as [Hpf1 Hth1].
  rewrite length_reverse, Hlen in Hpf1.
  (* page 239 *)
  destruct (mmu_getphysical_returns 0xEF00 s1 Hok1)
    as (physb & s & Hstepb & Hok); try (unfold INT_MAX; lia).
  assert (Hrun : run s0 (0xEF00 :: reverse first_pages) s)
    by (econstructor; eauto).
  assert (Hpageb : page (page_offset 0xEF00) = 239) by reflexivity.
  assert (Hpagea : page (page_offset 0xFF00) = 255) by reflexivity.
  assert (Hoffa : offset (page_offset 0xFF00) = 0) by reflexivity.
  rewrite Hpageb in Hnot239.
  destruct (untouched_page_misses _ _ _ _ 239 Hinv1 ltac:(lia) ltac:(unfold main.PAGE_SIZE; lia)
              Hnot239) as [Hfault239 Hmiss239].
  assert (Hin239 : faulted_in 239 s).
  { apply (faulted_now 239 s1 0xEF00 physb s Hpageb);
      [apply Hmiss239; lia | exact Hfault239 | exact Hstepb]. }
  destruct (fresh_run_faults _ _ _ _ _ _ _ _ _ _ Hinit ltac:(lia) Hrun Hnd Hall)
    as [Hpf Hth].
  change (length (0xEF00 :: reverse first_pages))
    with (S (length (reverse first_pages))) in Hpf.
  rewrite length_reverse, Hlen in Hpf.
  pose proof (run_counters _ _ _ Hrun) as (Htr & _ & _ & _).
  change (length (0xEF00 :: reverse first_pages))
    with (S (length (reverse first_pages))) in Htr.
  rewrite length_reverse, Hlen in Htr.
  pose proof (run_untouched_inv _ _ _ _ _ _ _ _ _ _ Hinit ltac:(lia) Hrun)
    as Hinv.
  pose proof (inv_tlb_size _ _ _ _ Hinv) as Hsize.
  (* page 255 *)
  assert (Hmiss : tlb_search 255 (m_tlb s) = Ok TLB_MISS).
  { apply (translated_page_takes_slot _ _ _ _ 255 Hstepb);
      rewrite Hpageb, ?Hsize; [lia | reflexivity]. }
  destruct (untouched_page_misses _ _ _ _ 255 Hinv ltac:(lia)
              ltac:(unfold main.PAGE_SIZE; lia) H255) as [Hfault _].
  destruct (mmu_getphysical_returns 0xFF00 s Hok)
    as (phys & s' & Hstep & Hok'); try (unfold INT_MAX; lia).
  pose proof Hstep as Hpath. rewrite <- Hpagea in Hmiss, Hfault.
  apply (missing_page_faults _ _ _ _ Hmiss Hfault) in Hpath
    as (frame & Hphys & Hf).
  pose proof (fault_frame_base _ _ _ _ _ _ _ _ _ _ _ _ _ Hinit Hrun Hf) as Hframe.
  rewrite Hpf in Hframe. change (255 mod 256) with 255 in Hframe.
  rewrite Hpagea in Hmiss, Hfault, Hf. rewrite Hoffa in Hphys. subst frame.
  pose proof (mmu_getphysical_shape _ _ _ _ Hstep) as Hshape.
  pose proof (run_counters _ _ _ (run_step _ _ _ _ _ _ Hrun Hstep))
    as (Htr' & _).
  change (length (0xFF00 :: 0xEF00 :: reverse first_pages))
    with (S (S (length (reverse first_pages)))) in Htr'.
  rewrite length_reverse, Hlen in Htr'.
  exists s0, s, phys, s'.
  split; [exact Hinit |]. split; [exact Hrun |]. split; [exact Hpf |].
  split; [exact Hmiss |]. split; [exact Hfault |]. split; [exact Hstep |].
  split; [exact Hphys |]. split; [exact Hf |]. split; [exact Hok' |].
  split; [lia |]. split; [| split].
  - apply (faulted_now 255 s 0xFF00 phys s' Hpagea Hmiss Hfault Hstep).
  - apply (faulted_before 239 s 0xFF00 phys s' Hin239 Hstep).
  - rewrite (shape_tlb_size _ _ Hshape). exact Hsize.
Qed.


(** C7, as the code has it. With 16843009 frames, all other sizes those of
    [main]: after the pages 0 to 254, the fault of page 255 is given the
    frame base [255 * 16843009], that is [0xFFFFFFFF], which the page table
    stores as -1, the pattern of an unmapped entry. Pages 255 and 239 have
    both been faulted in and share slot 15, which holds page 255. The
    translation of page 239 evicts page 255; the page table then does not
    map page 255, and its next translation is a page fault again. *)
Theorem frame_base_0xFFFFFFFF_faults_again :
  exists s0 history s physb s1 physa s2,
    many_frames_init 16843009 = Ok s0
    /\ run s0 history s
    /\ page (page_offset 0xFF00) = 255 /\ page (page_offset 0xEF00) = 239
    /\ faulted_in 255 s /\ faulted_in 239 s
    /\ tlb_search 255 (m_tlb s) = Ok TLB_HIT
    /\ pmt_get 255 (m_pmt s) = Ok (2 ^ 32 - 1)
    /\ 255 mod TLB_SIZE (m_tlb s) = 239 mod TLB_SIZE (m_tlb s)
    /\ mmu_getphysical 0xEF00 s = Ok (physb, s1)
    /\ tlb_search 239 (m_tlb s1) = Ok TLB_HIT
    /\ tlb_search 255 (m_tlb s1) = Ok TLB_MISS
    /\ pmt_search 255 (m_pmt s1) = Ok PAGE_FAULT
    /\ mmu_getphysical 0xFF00 s1 = Ok (physa, s2)
    /\ g_pagefault s2 = g_pagefault s1 + 1.
Proof.
  assert (Hn : 0 <= 16843009) by lia.
  assert (Hfit : 16843009 * 255 + 256 <= size_t (256 * 16843009))
    by (vm_compute; discriminate).
  destruct (last_frame_run 16843009 Hn Hfit)
    as (s0 & s' & phys & s & Hinit & Hrun' & _ & _ & _ & Hstep
        & _ & Hf & Hok & Htr & Hin255 & Hin239 & Hsize).
  change (uint32 (16843009 * 255)) with (2 ^ 32 - 1) in Hf.
  assert (Hpagea : page (page_offset 0xFF00) = 255) by reflexivity.
  assert (Hpageb : page (page_offset 0xEF00) = 239) by reflexivity.
  pose proof Hinit as (_ & Hpf0 & Hth0 & Htr0 & _)%init_mmu_physical.
  assert (Hrun : run s0 (0xFF00 :: 0xEF00 :: reverse first_pages) s)
    by (econstructor; eauto).
  pose proof (run_counters _ _ _ Hrun) as (_ & Hpf & Hth & Hsum).
  assert (Hlen : Z.of_nat (length (0xFF00 :: 0xEF00 :: reverse first_pages)) = 256).
  { change (length (0xFF00 :: 0xEF00 :: reverse first_pages))
      with (S (S (length (reverse first_pages)))).
    rewrite length_reverse, (proj2 (proj2 (proj2 first_pages_fresh))).
    reflexivity. }
  rewrite Hlen in Hsum.
  (* page 255 is in the buffer, with a frame the page table takes for none *)
  assert (Hcached : tlb_search 255 (m_tlb s) = Ok TLB_HIT).
  { rewrite tlb_search_slot, (tlb_insert_slot _ _ _ _ (fault_tlb_insert _ _ _ _ Hf)).
    reflexivity. }
  assert (Hget : pmt_get 255 (m_pmt s) = Ok (2 ^ 32 - 1))
    by exact (pmt_insert_get _ _ _ _ (fault_pmt_insert _ _ _ _ Hf)).
  assert (Hunmapped : pmt_search 255 (m_pmt s) = Ok PAGE_FAULT).
  { unfold pmt_search.
    rewrite (pmt_insert_load _ _ _ _ (fault_pmt_insert _ _ _ _ Hf)).
    reflexivity. }
  (* page 239 takes the slot *)
  destruct (mmu_getphysical_returns 0xEF00 s Hok)
    as (physb & s1 & Hstepb & Hok1); try (unfold INT_MAX; lia).
  pose proof (mmu_getphysical_shape _ _ _ _ Hstepb) as Hshape.
  assert (Hsize1 : TLB_SIZE (m_tlb s1) = 16)
    by (rewrite (shape_tlb_size _ _ Hshape); exact Hsize).
  destruct (translated_page_takes_slot _ _ _ _ 255 Hstepb) as [Hhitb Hmissa];
    [rewrite Hpageb; lia | rewrite Hpageb, Hsize1; reflexivity |].
  rewrite Hpageb in Hhitb.
  assert (Hunmapped1 : pmt_search 255 (m_pmt s1) = Ok PAGE_FAULT)
    by (apply (unmapped_stays _ _ _ _ _ Hunmapped Hstepb); rewrite Hpageb; lia).
  pose proof (run_counters _ _ _ (run_step _ _ _ _ _ _ Hrun Hstepb))
    as (Htr1 & Hpf1 & Hth1 & Hsum1).
  change (length (0xEF00 :: 0xFF00 :: 0xEF00 :: reverse first_pages))
    with (S (length (0xFF00 :: 0xEF00 :: reverse first_pages))) in Htr1, Hsum1.
  rewrite Nat2Z.inj_succ, Hlen in Htr1, Hsum1.
  (* page 255 faults again *)
  destruct (mmu_getphysical_returns 0xFF00 s1 Hok1)
    as (physa & s2 & Hstepa & _); try (unfold INT_MAX; lia).
  pose proof Hstepa as Hpath. rewrite <- Hpagea in Hmissa, Hunmapped1.
  apply (missing_page_faults _ _ _ _ Hmissa Hunmapped1) in Hpath
    as (frame & _ & Hfa).
  rewrite Hpagea in Hmissa, Hunmapped1.
  exists s0, (0xFF00 :: 0xEF00 :: reverse first_pages), s, physb, s1, physa, s2.
  split; [exact Hinit |]. split; [exact Hrun |].
  split; [exact Hpagea |]. split; [exact Hpageb |].
  split; [exact Hin255 |]. split; [exact Hin239 |].
  split; [exact Hcached |]. split; [exact Hget |].
  split; [rewrite Hsize; reflexivity |].
  split; [exact Hstepb |]. split; [exact Hhitb |]. split; [exact Hmissa |].
  split; [exact Hunmapped1 |]. split; [exact Hstepa |].
  exact (fault_pagefault _ _ _ _ Hfa).
Qed.
